(** * The training-job simulator of [server.js]

    A shallow embedding of the job lifecycle implemented in [server.js]:
    the [jobs] table, the [jobTimers] registry, the interval callback of
    [runTrainingSimulation], and the request handlers
    [POST /api/projects/:id/jobs], [GET /api/jobs/:jobId] and
    [POST /api/jobs/:jobId/cancel].

    Modelling conventions.
    - JavaScript numbers on which control flow depends ([epochs],
      [stepsPerEpoch], [totalSteps], [progress]) are IEEE-754 binary64
      values, taken from the standard library's executable specification
      [SpecFloat]; NaN and the infinities are ordinary values.
    - The counter [step] is a [Z]: it starts at 0 and is only incremented, so
      it is an exact integer well below 2^53 for any run of realistic length.
    - [loss] and [accuracy] go through [Math.exp] (implementation-approximated
      by ECMAScript) and [Math.random]; they are computed in ideal real
      arithmetic, extended with NaN and the infinities.
    - What the callback and the handlers read from their environment (the
      random draws, the clock, and whether a prepared statement's [run]
      throws) is an explicit argument.
    - The columns [created_at] and [updated_at] and the tables [datasets] and
      [models] play no part in the lifecycle and are left out. *)

From Stdlib Require Import ZArith Reals Lra Lia String List Ascii.
From Stdlib Require Import SpecFloat.
From stdpp Require Import base option list gmap strings pretty.

Local Open Scope Z_scope.

(** ** JavaScript numbers *)

Module Js.

Definition prec : Z := 53.
Definition emax : Z := 1024.

(** A JavaScript Number. *)
Definition float : Type := spec_float.

Definition NaN : float := S754_nan.

(** An integer literal, or an integer-valued variable used as a Number. *)
Definition ofZ (z : Z) : float := binary_normalize prec emax z 0 false.

Definition mul : float -> float -> float := SFmul prec emax.
Definition div : float -> float -> float := SFdiv prec emax.

(** [a >= b]: false as soon as one side is NaN. *)
Definition ge (a b : float) : bool := SFleb b a.

(** [a === b] on Numbers. *)
Definition strict_eq (a b : float) : bool := SFeqb a b.

Definition is_nan (x : float) : bool :=
  match x with S754_nan => true | _ => false end.

Definition signed (s : bool) (m : positive) : Z :=
  if s then Z.neg m else Z.pos m.

(** [Math.round]: the integer closest to [x], ties towards +Infinity.  For
    [x = ±m·2^e] with [e < 0] that integer is [⌊x + 1/2⌋], computed exactly on
    integers; a float with [e >= 0] is an integer already. *)
Definition Math_round (x : float) : float :=
  match x with
  | S754_finite s m e =>
      if 0 <=? e then x
      else binary_normalize prec emax
             ((2 * signed s m + 2 ^ (- e)) / 2 ^ (1 - e)) 0 s
  | _ => x
  end.


(** [Math.max] and [Math.min] of two arguments: NaN if either is NaN, and
    +0 is larger than -0. *)
Definition Math_max (a b : float) : float :=
  if is_nan a || is_nan b then NaN
  else if SFltb a b then b
  else if SFltb b a then a
  else match a with S754_zero true => b | _ => a end.

Definition Math_min (a b : float) : float :=
  if is_nan a || is_nan b then NaN
  else if SFltb a b then a
  else if SFltb b a then b
  else match a with S754_zero true => a | _ => b end.


(** *** Ideal reals with NaN and infinities, for [loss] and [accuracy] *)

Inductive real : Type :=
  | RNaN
  | RInf (neg : bool)
  | RFin (x : R).

Definition of_float (x : float) : real :=
  match x with
  | S754_zero _ => RFin 0
  | S754_infinity s => RInf s
  | S754_nan => RNaN
  | S754_finite s m e => RFin (IZR (signed s m) * powerRZ 2 e)
  end.

Definition sgn (x : R) : comparison :=
  if Rlt_dec x 0 then Lt else if Rlt_dec 0 x then Gt else Eq.

Definition rmul (a b : real) : real :=
  match a, b with
  | RNaN, _ | _, RNaN => RNaN
  | RFin x, RFin y => RFin (x * y)
  | RInf s, RInf s' => RInf (xorb s s')
  | RInf s, RFin y | RFin y, RInf s =>
      match sgn y with
      | Eq => RNaN
      | Gt => RInf s
      | Lt => RInf (negb s)
      end
  end.

Definition radd (a b : real) : real :=
  match a, b with
  | RNaN, _ | _, RNaN => RNaN
  | RFin x, RFin y => RFin (x + y)
  | RInf s, RInf s' => if Bool.eqb s s' then RInf s else RNaN
  | RInf s, RFin _ | RFin _, RInf s => RInf s
  end.

Definition rneg (a : real) : real :=
  match a with
  | RNaN => RNaN
  | RInf s => RInf (negb s)
  | RFin x => RFin (- x)
  end.

Definition rsub (a b : real) : real := radd a (rneg b).

Definition Math_exp (a : real) : real :=
  match a with
  | RNaN => RNaN
  | RInf false => RInf false
  | RInf true => RFin 0
  | RFin x => RFin (exp x)
  end.

(** [x.toFixed(4)] read back as a number: [n / 10^4] for the integer [n]
    closest to [|x|·10^4] (the larger one on a tie), with the sign of [x]. *)
Definition toFixed4 (x : R) : R :=
  if Rlt_dec x 0
  then (- (IZR (Int_part (- x * 10000 + / 2)) / 10000))%R
  else (IZR (Int_part (x * 10000 + / 2)) / 10000)%R.

(** [Number(a.toFixed(4))]: "NaN" and "Infinity" read back as themselves. *)
Definition Number_toFixed4 (a : real) : real :=
  match a with
  | RFin x => RFin (toFixed4 x)
  | _ => a
  end.

End Js.

Import Js.

(** ** Data model *)

(** A value of the request body, as the body parsers hand it over: a
    primitive, an array, or a plain object with its own properties, whose
    values are such values again and hence never functions. *)
#[warnings="-register-all"]
Inductive JsValue : Type :=
  | VUndefined
  | VNull
  | VBool (b : bool)
  | VNumber (x : float)
  | VString (s : string)
  | VArray (elems : list JsValue)
  | VObject (props : list (string * JsValue)).

(** [jobs.status]: [queued | running | completed | failed | canceled]. *)
Inductive Status : Type := queued | running | completed | failed | canceled.

Global Instance Status_eq_dec : EqDecision Status.
Proof. solve_decision. Defined.

Definition terminal (s : Status) : bool :=
  match s with
  | completed | failed | canceled => true
  | queued | running => false
  end.

(** One element of [metrics]: the object literal
    [{ step, loss, accuracy, timeMs: Date.now() - startTime }]. *)
Record Sample : Type := mkSample {
  step : Z;
  loss : real;
  accuracy : real;
  timeMs : Z
}.

(** A value stored under a key of a sample. *)
Inductive Field : Type :=
  | FInt (z : Z)
  | FNum (x : real).

(** The own properties of a sample, in insertion order: what
    [JSON.stringify] writes and a client reads back. *)
Definition properties (s : Sample) : list (string * Field) :=
  [("step", FInt (step s)); ("loss", FNum (loss s));
   ("accuracy", FNum (accuracy s)); ("timeMs", FInt (timeMs s))]%string.

Definition keys (s : Sample) : list string := (properties s).*1.

(** [s[k]]: [None] is [undefined]. *)
Fixpoint assoc {A : Type} (k : string) (l : list (string * A)) : option A :=
  match l with
  | [] => None
  | (k', v) :: l' => if String.eqb k k' then Some v else assoc k l'
  end.

Definition property (s : Sample) (k : string) : option Field :=
  assoc k (properties s).

(** A row of [jobs].  [metrics_json] holds the array that the stored text
    serialises ([toJson] on the way in, [fromJson] on the way out); the text
    writes a NaN as [null], the model keeps the number. *)
Record JobRow : Type := mkJobRow {
  id : Z;
  project_id : Z;
  model_id : option Z;
  type : string;
  status : Status;
  progress : float;
  metrics_json : list Sample;
  error : option string
}.

(** A thrown [Error]. *)
Record Exn : Type := mkExn {
  name : string;
  message : string
}.

(** The completion of an evaluation: a value, or a throw. *)
Inductive Completion (A : Type) : Type :=
  | Normal (a : A)
  | Abrupt (e : Exn).
Arguments Normal {A} a.
Arguments Abrupt {A} e.

Global Instance Completion_bind : MBind Completion := fun A B f c =>
  match c with
  | Normal a => f a
  | Abrupt e => Abrupt e
  end.

(** The TypeError of a conversion to a primitive that finds no callable
    [valueOf] or [toString] giving one. *)
Definition cannot_convert : Exn :=
  mkExn "TypeError" "Cannot convert object to primitive value".

(** [String(err?.message || err)]: an empty message is falsy, and an error
    with an empty message prints as its name. *)
Definition error_text (err : Exn) : string :=
  if decide (message err = ""%string) then name err else message err.

(** A value of [jobTimers]: [{ intervalId, startTime }]. *)
Record Timer : Type := mkTimer {
  intervalId : nat;
  startTime : Z
}.

(** The variables an interval callback closes over: the parameters and
    locals of one call of [runTrainingSimulation]. *)
Record Closure : Type := mkClosure {
  cl_jobId : Z;
  cl_totalSteps : float;
  cl_step : Z;
  cl_metrics : list Sample;
  cl_startTime : Z
}.

(** The process and its database. [intervals] is the runtime's table of
    live [setInterval] timers. *)
Record World : Type := mkWorld {
  projects : gset Z;
  next_project : Z;
  jobs : gmap Z JobRow;
  next_job : Z;
  jobTimers : gmap Z Timer;
  intervals : gmap nat Closure;
  next_interval : nat
}.

(** A fresh database and a fresh process. *)
Definition init : World :=
  {| projects := ∅; next_project := 1; jobs := ∅; next_job := 1;
     jobTimers := ∅; intervals := ∅; next_interval := 1 |}.

Definition set_jobs (f : gmap Z JobRow -> gmap Z JobRow) (w : World) : World :=
  {| projects := projects w; next_project := next_project w;
     jobs := f (jobs w); next_job := next_job w;
     jobTimers := jobTimers w; intervals := intervals w;
     next_interval := next_interval w |}.

Definition set_jobTimers (f : gmap Z Timer -> gmap Z Timer) (w : World) : World :=
  {| projects := projects w; next_project := next_project w;
     jobs := jobs w; next_job := next_job w;
     jobTimers := f (jobTimers w); intervals := intervals w;
     next_interval := next_interval w |}.

Definition set_intervals (f : gmap nat Closure -> gmap nat Closure) (w : World) : World :=
  {| projects := projects w; next_project := next_project w;
     jobs := jobs w; next_job := next_job w;
     jobTimers := jobTimers w; intervals := f (intervals w);
     next_interval := next_interval w |}.

(** ** Effects: the world is threaded, and a statement may throw *)

Inductive Outcome (A : Type) : Type :=
  | Returns (a : A) (w : World)
  | Throws (e : Exn) (w : World).
Arguments Returns {A} a w.
Arguments Throws {A} e w.

Definition world_of {A : Type} (o : Outcome A) : World :=
  match o with
  | Returns _ w => w
  | Throws _ w => w
  end.

Definition M (A : Type) : Type := World -> Outcome A.

Global Instance M_ret : MRet M := fun A a w => Returns a w.
Global Instance M_bind : MBind M := fun A B f m w =>
  match m w with
  | Returns a w' => f a w'
  | Throws e w' => Throws e w'
  end.

Definition get {A : Type} (f : World -> A) : M A := fun w => Returns (f w) w.
Definition modify (f : World -> World) : M unit := fun w => Returns () (f w).
Definition throw {A : Type} (e : Exn) : M A := fun w => Throws e w.

(** An evaluation inside a statement sequence: its throw is the sequence's. *)
Definition lift {A : Type} (c : Completion A) : M A :=
  match c with
  | Normal a => mret a
  | Abrupt e => throw e
  end.

(** [db.prepare(sql).run(...)] of a statement that writes [jobs]: it either
    throws (the fault, if any, is the statement's outcome at the store) or
    performs the write.  The fault is an input: the theorems hold whatever
    the store answers.  An answer the schema forces, the refusal of a NULL
    [progress], is told apart by [enforces_not_null] below, and
    [store_reachable] keeps to the runs with such answers. *)
Definition run_stmt (fault : option Exn)
    (f : gmap Z JobRow -> gmap Z JobRow) : M unit :=
  match fault with
  | Some e => throw e
  | None => modify (set_jobs f)
  end.

(** [db.prepare('SELECT * FROM jobs WHERE id = ?').get(jobId)]. *)
Definition select_job (jobId : Z) : M (option JobRow) :=
  get (fun w => jobs w !! jobId).

(** The [SET] clauses of the five [UPDATE jobs ... WHERE id = ?] statements;
    [alter] leaves the table alone when no row has the id. *)
Definition set_status (s : Status) (r : JobRow) : JobRow :=
  mkJobRow (id r) (project_id r) (model_id r) (type r) s
           (progress r) (metrics_json r) (error r).

Definition set_progress_metrics (p : float) (ms : list Sample) (r : JobRow) : JobRow :=
  mkJobRow (id r) (project_id r) (model_id r) (type r) (status r)
           p ms (error r).

Definition set_status_progress_metrics (s : Status) (p : float)
    (ms : list Sample) (r : JobRow) : JobRow :=
  mkJobRow (id r) (project_id r) (model_id r) (type r) s p ms (error r).

Definition set_status_error (s : Status) (e : string) (r : JobRow) : JobRow :=
  mkJobRow (id r) (project_id r) (model_id r) (type r) s
           (progress r) (metrics_json r) (Some e).

Definition set_status_progress (s : Status) (p : float) (r : JobRow) : JobRow :=
  mkJobRow (id r) (project_id r) (model_id r) (type r) s
           p (metrics_json r) (error r).

(** [setInterval(callback, intervalMs)]: a fresh handle for the closure. *)
Definition setInterval (c : Closure) : M nat := fun w =>
  Returns (next_interval w)
    {| projects := projects w; next_project := next_project w;
       jobs := jobs w; next_job := next_job w;
       jobTimers := jobTimers w;
       intervals := <[next_interval w := c]> (intervals w);
       next_interval := S (next_interval w) |}.

Definition clearInterval (i : nat) : M unit :=
  modify (set_intervals (delete i)).

(** ** The simulator *)

(** What one firing of the callback reads from outside: the two
    [Math.random()] draws in evaluation order, [Date.now()], and the outcome
    of the two statements it may run. *)
Record TickEnv : Type := mkTickEnv {
  random1 : R;
  random2 : R;
  now : Z;
  flush_fault : option Exn;
  final_fault : option Exn
}.

(** [Math.min(Math.round((step / totalSteps) * 100), 100)]. *)
Definition progress_of (step : Z) (totalSteps : float) : float :=
  Math_min (Math_round (mul (div (ofZ step) totalSteps) (ofZ 100))) (ofZ 100).


(** [Number((1.5 * Math.exp(-3 * t) + 0.05 * Math.random()).toFixed(4))]. *)
Definition loss_of (t : float) (rnd : R) : real :=
  Number_toFixed4
    (radd (rmul (RFin 1.5) (Math_exp (rmul (RFin (-3)) (of_float t))))
          (rmul (RFin 0.05) (RFin rnd))).

(** [Number((0.5 + 0.5 * t + 0.05 * (Math.random() - 0.5)).toFixed(4))]. *)
Definition accuracy_of (t : float) (rnd : R) : real :=
  Number_toFixed4
    (radd (radd (RFin 0.5) (rmul (RFin 0.5) (of_float t)))
          (rmul (RFin 0.05) (rsub (RFin rnd) (RFin 0.5)))).

(** The object pushed on [metrics] at a given step. *)
Definition sample_of (step : Z) (totalSteps : float) (startTime : Z)
    (env : TickEnv) : Sample :=
  let t := div (ofZ step) totalSteps in
  {| step := step;
     loss := loss_of t (random1 env);
     accuracy := accuracy_of t (random2 env);
     timeMs := now env - startTime |}.

Definition set_closure (i : nat) (c : Closure) : M unit :=
  modify (set_intervals <[i := c]>).

(** The callback handed to [setInterval], fired for the timer [i].  A timer
    that has been cleared does not fire. *)
Definition interval_callback (i : nat) (env : TickEnv) : M unit :=
  c ← get (fun w => intervals w !! i);
  match c with
  | None => mret ()
  | Some c =>
      let jobId := cl_jobId c in
      let totalSteps := cl_totalSteps c in
      let step := cl_step c + 1 in
      let progress := progress_of step totalSteps in
      let metrics := cl_metrics c ++ [sample_of step totalSteps (cl_startTime c) env] in
      set_closure i (mkClosure jobId totalSteps step metrics (cl_startTime c));;
      (if Z.even step || strict_eq progress (ofZ 100)
       then run_stmt (flush_fault env)
              (alter (set_progress_metrics progress metrics) jobId)
       else mret ());;
      if ge (ofZ step) totalSteps
      then
        clearInterval i;;
        modify (set_jobTimers (delete jobId));;
        run_stmt (final_fault env)
          (alter (set_status_progress_metrics completed (ofZ 100) metrics) jobId)
      else mret ()
  end.

(** ** Request handlers *)

(** The members of the request body that the handler destructures, before
    the defaults of
    [const { type = 'train', modelId = null, config = {} } = req.body || {}]
    are applied: an absent member is [None], respectively [VUndefined]. *)
Record JobRequest : Type := mkJobRequest {
  body_type : option string;
  body_modelId : option Z;
  body_config : JsValue
}.

(** What the creation handler reads from outside: the outcome of its three
    writes and the clock. *)
Record CreateEnv : Type := mkCreateEnv {
  insert_fault : option Exn;
  running_fault : option Exn;
  fallback_fault : option Exn;
  clock : Z
}.

(** The JSON body [{ ...job, metrics }] or [{ error }]. *)
Inductive Body : Type :=
  | JobBody (job : option JobRow) (metrics : list Sample)
  | ErrorBody (error : string).

(** A response: a status code with a body, or the framework's answer to a
    handler that threw. *)
Inductive Response : Type :=
  | Reply (code : nat) (body : Body)
  | Uncaught (e : Exn).

(** [config?.epochs]: [undefined] on [undefined] and [null]; a primitive and
    an array have no such property. *)
Definition member (v : JsValue) (k : string) : JsValue :=
  match v with
  | VObject props => default VUndefined (assoc k props)
  | _ => VUndefined
  end.

(** [v ?? d]. *)
Definition nullish (v d : JsValue) : JsValue :=
  match v with
  | VUndefined | VNull => d
  | _ => v
  end.

(** An async function runs its body at once, up to the first [await]; a throw
    rejects the returned promise instead of reaching the caller.  The result
    is the rejection, if any. *)
Definition async (body : M unit) : M (option Exn) := fun w =>
  match body w with
  | Returns _ w' => Returns None w'
  | Throws e w' => Returns (Some e) w'
  end.

(** How the framework answers: a handler that throws gets the default error
    response. *)
Definition serve (h : M Response) (w : World) : Response * World :=
  match h w with
  | Returns r w' => (r, w')
  | Throws e w' => (Uncaught e, w')
  end.

Section Server.

(** ECMAScript's StringToNumber, the conversion [Number] applies to a
    string: a built-in of the runtime. *)
Variable StringToNumber : string -> float.

(** [Array.prototype.toString], that is [join]: a built-in of the runtime.
    It throws when converting an element to a string does. *)
Variable Array_toString : list JsValue -> Completion string.

(** [Number(v)].  An object is converted to a primitive first, through
    [valueOf] and then [toString].  The [valueOf] gives no primitive: the
    inherited one hands back the object, and an own one from the body is no
    function and is passed over.  So an array converts through its
    [toString].  A plain object with an own [toString], which is no function
    either, has nothing left and the conversion throws; without one, the
    inherited [toString] gives ["[object Object]"], which is no numeric
    literal. *)
Definition Number (v : JsValue) : Completion float :=
  match v with
  | VUndefined => Normal NaN
  | VNull => Normal (ofZ 0)
  | VBool b => Normal (if b then ofZ 1 else ofZ 0)
  | VNumber x => Normal x
  | VString s => Normal (StringToNumber s)
  | VArray elems => s ← Array_toString elems; Normal (StringToNumber s)
  | VObject props =>
      match assoc "toString" props with
      | Some _ => Abrupt cannot_convert
      | None => Normal NaN
      end
  end.

(** [Math.max(epochs * stepsPerEpoch, 20)] with
    [epochs = Number(config?.epochs ?? 5)] and
    [stepsPerEpoch = Number(config?.stepsPerEpoch ?? 20)], in this order. *)
Definition totalSteps_of (config : JsValue) : Completion float :=
  epochs ← Number (nullish (member config "epochs") (VNumber (ofZ 5)));
  stepsPerEpoch ←
    Number (nullish (member config "stepsPerEpoch") (VNumber (ofZ 20)));
  Normal (Math_max (mul epochs stepsPerEpoch) (ofZ 20)).

(** The body of [async function runTrainingSimulation(jobId, config)]. *)
Definition runTrainingSimulation_body (jobId : Z) (config : JsValue)
    (env : CreateEnv) : M unit :=
  run_stmt (running_fault env) (alter (set_status running) jobId);;
  totalSteps ← lift (totalSteps_of config);
  let startTime := clock env in
  intervalId ← setInterval (mkClosure jobId totalSteps 0 [] startTime);
  modify (set_jobTimers <[jobId := mkTimer intervalId startTime]>).

Definition runTrainingSimulation (jobId : Z) (config : JsValue)
    (env : CreateEnv) : M (option Exn) :=
  async (runTrainingSimulation_body jobId config env).

(** [INSERT INTO jobs ... VALUES (?, ?, ?, 'queued', 0, '[]')], returning
    [info.lastInsertRowid]. *)
Definition insert_job (fault : option Exn) (projectId : Z)
    (modelId : option Z) (type : string) : M Z :=
  match fault with
  | Some e => throw e
  | None => fun w =>
      let jobId := next_job w in
      Returns jobId
        {| projects := projects w; next_project := next_project w;
           jobs := <[jobId := mkJobRow jobId projectId modelId type
                                 queued (ofZ 0) [] None]> (jobs w);
           next_job := jobId + 1;
           jobTimers := jobTimers w; intervals := intervals w;
           next_interval := next_interval w |}
  end.

(** The handler of [POST /api/projects/:id/jobs], up to its [res.json]; it
    also returns the job id with the promise's rejection, if any, for the
    [.catch] reaction that runs once the handler has returned. *)
Definition post_job_handler (projectId : Z) (req : JobRequest)
    (env : CreateEnv) : M (Response * option (Z * Exn)) :=
  project ← get (fun w => bool_decide (projectId ∈ projects w));
  if negb project
  then mret (Reply 404 (ErrorBody "Project not found"), None)
  else
    let type := default "train"%string (body_type req) in
    let modelId := body_modelId req in
    let config := match body_config req with
                  | VUndefined => VObject []
                  | c => c
                  end in
    jobId ← insert_job (insert_fault env) projectId modelId type;
    rejected ← runTrainingSimulation jobId config env;
    job ← select_job jobId;
    mret (Reply 201 (JobBody job []), (fun err => (jobId, err)) <$> rejected).

(** The reaction registered by [.catch]: the fallback write. *)
Definition catch_fallback (jobId : Z) (err : Exn) (env : CreateEnv) : M unit :=
  run_stmt (fallback_fault env)
    (alter (set_status_error failed (error_text err)) jobId).

(** [POST /api/projects/:id/jobs]: the handler, then the microtask of the
    [.catch] reaction.  A throw of the fallback write is an unhandled
    rejection; the response has been sent by then. *)
Definition POST_jobs (projectId : Z) (req : JobRequest) (env : CreateEnv)
    (w : World) : Response * World :=
  match post_job_handler projectId req env w with
  | Throws e w' => (Uncaught e, w')
  | Returns (resp, pending) w' =>
      (resp,
       match pending with
       | None => w'
       | Some (jobId, err) => world_of (catch_fallback jobId err env w')
       end)
  end.

(** [GET /api/jobs/:jobId]. *)
Definition GET_job (jobId : Z) : M Response :=
  job ← select_job jobId;
  match job with
  | None => mret (Reply 404 (ErrorBody "Job not found"))
  | Some job => mret (Reply 200 (JobBody (Some job) (metrics_json job)))
  end.

(** [POST /api/jobs/:jobId/cancel]; [fault] is the outcome of its write. *)
Definition cancel_handler (jobId : Z) (fault : option Exn) : M Response :=
  job ← select_job jobId;
  match job with
  | None => mret (Reply 404 (ErrorBody "Job not found"))
  | Some job =>
      timer ← get (fun w => jobTimers w !! jobId);
      match timer with
      | Some timer =>
          clearInterval (intervalId timer);;
          modify (set_jobTimers (delete jobId))
      | None => mret ()
      end;;
      run_stmt fault (alter (set_status_progress canceled (progress job)) jobId);;
      updated ← select_job jobId;
      match updated with
      | Some updated =>
          mret (Reply 200 (JobBody (Some updated) (metrics_json updated)))
      | None =>
          throw (mkExn "TypeError"
                   "Cannot read properties of undefined (reading 'metrics_json')")
      end
  end.

Definition POST_cancel (jobId : Z) (fault : option Exn) (w : World)
    : Response * World :=
  serve (cancel_handler jobId fault) w.

(** [POST /api/projects] with a valid name, as far as this model needs it:
    a new project id. *)
Definition POST_projects (w : World) : World :=
  {| projects := {[next_project w]} ∪ projects w;
     next_project := next_project w + 1;
     jobs := jobs w; next_job := next_job w;
     jobTimers := jobTimers w; intervals := intervals w;
     next_interval := next_interval w |}.

(** The process exits (an uncaught exception, a deployment) and is started
    again on the same database. *)
Definition restart (w : World) : World :=
  {| projects := projects w; next_project := next_project w;
     jobs := jobs w; next_job := next_job w;
     jobTimers := ∅; intervals := ∅; next_interval := 1 |}.

(** ** Runs *)

(** What can happen to the process: a request, a timer firing, a restart. *)
Inductive Event : Type :=
  | NewProject
  | CreateJob (projectId : Z) (req : JobRequest) (env : CreateEnv)
  | CancelJob (jobId : Z) (fault : option Exn)
  | Fire (i : nat) (env : TickEnv)
  | Restart.

Definition handle (ev : Event) (w : World) : World :=
  match ev with
  | NewProject => POST_projects w
  | CreateJob projectId req env => (POST_jobs projectId req env w).2
  | CancelJob jobId fault => (POST_cancel jobId fault w).2
  | Fire i env => world_of (interval_callback i env w)
  | Restart => restart w
  end.

Definition run (evs : list Event) (w : World) : World :=
  fold_left (fun w ev => handle ev w) evs w.

Inductive reachable : World -> Prop :=
  | reachable_init : reachable init
  | reachable_step w ev : reachable w -> reachable (handle ev w).

(** ** Properties the claims are stated with *)

(** [metrics[i].step == i + 1] at every valid index. *)
Definition contiguous (ms : list Sample) : Prop :=
  forall (i : nat) (s : Sample), ms !! i = Some s -> step s = Z.of_nat i + 1.

(** The condition under which a firing runs the flush statement. *)
Definition flushes (step : Z) (totalSteps : float) : bool :=
  Z.even step || strict_eq (progress_of step totalSteps) (ofZ 100).

(** The closure after the in-place updates [step++] and [metrics.push]. *)
Definition pushed (c : Closure) (env : TickEnv) : Closure :=
  mkClosure (cl_jobId c) (cl_totalSteps c) (cl_step c + 1)
    (cl_metrics c ++
       [sample_of (cl_step c + 1) (cl_totalSteps c) (cl_startTime c) env])
    (cl_startTime c).

(** The schema's part in a firing.  The fault of a statement is an input of
    a firing, and the theorems hold whatever the faults are.  The store of
    the program does not answer at will, though: [jobs.progress] is
    [INTEGER NOT NULL] and a NaN is bound as NULL, so the flush statement of
    a firing whose progress is NaN throws.  [enforces_not_null w ev] tells
    that the faults of [ev], met in [w], are ones this store can answer
    with. *)
Definition enforces_not_null (w : World) (ev : Event) : bool :=
  match ev with
  | Fire i env =>
      match intervals w !! i with
      | Some c =>
          let step := cl_step c + 1 in
          let progress := progress_of step (cl_totalSteps c) in
          negb (flushes step (cl_totalSteps c) && is_nan progress)
          || match flush_fault env with Some _ => true | None => false end
      | None => true
      end
  | _ => true
  end.

(** Every event of a run has faults that the store of the program can
    answer with. *)
Fixpoint store_run (w : World) (evs : list Event) : bool :=
  match evs with
  | [] => true
  | ev :: evs' => enforces_not_null w ev && store_run (handle ev w) evs'
  end.

(** What holds of every world the process can be in. *)
Record Inv (w : World) : Prop := mkInv {
  inv_registry : forall j tm, jobTimers w !! j = Some tm ->
    exists c, intervals w !! intervalId tm = Some c /\ cl_jobId c = j;
  inv_interval : forall i c, intervals w !! i = Some c ->
    jobTimers w !! cl_jobId c = Some (mkTimer i (cl_startTime c)) /\
    (i < next_interval w)%nat /\
    exists r, jobs w !! cl_jobId c = Some r /\ status r = running /\
              metrics_json r `prefix_of` cl_metrics c;
  inv_buffer : forall i c, intervals w !! i = Some c ->
    contiguous (cl_metrics c) /\ cl_step c = Z.of_nat (length (cl_metrics c));
  inv_rows : forall j r, jobs w !! j = Some r ->
    id r = j /\ j < next_job w /\ contiguous (metrics_json r)
}.

(** ** Worlds and values the proofs name *)

(** Stopping a timer: [clearInterval(intervalId); jobTimers.delete(jobId)]. *)
Definition stop (i : nat) (j : Z) (w : World) : World :=
  set_jobTimers (delete j) (set_intervals (delete i) w).

(** The flush statement of a firing, and its completion statement. *)
Definition flush_row (c : Closure) (w : World) : World :=
  set_jobs (alter (set_progress_metrics
                     (progress_of (cl_step c) (cl_totalSteps c)) (cl_metrics c))
                  (cl_jobId c)) w.

Definition complete_row (c : Closure) (w : World) : World :=
  set_jobs (alter (set_status_progress_metrics completed (ofZ 100) (cl_metrics c))
                  (cl_jobId c)) w.

(** The world once the cancel handler has stopped the timer, if any. *)
Definition untimed (j : Z) (w : World) : World :=
  match jobTimers w !! j with
  | Some tm => stop (intervalId tm) j w
  | None => w
  end.

(** The cancel handler's write, [job] being the row it read first. *)
Definition cancel_row (j : Z) (r : JobRow) (w : World) : World :=
  set_jobs (alter (set_status_progress canceled (progress r)) j) w.

(** The world after the [INSERT], and after the simulation has started. *)
Definition inserted (projectId : Z) (modelId : option Z) (type : string)
    (w : World) : World :=
  {| projects := projects w; next_project := next_project w;
     jobs := <[next_job w := mkJobRow (next_job w) projectId modelId type
                               queued (ofZ 0) [] None]> (jobs w);
     next_job := next_job w + 1;
     jobTimers := jobTimers w; intervals := intervals w;
     next_interval := next_interval w |}.

Definition started (j : Z) (totalSteps : float) (start : Z) (w : World) : World :=
  {| projects := projects w; next_project := next_project w;
     jobs := alter (set_status running) j (jobs w); next_job := next_job w;
     jobTimers := <[j := mkTimer (next_interval w) start]> (jobTimers w);
     intervals := <[next_interval w := mkClosure j totalSteps 0 [] start]> (intervals w);
     next_interval := S (next_interval w) |}.

(** The world once the simulator's status update has run. *)
Definition marked_running (j : Z) (w : World) : World :=
  set_jobs (alter (set_status running) j) w.

(** The world after the fallback write of the [.catch] reaction, if the
    store takes it. *)
Definition marked_failed (j : Z) (e : Exn) (fault : option Exn) (w : World)
    : World :=
  match fault with
  | Some _ => w
  | None => set_jobs (alter (set_status_error failed (error_text e)) j) w
  end.

(** The configuration after the destructuring default [config = {}]. *)
Definition config_of (req : JobRequest) : JsValue :=
  match body_config req with
  | VUndefined => VObject []
  | c => c
  end.

(** The job type after the destructuring default [type = 'train']. *)
Definition type_of (req : JobRequest) : string :=
  default "train"%string (body_type req).

(** A firing whose statements the store accepts. *)
Definition no_fault (env : TickEnv) : Prop :=
  flush_fault env = None /\ final_fault env = None.

(** The samples pushed by successive firings, the first one at step [s + 1]. *)
Fixpoint samples_from (s : Z) (totalSteps : float) (start : Z)
    (envs : list TickEnv) : list Sample :=
  match envs with
  | [] => []
  | env :: envs' =>
      sample_of (s + 1) totalSteps start env
        :: samples_from (s + 1) totalSteps start envs'
  end.

(** A creation and firings that the store accepts, at given clock values and
    with both random draws 0. *)
Definition accepted_create (t : Z) : CreateEnv := mkCreateEnv None None None t.

Definition accepted_tick (t : Z) : TickEnv := mkTickEnv 0 0 t None None.

(** [n] firings of the timer [i], 500 ms apart. *)
Definition firings (i : nat) (n : nat) : list Event :=
  map (fun k => Fire i (accepted_tick (500 * Z.of_nat k))) (seq 1 n).

(** [{ config: { epochs, stepsPerEpoch } }]. *)
Definition request (epochs stepsPerEpoch : Z) : JobRequest :=
  mkJobRequest None None
    (VObject [("epochs"%string, VNumber (ofZ epochs));
              ("stepsPerEpoch"%string, VNumber (ofZ stepsPerEpoch))]).

(** A fresh server, one project, one job, and [n] firings of its timer. *)
Definition one_job (epochs stepsPerEpoch : Z) (n : nat) : World :=
  run ([NewProject; CreateJob 1 (request epochs stepsPerEpoch) (accepted_create 0)]
       ++ firings 1 n) init.

(** The float 100, recognised by its representation. *)
Definition is_hundred (x : float) : bool :=
  match x with
  | S754_finite false 7036874417766400 (-46) => true
  | _ => false
  end.

(** ** Properties the further theorems are stated with *)

(** What [totalSteps] can be: NaN, or a positive number, +Infinity
    included. *)
Definition steps_ok (x : float) : Prop :=
  match x with
  | S754_nan | S754_infinity false | S754_finite false _ _ => True
  | _ => False
  end.

(** NaN, +0, or a positive number. *)
Definition not_negative (x : float) : Prop :=
  match x with
  | S754_nan | S754_zero false | S754_infinity false | S754_finite false _ _ => True
  | _ => False
  end.

(** NaN, or [0 <= p] and [p <= 100]. *)
Definition in_0_100 (p : float) : Prop :=
  is_nan p = true \/ (ge p (ofZ 0) = true /\ ge (ofZ 100) p = true).

(** What holds, besides [Inv], of every world the process can be in: the
    [totalSteps] of a live timer is NaN or positive; a stored progress is NaN
    or within 0..100; and the progress stored for a job with a live timer is
    the one computed at the step of its last stored sample. *)
Record Inv2 (w : World) : Prop := mkInv2 {
  inv2_steps : forall i c, intervals w !! i = Some c ->
    steps_ok (cl_totalSteps c);
  inv2_progress : forall j r, jobs w !! j = Some r -> in_0_100 (progress r);
  inv2_tick : forall i c r, intervals w !! i = Some c ->
    jobs w !! cl_jobId c = Some r ->
    (metrics_json r = [] /\ progress r = ofZ 0) \/
    progress r
      = progress_of (Z.of_nat (length (metrics_json r))) (cl_totalSteps c)
}.

(** An event other than a firing whose flush statement throws. *)
Definition quiet (ev : Event) : Prop :=
  match ev with
  | Fire _ env => flush_fault env = None
  | _ => True
  end.

(** The worlds of the runs in which no flush statement throws. *)
Inductive quietly_reachable : World -> Prop :=
  | quietly_init : quietly_reachable init
  | quietly_step w ev :
      quietly_reachable w -> quiet ev -> quietly_reachable (handle ev w).

(** The buffer is the stored array, or the stored array and one more sample,
    pushed at an odd step. *)
Definition lag_ok (w : World) : Prop :=
  forall i c r, intervals w !! i = Some c -> jobs w !! cl_jobId c = Some r ->
    length (cl_metrics c) = length (metrics_json r) \/
    (length (cl_metrics c) = S (length (metrics_json r)) /\
     Z.odd (cl_step c) = true).

(** The worlds of the runs in which every fault is one the store of the
    program can answer with. *)
Inductive store_reachable : World -> Prop :=
  | store_init : store_reachable init
  | store_step w ev :
      store_reachable w -> enforces_not_null w ev = true ->
      store_reachable (handle ev w).

(** No row of the table holds a NaN progress. *)
Definition nan_free (rows : gmap Z JobRow) : Prop :=
  forall j r, rows !! j = Some r -> is_nan (progress r) = false.

(** The columns of a job row that only the INSERT writes. *)
Definition same_job (r r' : JobRow) : Prop :=
  id r' = id r /\ project_id r' = project_id r /\ model_id r' = model_id r /\
  type r' = type r.

(** [totalSteps] is NaN or at least 20. *)
Definition at_least_20 (x : float) : Prop :=
  is_nan x = true \/ ge x (ofZ 20) = true.

(** The [totalSteps] of a live timer is NaN or at least 20, and a row is
    [completed] only with progress 100 and at least 20 samples. *)
Record Inv3 (w : World) : Prop := mkInv3 {
  inv3_steps : forall i c, intervals w !! i = Some c ->
    at_least_20 (cl_totalSteps c);
  inv3_completed : forall j r, jobs w !! j = Some r -> status r = completed ->
    progress r = ofZ 100 /\ (20 <= length (metrics_json r))%nat
}.

(** ** Uploads *)

(** *** The stored file name *)

(** A file name, as [file.originalname], is a string of 8-bit characters.
    The characters the pattern [[^\w.\-]] does not match: letters, digits,
    [_], [.] and [-]. *)
Definition is_safe (a : ascii) : bool :=
  let n := nat_of_ascii a in
  ((48 <=? n) && (n <=? 57) || (65 <=? n) && (n <=? 90)
   || (97 <=? n) && (n <=? 122) || (n =? 95) || (n =? 46) || (n =? 45))%nat.

(** [s.replace(/[^\w.\-]+/g, '_')]: every maximal run of other characters
    becomes one underscore.  [in_run] tells that the previous character was
    part of such a run. *)
Fixpoint replace_unsafe (in_run : bool) (s : string) : string :=
  match s with
  | EmptyString => EmptyString
  | String a s' =>
      if is_safe a then String a (replace_unsafe false s')
      else if in_run then replace_unsafe true s'
      else String "_"%char (replace_unsafe true s')
  end.

(** [const safeName = file.originalname.replace(/[^\w.\-]+/g, '_')]. *)
Definition safeName (originalname : string) : string :=
  replace_unsafe false originalname.

(** The template literal [`${Date.now()}_${safeName}`]; [now] is the integer
    number of milliseconds [Date.now()] returns, printed in decimal. *)
Definition storage_filename (now : Z) (originalname : string) : string :=
  pretty now +:+ "_" +:+ safeName originalname.

(** Every character of a string satisfies [p]. *)
Fixpoint all_chars (p : ascii -> bool) (s : string) : bool :=
  match s with
  | EmptyString => true
  | String a s' => p a && all_chars p s'
  end.

(** The characters [0] to [9]. *)
Definition is_digit (a : ascii) : bool :=
  let n := nat_of_ascii a in ((48 <=? n) && (n <=? 57))%nat.

(** *** The row estimate *)

(** [const bufferSize = 1024 * 1024]. *)
Definition bufferSize : Z := 1024 * 1024.

(** The cap of the scan, [10 * 1024 * 1024]. *)
Definition scan_cap : Z := 10 * 1024 * 1024.

(** What the file system does during one scan: how many bytes the read at a
    given position hands over (at least one while bytes are left, never more
    than asked for), and which of the calls throw. *)
Record ScanEnv : Type := mkScanEnv {
  granted : Z -> Z;
  read_throws : Z -> bool;
  open_throws : bool;
  close_throws : bool
}.

(** [fs.readSync(fd, buffer, 0, length, position)]: the bytes put at the
    start of the buffer; [bytesRead] is their number, 0 at the end of file. *)
Definition readSync (file : list Byte.byte) (length position : Z) (env : ScanEnv)
    : list Byte.byte :=
  take (Z.to_nat (Z.min length (Z.max 1 (granted env position))))
       (drop (Z.to_nat position) file).

(** The [for] loop over [buffer[0 .. bytesRead)]. *)
Definition count_newlines (totalNewlines : Z) (chunk : list Byte.byte) : Z :=
  fold_left (fun n b => if Byte.eqb b Byte.x0a then n + 1 else n)
            chunk totalNewlines.

(** The [while] loop.  [None]: the fuel ran out; [Some None]: a read threw;
    [Some (Some n)]: the loop ended with [totalNewlines = n]. *)
Fixpoint scan (fuel : nat) (file : list Byte.byte) (env : ScanEnv)
    (totalRead totalNewlines : Z) : option (option Z) :=
  match fuel with
  | O => None
  | S fuel' =>
      if read_throws env totalRead then Some None
      else
        let chunk := readSync file bufferSize totalRead env in
        let bytesRead := Z.of_nat (length chunk) in
        if (0 <? bytesRead) && (totalRead <? scan_cap) then
          let totalRead' := totalRead + bytesRead in
          let totalNewlines' := count_newlines totalNewlines chunk in
          if scan_cap <=? totalRead' then Some (Some totalNewlines')
          else scan fuel' file env totalRead' totalNewlines'
        else Some (Some totalNewlines)
  end.

(** The [try] block: [rowsCount], [None] for [null].  [file] is what is at
    [filePath], if anything. *)
Definition count_rows (file : option (list Byte.byte)) (env : ScanEnv)
    : option Z :=
  match file with
  | None => None
  | Some bytes =>
      if open_throws env then None
      else
        match scan (S (length bytes)) bytes env 0 0 with
        | Some (Some totalNewlines) =>
            if close_throws env then None
            else Some (Z.max (totalNewlines - 1) 0)
        | _ => None
        end
  end.

(** The number of line feeds of a byte sequence. *)
Definition newlines (bytes : list Byte.byte) : Z := count_newlines 0 bytes.

(** A file system that hands over whole chunks and never throws. *)
Definition full_reads : ScanEnv :=
  mkScanEnv (fun _ => bufferSize) (fun _ => false) false false.

(** *** The upload handler *)

(** The file of a request as multer hands it to the storage engine and to
    the handler.  [part_name] is [file.originalname]: what multer keeps of the
    file name the client sent, which is its last path component (for the
    client's [../a b/c.csv] it is [c.csv]); [part_bytes] is the content.  A
    request without a part named [file], or whose file name is empty, has no
    such file: multer sets no [req.file], which is [None] below.  So in a
    request of the program [part_name] is not empty and has no path
    separator. *)
Record Part : Type := mkPart {
  part_name : string;
  part_bytes : list Byte.byte
}.

(** [req.file]; [path] is the stored file name within the uploads
    directory. *)
Record File : Type := mkFile {
  originalname : string;
  filename : string;
  file_size : Z;
  file_path : string
}.

(** A row of the table [datasets]; [rows] is nullable. *)
Record DatasetRow : Type := mkDatasetRow {
  d_id : Z;
  d_project_id : Z;
  d_name : string;
  d_filename : string;
  d_size_bytes : Z;
  d_rows : option Z
}.

(** The server with its datasets: the table and the uploads directory, a
    file name to its bytes. *)
Record Site : Type := mkSite {
  world : World;
  datasets : gmap Z DatasetRow;
  next_dataset : Z;
  uploads : gmap string (list Byte.byte)
}.

Definition site_init : Site := mkSite init ∅ 1 ∅.

Definition set_world (f : World -> World) (s : Site) : Site :=
  mkSite (f (world s)) (datasets s) (next_dataset s) (uploads s).

Definition set_uploads
    (f : gmap string (list Byte.byte) -> gmap string (list Byte.byte))
    (s : Site) : Site :=
  mkSite (world s) (datasets s) (next_dataset s) (f (uploads s)).

(** What one upload request meets: the clock, the file system during the
    scan, and the store at the [INSERT]. *)
Record UploadEnv : Type := mkUploadEnv {
  date_now : Z;
  scan_env : ScanEnv;
  dataset_fault : option Exn
}.

(** [upload.single('file')] with the disk storage, for the file multer found
    in the request, if any: the file is written under the storage file name,
    over whatever file has that name, and [req.file] describes it.  multer
    streams the content to the disk and calls the handler when the write has
    finished; here the write is one step, so this is an upload that no other
    upload overlaps in time. *)
Definition upload_single (part : option Part) (now : Z) (s : Site)
    : option File * Site :=
  match part with
  | None => (None, s)
  | Some p =>
      let fn := storage_filename now (part_name p) in
      (Some (mkFile (part_name p) fn (Z.of_nat (length (part_bytes p))) fn),
       set_uploads <[fn := part_bytes p]> s)
  end.

(** A response of the upload route: the new row, an error body, or the
    framework's answer to a handler that threw. *)
Inductive DatasetResponse : Type :=
  | DatasetReply (row : DatasetRow)
  | DatasetError (code : nat) (error : string)
  | DatasetUncaught (e : Exn).

(** [POST /api/projects/:id/datasets], the middleware included, for a
    request that is handled by itself: the write of the middleware and the
    handler are one step, and a run of several uploads takes them one after
    the other, each answered before the next one arrives.  Uploads that
    overlap in time, where the write of one request falls between the write
    and the handler of another, are outside this model.  The [fs.unlink] of
    the 404 branch ignores its outcome; its effect is taken at once. *)
Definition POST_datasets (projectId : Z) (part : option Part) (env : UploadEnv)
    (s : Site) : DatasetResponse * Site :=
  let '(file, s1) := upload_single part (date_now env) s in
  if bool_decide (projectId ∈ projects (world s1)) then
    match file with
    | None => (DatasetError 400 "file field is required", s1)
    | Some f =>
        let rowsCount := count_rows (uploads s1 !! file_path f) (scan_env env) in
        match dataset_fault env with
        | Some e => (DatasetUncaught e, s1)
        | None =>
            let row := mkDatasetRow (next_dataset s1) projectId (originalname f)
                         (filename f) (file_size f) rowsCount in
            (DatasetReply row,
             mkSite (world s1) (<[next_dataset s1 := row]> (datasets s1))
                    (next_dataset s1 + 1) (uploads s1))
        end
    end
  else
    (DatasetError 404 "Project not found",
     match file with
     | Some f => set_uploads (delete (file_path f)) s1
     | None => s1
     end).

(** What can happen to the site: an event of the job server, or an upload. *)
Inductive SiteEvent : Type :=
  | OnWorld (ev : Event)
  | Upload (projectId : Z) (part : option Part) (env : UploadEnv).

(** An event of the job server leaves the datasets and the uploads alone. *)
Definition site_handle (ev : SiteEvent) (s : Site) : Site :=
  match ev with
  | OnWorld ev => set_world (handle ev) s
  | Upload projectId part env => (POST_datasets projectId part env s).2
  end.

Definition site_run (evs : list SiteEvent) (s : Site) : Site :=
  fold_left (fun s ev => site_handle ev s) evs s.

(** Every upload happens at a later millisecond than the one before. *)
Fixpoint clock_increases (last : Z) (evs : list SiteEvent) : Prop :=
  match evs with
  | [] => True
  | OnWorld _ :: evs' => clock_increases last evs'
  | Upload _ _ env :: evs' =>
      last < date_now env /\ clock_increases (date_now env) evs'
  end.

(** What the rows of [datasets] say about the uploads directory. *)
Record SiteInv (last : Z) (s : Site) : Prop := mkSiteInv {
  si_last : -1 <= last;
  si_files : forall fn bytes, uploads s !! fn = Some bytes ->
    exists t nm, 0 <= t <= last /\ fn = storage_filename t nm;
  si_rows : forall i row, datasets s !! i = Some row ->
    d_id row = i /\ i < next_dataset s /\
    d_project_id row ∈ projects (world s) /\
    exists bytes, uploads s !! d_filename row = Some bytes /\
      d_size_bytes row = Z.of_nat (length bytes) /\
      match d_rows row with
      | Some n => 0 <= n <= d_size_bytes row
      | None => True
      end;
  si_unique : forall i i' row row',
    datasets s !! i = Some row -> datasets s !! i' = Some row' ->
    d_filename row = d_filename row' -> i = i'
}.

(** ** Auxiliary lemmas *)

Lemma contiguous_nil : contiguous [].
Proof. intros i s H. rewrite lookup_nil in H. discriminate. Qed.

Lemma contiguous_snoc ms s :
  contiguous ms -> step s = Z.of_nat (length ms) + 1 -> contiguous (ms ++ [s]).
Proof.
  intros Hc Hs i x Hi.
  destruct (decide (i < length ms)%nat) as [Hlt | Hge].
  - rewrite lookup_app_l in Hi by done. by apply Hc.
  - rewrite lookup_app_r in Hi by lia.
    destruct (i - length ms)%nat as [| n] eqn:E; simpl in Hi; [| by destruct n].
    inversion Hi; subst x. rewrite Hs. f_equal. lia.
Qed.

Lemma contiguous_prefix ms ms' :
  ms `prefix_of` ms' -> contiguous ms' -> contiguous ms.
Proof.
  intros Hp Hc i s Hi. apply Hc. by eapply prefix_lookup_Some.
Qed.

Lemma contiguous_step_pos ms s : contiguous ms -> s ∈ ms -> 1 <= step s.
Proof.
  intros Hc [i Hi]%list_elem_of_lookup. rewrite (Hc i s Hi). lia.
Qed.

(** An interval is the only one for its job. *)
Lemma Inv_interval_unique w i i' c c' :
  Inv w -> intervals w !! i = Some c -> intervals w !! i' = Some c' ->
  cl_jobId c = cl_jobId c' -> i = i'.
Proof.
  intros HI Hc Hc' Hj.
  destruct (inv_interval w HI i c Hc) as [Ht _].
  destruct (inv_interval w HI i' c' Hc') as [Ht' _].
  rewrite Hj in Ht. rewrite Ht in Ht'. by inversion Ht'.
Qed.

(** A job without a registry entry has no interval, and conversely. *)
Lemma Inv_no_timer_no_interval w j :
  Inv w -> jobTimers w !! j = None ->
  forall i c, intervals w !! i = Some c -> cl_jobId c <> j.
Proof.
  intros HI Hn i c Hc <-.
  destruct (inv_interval w HI i c Hc) as [Ht _]. congruence.
Qed.

Lemma Inv_not_running_no_timer w j r :
  Inv w -> jobs w !! j = Some r -> status r <> running ->
  jobTimers w !! j = None.
Proof.
  intros HI Hr Hs.
  destruct (jobTimers w !! j) as [tm |] eqn:Ht; [| done].
  destruct (inv_registry w HI j tm Ht) as (c & Hc & Hj).
  destruct (inv_interval w HI _ c Hc) as (_ & _ & r' & Hr' & Hrun & _).
  rewrite Hj, Hr in Hr'. inversion Hr'; subst r'. contradiction.
Qed.

(** *** The invariant is kept by each write of the callback *)

Lemma Inv_push w i c env :
  Inv w -> intervals w !! i = Some c ->
  Inv (set_intervals <[i := pushed c env]> w).
Proof.
  intros HI Hc.
  destruct (inv_interval w HI i c Hc) as (Ht & Hlt & r & Hr & Hrun & Hpre).
  destruct (inv_buffer w HI i c Hc) as [Hcont Hlen].
  split; simpl.
  - intros j tm Htm.
    destruct (inv_registry w HI j tm Htm) as (c0 & Hc0 & Hj).
    destruct (decide (i = intervalId tm)) as [Heq | Hne].
    + rewrite <- Heq in *.
      exists (pushed c env). rewrite lookup_insert_eq. split; [done |].
      simpl. rewrite Hc in Hc0. by inversion Hc0.
    + exists c0. by rewrite lookup_insert_ne.
  - intros i0 c0 Hc0.
    destruct (decide (i = i0)) as [<- | Hne].
    + rewrite lookup_insert_eq in Hc0. inversion Hc0; subst c0; simpl.
      split; [done |]. split; [done |].
      exists r. split; [done |]. split; [done |]. by apply prefix_app_r.
    + rewrite lookup_insert_ne in Hc0 by done.
      by apply (inv_interval w HI).
  - intros i0 c0 Hc0.
    destruct (decide (i = i0)) as [<- | Hne].
    + rewrite lookup_insert_eq in Hc0. inversion Hc0; subst c0; simpl.
      split.
      * apply contiguous_snoc; [done |]. simpl. lia.
      * rewrite length_app. simpl. lia.
    + rewrite lookup_insert_ne in Hc0 by done.
      by apply (inv_buffer w HI i0).
  - apply (inv_rows w HI).
Qed.

Lemma Inv_flush w i c p :
  Inv w -> intervals w !! i = Some c ->
  Inv (set_jobs (alter (set_progress_metrics p (cl_metrics c)) (cl_jobId c)) w).
Proof.
  intros HI Hc.
  destruct (inv_interval w HI i c Hc) as (Ht & Hlt & r & Hr & Hrun & Hpre).
  destruct (inv_buffer w HI i c Hc) as [Hcont Hlen].
  split; simpl.
  - apply (inv_registry w HI).
  - intros i0 c0 Hc0.
    destruct (inv_interval w HI i0 c0 Hc0) as (Ht0 & Hlt0 & r0 & Hr0 & Hrun0 & Hpre0).
    split; [done |]. split; [done |].
    destruct (decide (cl_jobId c = cl_jobId c0)) as [Heq | Hne].
    + assert (i = i0) as <- by (eapply Inv_interval_unique; eauto).
      assert (c0 = c) as -> by congruence.
      exists (set_progress_metrics p (cl_metrics c) r).
      rewrite lookup_alter_eq, Hr. simpl. done.
    + exists r0. by rewrite lookup_alter_ne.
  - apply (inv_buffer w HI).
  - intros j r0 Hr0.
    destruct (decide (cl_jobId c = j)) as [<- | Hne].
    + rewrite lookup_alter_eq, Hr in Hr0. inversion Hr0; subst r0; simpl.
      destruct (inv_rows w HI _ r Hr) as (Hid & Hnext & _). done.
    + rewrite lookup_alter_ne in Hr0 by done. by apply (inv_rows w HI).
Qed.

Lemma Inv_stop w i c :
  Inv w -> intervals w !! i = Some c -> Inv (stop i (cl_jobId c) w).
Proof.
  intros HI Hc.
  destruct (inv_interval w HI i c Hc) as (Ht & Hlt & r & Hr & Hrun & Hpre).
  split; simpl.
  - intros j tm Htm.
    apply lookup_delete_Some in Htm as [Hne Htm].
    destruct (inv_registry w HI j tm Htm) as (c0 & Hc0 & Hj).
    exists c0. split; [| done].
    rewrite lookup_delete_ne; [done |].
    intros Heq. apply Hne. rewrite Heq, Hc0 in Hc. inversion Hc; by subst.
  - intros i0 c0 Hc0.
    apply lookup_delete_Some in Hc0 as [Hne Hc0].
    destruct (inv_interval w HI i0 c0 Hc0) as (Ht0 & Hlt0 & Hrow).
    split; [| done].
    rewrite lookup_delete_ne; [done |].
    intros Heq. apply Hne. eapply Inv_interval_unique; eauto.
  - intros i0 c0 Hc0.
    apply lookup_delete_Some in Hc0 as [Hne Hc0].
    by apply (inv_buffer w HI i0).
  - apply (inv_rows w HI).
Qed.

Lemma stop_no_interval w i c :
  Inv w -> intervals w !! i = Some c ->
  forall i0 c0, intervals (stop i (cl_jobId c) w) !! i0 = Some c0 ->
                cl_jobId c0 <> cl_jobId c.
Proof.
  intros HI Hc i0 c0 Hc0 Heq. simpl in Hc0.
  apply lookup_delete_Some in Hc0 as [Hne Hc0].
  apply Hne. symmetry. eapply Inv_interval_unique; eauto.
Qed.

(** A write to the row of a job that has no interval. *)
Lemma Inv_alter_idle w j f :
  Inv w ->
  (forall i c, intervals w !! i = Some c -> cl_jobId c <> j) ->
  (forall r, jobs w !! j = Some r ->
             id (f r) = id r /\ contiguous (metrics_json (f r))) ->
  Inv (set_jobs (alter f j) w).
Proof.
  intros HI Hidle Hf.
  split; simpl.
  - apply (inv_registry w HI).
  - intros i c Hc.
    destruct (inv_interval w HI i c Hc) as (Ht & Hlt & r & Hr & Hrow).
    split; [done |]. split; [done |].
    exists r. rewrite lookup_alter_ne; [done |].
    intros ->. by eapply Hidle.
  - apply (inv_buffer w HI).
  - intros j0 r0 Hr0.
    destruct (decide (j = j0)) as [<- | Hne].
    + rewrite lookup_alter_eq in Hr0.
      destruct (jobs w !! j) as [r |] eqn:Hr; simpl in Hr0; [| done].
      inversion Hr0; subst r0.
      destruct (Hf r eq_refl) as [Hid Hcont].
      destruct (inv_rows w HI j r Hr) as (Hid' & Hnext & _).
      split; [congruence | done].
    + rewrite lookup_alter_ne in Hr0 by done. by apply (inv_rows w HI).
Qed.

(** *** The callback and the handlers, case by case *)

Lemma interval_callback_idle i env w :
  intervals w !! i = None -> interval_callback i env w = Returns () w.
Proof.
  intros H. unfold interval_callback, mbind, M_bind, get. by rewrite H.
Qed.

Lemma interval_callback_unfold i env w c :
  intervals w !! i = Some c ->
  let c' := pushed c env in
  let w1 := set_intervals <[i := c']> w in
  interval_callback i env w =
    if flushes (cl_step c') (cl_totalSteps c) then
      match flush_fault env with
      | Some e => Throws e w1
      | None =>
          if ge (ofZ (cl_step c')) (cl_totalSteps c) then
            match final_fault env with
            | Some e => Throws e (stop i (cl_jobId c) (flush_row c' w1))
            | None => Returns () (complete_row c' (stop i (cl_jobId c) (flush_row c' w1)))
            end
          else Returns () (flush_row c' w1)
      end
    else
      if ge (ofZ (cl_step c')) (cl_totalSteps c) then
        match final_fault env with
        | Some e => Throws e (stop i (cl_jobId c) w1)
        | None => Returns () (complete_row c' (stop i (cl_jobId c) w1))
        end
      else Returns () w1.
Proof.
  intros H. unfold interval_callback, mbind, M_bind, get. rewrite H.
  unfold flushes, pushed. simpl.
  destruct (Z.even (cl_step c + 1) || _);
    destruct (flush_fault env); simpl; try reflexivity;
    destruct (ge _ _); simpl; try reflexivity;
    destruct (final_fault env); reflexivity.
Qed.

Lemma Inv_complete w i c c' :
  Inv w -> intervals w !! i = Some c' -> cl_jobId c' = cl_jobId c ->
  Inv (complete_row c' (stop i (cl_jobId c) w)).
Proof.
  intros HI Hc Hj. rewrite <- Hj.
  apply Inv_alter_idle.
  - by apply Inv_stop.
  - by apply stop_no_interval.
  - intros r _. simpl. split; [done |]. by apply (inv_buffer w HI i).
Qed.

Lemma Inv_fire w i env : Inv w -> Inv (handle (Fire i env) w).
Proof.
  intros HI. simpl.
  destruct (intervals w !! i) as [c |] eqn:Hc;
    [| by rewrite interval_callback_idle].
  rewrite (interval_callback_unfold i env w c Hc). cbv zeta.
  pose proof (Inv_push w i c env HI Hc) as H1.
  set (c' := pushed c env) in *.
  set (w1 := set_intervals <[i := c']> w) in *.
  assert (Hc1 : intervals w1 !! i = Some c') by apply lookup_insert_eq.
  pose proof (Inv_flush w1 i c' (progress_of (cl_step c') (cl_totalSteps c'))
                H1 Hc1) as H2.
  assert (Hc2 : intervals (flush_row c' w1) !! i = Some c') by apply Hc1.
  destruct (flushes _ _); destruct (flush_fault env); simpl; try done;
    destruct (ge _ _); simpl; try done;
    destruct (final_fault env); simpl;
    first [ by apply (Inv_stop _ i c')
          | by apply (Inv_complete _ i c') ].
Qed.

Lemma cancel_handler_missing j fault w :
  jobs w !! j = None ->
  cancel_handler j fault w = Returns (Reply 404 (ErrorBody "Job not found")) w.
Proof.
  intros H. unfold cancel_handler, select_job, mbind, M_bind, get. by rewrite H.
Qed.

Lemma cancel_handler_unfold j fault w r :
  jobs w !! j = Some r ->
  cancel_handler j fault w =
    match fault with
    | Some e => Throws e (untimed j w)
    | None =>
        Returns (Reply 200 (JobBody (Some (set_status_progress canceled (progress r) r))
                                    (metrics_json r)))
                (cancel_row j r (untimed j w))
    end.
Proof.
  intros H. unfold cancel_handler, select_job, untimed, mbind, M_bind, get.
  rewrite H.
  destruct (jobTimers w !! j) as [tm |]; destruct fault; simpl; try reflexivity;
    unfold cancel_row; simpl; rewrite lookup_alter_eq, H; reflexivity.
Qed.

Lemma Inv_untimed w j : Inv w -> Inv (untimed j w).
Proof.
  intros HI. unfold untimed.
  destruct (jobTimers w !! j) as [tm |] eqn:Ht; [| done].
  destruct (inv_registry w HI j tm Ht) as (c & Hc & <-).
  by apply Inv_stop.
Qed.

Lemma untimed_no_interval w j :
  Inv w -> forall i c, intervals (untimed j w) !! i = Some c -> cl_jobId c <> j.
Proof.
  intros HI. unfold untimed.
  destruct (jobTimers w !! j) as [tm |] eqn:Ht.
  - destruct (inv_registry w HI j tm Ht) as (c & Hc & <-).
    by apply stop_no_interval.
  - by apply Inv_no_timer_no_interval.
Qed.

Lemma Inv_cancel w j fault : Inv w -> Inv (handle (CancelJob j fault) w).
Proof.
  intros HI. simpl. unfold POST_cancel, serve.
  destruct (jobs w !! j) as [r |] eqn:Hr.
  - rewrite (cancel_handler_unfold j fault w r Hr).
    destruct fault; simpl; [by apply Inv_untimed |].
    apply Inv_alter_idle.
    + by apply Inv_untimed.
    + by apply untimed_no_interval.
    + intros r0 Hr0. simpl. split; [done |].
      eapply (inv_rows _ (Inv_untimed w j HI)); eauto.
  - by rewrite cancel_handler_missing.
Qed.

Lemma POST_jobs_no_project projectId req env w :
  projectId ∉ projects w ->
  POST_jobs projectId req env w = (Reply 404 (ErrorBody "Project not found"), w).
Proof.
  intros H. unfold POST_jobs, post_job_handler, mbind, M_bind, get.
  by rewrite bool_decide_eq_false_2.
Qed.

Lemma POST_jobs_unfold projectId req env w :
  projectId ∈ projects w ->
  let j := next_job w in
  let w1 := inserted projectId (body_modelId req) (type_of req) w in
  let row := mkJobRow j projectId (body_modelId req) (type_of req)
               queued (ofZ 0) [] None in
  POST_jobs projectId req env w =
    match insert_fault env with
    | Some e => (Uncaught e, w)
    | None =>
        match running_fault env with
        | Some e =>
            (Reply 201 (JobBody (Some row) []),
             marked_failed j e (fallback_fault env) w1)
        | None =>
            (Reply 201 (JobBody (Some (set_status running row)) []),
             match totalSteps_of (config_of req) with
             | Normal totalSteps => started j totalSteps (clock env) w1
             | Abrupt e =>
                 marked_failed j e (fallback_fault env) (marked_running j w1)
             end)
        end
    end.
Proof.
  intros H. unfold POST_jobs, post_job_handler, mbind, M_bind, get.
  rewrite bool_decide_eq_true_2 by done. simpl.
  unfold insert_job. destruct (insert_fault env); simpl; [reflexivity |].
  unfold runTrainingSimulation, async, runTrainingSimulation_body,
    mbind, M_bind, run_stmt.
  destruct (running_fault env); simpl.
  - unfold select_job, get. simpl. rewrite lookup_insert_eq.
    unfold catch_fallback, run_stmt, marked_failed.
    by destruct (fallback_fault env).
  - fold (config_of req).
    destruct (totalSteps_of (config_of req)) as [totalSteps | e]; simpl.
    + unfold select_job, get. simpl. rewrite lookup_alter_eq, lookup_insert_eq.
      reflexivity.
    + unfold select_job, get. simpl. rewrite lookup_alter_eq, lookup_insert_eq.
      unfold catch_fallback, run_stmt, marked_failed, marked_running.
      by destruct (fallback_fault env).
Qed.

Lemma Inv_inserted w projectId modelId type :
  Inv w -> Inv (inserted projectId modelId type w).
Proof.
  intros HI. split; simpl.
  - apply (inv_registry w HI).
  - intros i c Hc.
    destruct (inv_interval w HI i c Hc) as (Ht & Hlt & r & Hr & Hrow).
    split; [done |]. split; [done |]. exists r.
    rewrite lookup_insert_ne; [done |].
    intros Heq. destruct (inv_rows w HI _ r Hr) as (_ & Hnext & _). lia.
  - apply (inv_buffer w HI).
  - intros j r Hr. apply lookup_insert_Some in Hr as [[<- <-] | [Hne Hr]].
    + simpl. split; [done |]. split; [lia |]. apply contiguous_nil.
    + destruct (inv_rows w HI j r Hr) as (? & ? & ?).
      split; [done |]. split; [lia | done].
Qed.

Lemma inserted_fresh w projectId modelId type :
  Inv w ->
  jobTimers (inserted projectId modelId type w) !! next_job w = None /\
  forall i c, intervals (inserted projectId modelId type w) !! i = Some c ->
              cl_jobId c <> next_job w.
Proof.
  intros HI. simpl.
  assert (Hno : forall i c, intervals w !! i = Some c -> cl_jobId c <> next_job w).
  { intros i c Hc Heq.
    destruct (inv_interval w HI i c Hc) as (_ & _ & r & Hr & _).
    destruct (inv_rows w HI _ r Hr) as (_ & Hnext & _). lia. }
  split; [| done].
  destruct (jobTimers w !! next_job w) as [tm |] eqn:Ht; [| done].
  destruct (inv_registry w HI _ tm Ht) as (c & Hc & Hj).
  by destruct (Hno _ c Hc).
Qed.

Lemma Inv_started w j r totalSteps start :
  Inv w -> jobs w !! j = Some r -> metrics_json r = [] ->
  jobTimers w !! j = None ->
  (forall i c, intervals w !! i = Some c -> cl_jobId c <> j) ->
  Inv (started j totalSteps start w).
Proof.
  intros HI Hr Hm Hnt Hni. split; simpl.
  - intros j0 tm Htm. apply lookup_insert_Some in Htm as [[<- <-] | [Hne Htm]].
    + simpl. eexists. by rewrite lookup_insert_eq.
    + destruct (inv_registry w HI j0 tm Htm) as (c & Hc & Hj).
      exists c. split; [| done]. rewrite lookup_insert_ne; [done |].
      intros Heq. destruct (inv_interval w HI _ c Hc) as (_ & Hlt & _). lia.
  - intros i c Hc. apply lookup_insert_Some in Hc as [[<- <-] | [Hne Hc]].
    + simpl. rewrite lookup_insert_eq. split; [done |]. split; [lia |].
      exists (set_status running r). rewrite lookup_alter_eq, Hr. simpl.
      split; [done |]. split; [done |]. by rewrite Hm.
    + destruct (inv_interval w HI i c Hc) as (Ht & Hlt & r0 & Hr0 & Hrow).
      assert (cl_jobId c <> j) by eauto.
      rewrite lookup_insert_ne by done. split; [done |]. split; [lia |].
      exists r0. by rewrite lookup_alter_ne.
  - intros i c Hc. apply lookup_insert_Some in Hc as [[<- <-] | [Hne Hc]].
    + simpl. split; [apply contiguous_nil | done].
    + by apply (inv_buffer w HI i).
  - intros j0 r0 Hr0.
    destruct (decide (j = j0)) as [<- | Hne].
    + rewrite lookup_alter_eq, Hr in Hr0. inversion Hr0; subst r0. simpl.
      by apply (inv_rows w HI j).
    + rewrite lookup_alter_ne in Hr0 by done. by apply (inv_rows w HI).
Qed.

Lemma marked_failed_jobTimers j e fault w :
  jobTimers (marked_failed j e fault w) = jobTimers w.
Proof. by destruct fault. Qed.

Lemma marked_failed_intervals j e fault w :
  intervals (marked_failed j e fault w) = intervals w.
Proof. by destruct fault. Qed.

Lemma marked_failed_projects j e fault w :
  projects (marked_failed j e fault w) = projects w.
Proof. by destruct fault. Qed.

Lemma marked_failed_other j e fault w j0 :
  j0 <> j -> jobs (marked_failed j e fault w) !! j0 = jobs w !! j0.
Proof. intros H. destruct fault; simpl; [done |]. by rewrite lookup_alter_ne. Qed.

Lemma marked_running_other j w j0 :
  j0 <> j -> jobs (marked_running j w) !! j0 = jobs w !! j0.
Proof. intros H. simpl. by rewrite lookup_alter_ne. Qed.

Lemma Inv_marked_running w j :
  Inv w -> (forall i c, intervals w !! i = Some c -> cl_jobId c <> j) ->
  Inv (marked_running j w).
Proof.
  intros HI Hni. apply Inv_alter_idle; [done | done |].
  intros r Hr. simpl. split; [done |]. by apply (inv_rows _ HI _ r Hr).
Qed.

Lemma Inv_marked_failed w j e fault :
  Inv w -> (forall i c, intervals w !! i = Some c -> cl_jobId c <> j) ->
  Inv (marked_failed j e fault w).
Proof.
  intros HI Hni. destruct fault; simpl; [done |].
  apply Inv_alter_idle; [done | done |].
  intros r Hr. simpl. split; [done |]. by apply (inv_rows _ HI _ r Hr).
Qed.

Lemma Inv_create w projectId req env :
  Inv w -> Inv (handle (CreateJob projectId req env) w).
Proof.
  intros HI. simpl.
  destruct (decide (projectId ∈ projects w)) as [Hin | Hout];
    [| by rewrite POST_jobs_no_project].
  rewrite (POST_jobs_unfold projectId req env w Hin). cbv zeta.
  pose proof (Inv_inserted w projectId (body_modelId req) (type_of req) HI) as H1.
  destruct (inserted_fresh w projectId (body_modelId req) (type_of req) HI)
    as [Hnt Hni].
  destruct (insert_fault env); [done |].
  destruct (running_fault env); simpl.
  - by apply Inv_marked_failed.
  - destruct (totalSteps_of _).
    + eapply Inv_started; eauto.
      * simpl. apply lookup_insert_eq.
      * done.
    + apply Inv_marked_failed; [by apply Inv_marked_running | done].
Qed.

Lemma Inv_init : Inv init.
Proof. split; simpl; intros ? ? H; by rewrite lookup_empty in H. Qed.

Lemma Inv_handle w ev : Inv w -> Inv (handle ev w).
Proof.
  intros HI. destruct ev.
  - split; simpl; apply HI.
  - by apply Inv_create.
  - by apply Inv_cancel.
  - by apply Inv_fire.
  - split; simpl; try (intros ? ? H; by rewrite lookup_empty in H).
    apply (inv_rows w HI).
Qed.

Lemma reachable_Inv w : reachable w -> Inv w.
Proof. induction 1; [apply Inv_init | by apply Inv_handle]. Qed.

Lemma reachable_run w evs : reachable w -> reachable (run evs w).
Proof.
  revert w. induction evs as [| ev evs IH]; intros w Hw; [done |].
  simpl. apply IH. by constructor.
Qed.

(** *** How one event can change a row *)

Lemma jobs_untimed j w : jobs (untimed j w) = jobs w.
Proof. unfold untimed. by destruct (jobTimers w !! j). Qed.

(** A row never disappears, and an event changes it in one of two ways:
    a successful cancel of that job, or a firing of that job's timer. *)
Lemma row_step w ev j r :
  Inv w -> jobs w !! j = Some r ->
  exists r', jobs (handle ev w) !! j = Some r' /\
    (r' = r \/
     (ev = CancelJob j None /\ r' = set_status_progress canceled (progress r) r) \/
     (exists i env c, ev = Fire i env /\ intervals w !! i = Some c /\
        cl_jobId c = j /\ metrics_json r' = cl_metrics (pushed c env) /\
        (status r' = status r \/ status r' = completed) /\
        error r' = error r)).
Proof.
  intros HI Hr.
  destruct (inv_rows w HI j r Hr) as (_ & Hnext & _).
  destruct ev as [| projectId req env | j0 fault | i env |]; simpl.
  - eauto.
  - destruct (decide (projectId ∈ projects w)) as [Hin | Hout];
      [| rewrite POST_jobs_no_project by done; eauto].
    rewrite (POST_jobs_unfold projectId req env w Hin). cbv zeta.
    destruct (insert_fault env); [eauto |].
    destruct (running_fault env);
      [| destruct (totalSteps_of _)]; simpl;
      exists r; (split; [| by left]);
      rewrite ?marked_failed_other, ?marked_running_other by lia;
      simpl; rewrite ?lookup_alter_ne by lia; by rewrite lookup_insert_ne by lia.
  - unfold POST_cancel, serve.
    destruct (jobs w !! j0) as [r0 |] eqn:Hr0;
      [| rewrite cancel_handler_missing by done; eauto].
    rewrite (cancel_handler_unfold j0 fault w r0 Hr0).
    destruct fault; simpl; [rewrite jobs_untimed; eauto |].
    rewrite jobs_untimed.
    destruct (decide (j0 = j)) as [-> | Hne].
    + rewrite lookup_alter_eq, Hr. simpl.
      assert (r0 = r) as -> by congruence. eauto 10.
    + rewrite lookup_alter_ne by done. eauto.
  - destruct (intervals w !! i) as [c |] eqn:Hc;
      [| rewrite interval_callback_idle by done; eauto].
    rewrite (interval_callback_unfold i env w c Hc). cbv zeta.
    destruct (decide (cl_jobId c = j)) as [<- | Hne].
    + destruct (flushes _ _); destruct (flush_fault env); simpl; eauto;
        destruct (ge _ _); simpl; eauto;
        destruct (final_fault env); simpl;
        rewrite ?lookup_alter_eq, Hr; simpl; eauto;
        eexists; (split; [reflexivity |]); right; right;
        exists i, env, c; simpl; eauto 10.
    + destruct (flushes _ _); destruct (flush_fault env); simpl; eauto;
        destruct (ge _ _); simpl; eauto;
        destruct (final_fault env); simpl;
        rewrite ?lookup_alter_ne by done; eauto.
  - eauto.
Qed.

Lemma row_step_prefix w ev j r :
  Inv w -> jobs w !! j = Some r ->
  exists r', jobs (handle ev w) !! j = Some r' /\
             metrics_json r `prefix_of` metrics_json r'.
Proof.
  intros HI Hr.
  destruct (row_step w ev j r HI Hr) as (r' & Hr' & Hcase).
  exists r'. split; [done |].
  destruct Hcase as [-> | [[_ ->] | (i & env & c & _ & Hc & Hj & Hm & _)]];
    [done | done |].
  rewrite Hm. simpl. apply prefix_app_r.
  destruct (inv_interval w HI i c Hc) as (_ & _ & r0 & Hr0 & _ & Hpre).
  rewrite Hj, Hr in Hr0. by inversion Hr0; subst r0.
Qed.

Lemma rows_run_prefix evs w j r :
  Inv w -> jobs w !! j = Some r ->
  exists r', jobs (run evs w) !! j = Some r' /\
             metrics_json r `prefix_of` metrics_json r'.
Proof.
  revert w r. induction evs as [| ev evs IH]; intros w r HI Hr; simpl.
  - exists r. done.
  - destruct (row_step_prefix w ev j r HI Hr) as (r1 & Hr1 & Hp1).
    destruct (IH _ r1 (Inv_handle w ev HI) Hr1) as (r2 & Hr2 & Hp2).
    exists r2. split; [done |]. by etrans.
Qed.

(** How one event can change the buffer of a live timer. *)
Lemma buffer_step w ev i c c' :
  Inv w -> intervals w !! i = Some c -> intervals (handle ev w) !! i = Some c' ->
  c' = c \/ exists env, ev = Fire i env /\ c' = pushed c env.
Proof.
  intros HI Hc Hc'.
  destruct (inv_interval w HI i c Hc) as (_ & Hlt & _).
  destruct ev as [| projectId req env | j0 fault | i0 env |]; simpl in Hc'.
  - left. congruence.
  - destruct (decide (projectId ∈ projects w)) as [Hin | Hout];
      [| rewrite POST_jobs_no_project in Hc' by done; left; simpl in Hc'; congruence].
    rewrite (POST_jobs_unfold projectId req env w Hin) in Hc'. cbv zeta in Hc'.
    destruct (insert_fault env); [left; simpl in Hc'; congruence |].
    destruct (running_fault env); [| destruct (totalSteps_of _)];
      simpl in Hc'; rewrite ?marked_failed_intervals in Hc'; simpl in Hc';
      rewrite ?lookup_insert_ne in Hc' by lia; left; congruence.
  - unfold POST_cancel, serve in Hc'.
    destruct (jobs w !! j0) as [r0 |] eqn:Hr0;
      [| rewrite cancel_handler_missing in Hc' by done; left; simpl in Hc'; congruence].
    rewrite (cancel_handler_unfold j0 fault w r0 Hr0) in Hc'.
    assert (Hu : intervals (untimed j0 w) !! i = Some c').
    { by destruct fault. }
    left. unfold untimed in Hu. destruct (jobTimers w !! j0); simpl in Hu;
      [apply lookup_delete_Some in Hu as [_ Hu] |]; congruence.
  - destruct (intervals w !! i0) as [c0 |] eqn:Hc0;
      [| rewrite interval_callback_idle in Hc' by done; left; simpl in Hc'; congruence].
    rewrite (interval_callback_unfold i0 env w c0 Hc0) in Hc'. cbv zeta in Hc'.
    destruct (decide (i0 = i)) as [-> | Hne].
    + assert (c0 = c) as -> by congruence. right. exists env. split; [done |].
      destruct (flushes _ _); destruct (flush_fault env); simpl in Hc';
        try (rewrite lookup_insert_eq in Hc'; congruence);
        destruct (ge _ _); simpl in Hc';
        try (rewrite lookup_insert_eq in Hc'; congruence);
        destruct (final_fault env); simpl in Hc';
        by rewrite lookup_delete_eq in Hc'.
    + left.
      destruct (flushes _ _); destruct (flush_fault env); simpl in Hc';
        try (rewrite lookup_insert_ne in Hc' by done; congruence);
        destruct (ge _ _); simpl in Hc';
        try (rewrite lookup_insert_ne in Hc' by done; congruence);
        destruct (final_fault env); simpl in Hc';
        apply lookup_delete_Some in Hc' as [_ Hc'];
        rewrite lookup_insert_ne in Hc' by done; congruence.
  - by rewrite lookup_empty in Hc'.
Qed.

Lemma contiguous_increasing ms i k s s' :
  contiguous ms -> ms !! i = Some s -> ms !! k = Some s' ->
  (i < k)%nat -> step s < step s'.
Proof. intros Hc Hi Hk Hlt. rewrite (Hc i s Hi), (Hc k s' Hk). lia. Qed.

(** A terminal job has no timer, and an event leaves its row alone unless it
    is a successful cancel of that job. *)
Lemma terminal_no_timer w j r :
  Inv w -> jobs w !! j = Some r -> terminal (status r) = true ->
  jobTimers w !! j = None /\
  forall i c, intervals w !! i = Some c -> cl_jobId c <> j.
Proof.
  intros HI Hr Ht.
  assert (Hn : jobTimers w !! j = None).
  { eapply Inv_not_running_no_timer; eauto. by destruct (status r). }
  split; [done |]. by apply Inv_no_timer_no_interval.
Qed.

Lemma terminal_step w ev j r :
  Inv w -> jobs w !! j = Some r -> terminal (status r) = true ->
  exists r', jobs (handle ev w) !! j = Some r' /\
    (r' = r \/ (ev = CancelJob j None /\ r' = set_status canceled r)).
Proof.
  intros HI Hr Ht.
  destruct (row_step w ev j r HI Hr) as (r' & Hr' & Hcase).
  exists r'. split; [done |].
  destruct Hcase as [-> | [[-> ->] | (i & env & c & _ & Hc & Hj & _)]];
    [by left | by right |].
  destruct (terminal_no_timer w j r HI Hr Ht) as [_ Hno].
  by destruct (Hno i c Hc).
Qed.

Lemma terminal_run evs w j r :
  Inv w -> jobs w !! j = Some r -> terminal (status r) = true ->
  exists r', jobs (run evs w) !! j = Some r' /\
    (r' = r \/ (In (CancelJob j None) evs /\ r' = set_status canceled r)).
Proof.
  revert w r. induction evs as [| ev evs IH]; intros w r HI Hr Ht; simpl.
  - eauto.
  - destruct (terminal_step w ev j r HI Hr Ht) as (r1 & Hr1 & Hcase).
    assert (Ht1 : terminal (status r1) = true).
    { by destruct Hcase as [-> | [_ ->]]. }
    destruct (IH _ r1 (Inv_handle w ev HI) Hr1 Ht1) as (r2 & Hr2 & Hcase2).
    exists r2. split; [done |].
    destruct Hcase as [-> | [-> ->]].
    + destruct Hcase2 as [-> | [Hin ->]]; [by left | right; auto].
    + right. split; [by left |].
      by destruct Hcase2 as [-> | [_ ->]].
Qed.

(** ** The claims *)

(** C7. At every point of a run, the samples of a job, in the callback's
    buffer and in the stored row, have [metrics[i].step == i + 1] at every
    valid index, hence strictly increasing steps; a firing appends one sample
    with the next step to the buffer and no event drops a sample from it; and
    whatever happens afterwards, the stored array only grows: the array
    stored before is a prefix of the array stored after. *)
Theorem metrics_contiguous_append_only w :
  reachable w ->
  (forall j r (i : nat) s, jobs w !! j = Some r ->
     metrics_json r !! i = Some s -> step s = Z.of_nat i + 1) /\
  (forall k c (i : nat) s, intervals w !! k = Some c ->
     cl_metrics c !! i = Some s -> step s = Z.of_nat i + 1) /\
  (forall j r (i k : nat) s s', jobs w !! j = Some r ->
     metrics_json r !! i = Some s -> metrics_json r !! k = Some s' ->
     (i < k)%nat -> step s < step s') /\
  (forall ev k c c', intervals w !! k = Some c ->
     intervals (handle ev w) !! k = Some c' ->
     cl_metrics c' = cl_metrics c \/
     exists s, cl_metrics c' = cl_metrics c ++ [s] /\
               step s = Z.of_nat (length (cl_metrics c)) + 1 /\
               exists env, ev = Fire k env) /\
  (forall evs j r, jobs w !! j = Some r ->
     exists r', jobs (run evs w) !! j = Some r' /\
                metrics_json r `prefix_of` metrics_json r' /\
                (length (metrics_json r) <= length (metrics_json r'))%nat).
Proof.
  intros Hw. pose proof (reachable_Inv w Hw) as HI.
  split; [| split; [| split; [| split]]].
  - intros j r i s Hr Hi. by apply (inv_rows w HI j r Hr).
  - intros k c i s Hc Hi. by apply (inv_buffer w HI k c Hc).
  - intros j r i k s s' Hr Hi Hk Hlt.
    eapply contiguous_increasing; eauto. by apply (inv_rows w HI j r Hr).
  - intros ev k c c' Hc Hc'.
    destruct (buffer_step w ev k c c' HI Hc Hc') as [-> | (env & -> & ->)];
      [by left | right].
    eexists. split; [reflexivity |]. simpl.
    destruct (inv_buffer w HI k c Hc) as [_ ->]. eauto.
  - intros evs j r Hr.
    destruct (rows_run_prefix evs w j r HI Hr) as (r' & Hr' & Hp).
    exists r'. split; [done |]. split; [done |]. by apply prefix_length.
Qed.

Lemma set_jobs_same f w : f (jobs w) = jobs w -> set_jobs f w = w.
Proof. destruct w. unfold set_jobs. simpl. by intros ->. Qed.

Lemma untimed_idle j w : jobTimers w !! j = None -> untimed j w = w.
Proof. unfold untimed. by intros ->. Qed.

Lemma POST_cancel_found j w r :
  jobs w !! j = Some r ->
  POST_cancel j None w =
    (Reply 200 (JobBody (Some (set_status canceled r)) (metrics_json r)),
     cancel_row j r (untimed j w)).
Proof.
  intros Hr. unfold POST_cancel, serve.
  by rewrite (cancel_handler_unfold j None w r Hr).
Qed.

(** C1 (amended). Once a job is terminal it has no timer and no registry
    entry, and no later operation changes its progress, its metrics or its
    error; its status stays terminal. But cancelling it is not a no-op: the
    handler runs the same update as for a running job, so a completed or
    failed job becomes canceled. The call answers 200 with the updated
    record, and a second cancel returns that same record and changes
    nothing. *)
Theorem terminal_job_only_cancel_rewrites_status w j r :
  reachable w -> jobs w !! j = Some r -> terminal (status r) = true ->
  (jobTimers w !! j = None /\
   forall i c, intervals w !! i = Some c -> cl_jobId c <> j) /\
  (forall evs, exists r', jobs (run evs w) !! j = Some r' /\
     progress r' = progress r /\ metrics_json r' = metrics_json r /\
     error r' = error r /\
     (status r' = status r \/
      (In (CancelJob j None) evs /\ status r' = canceled))) /\
  (let resp := Reply 200 (JobBody (Some (set_status canceled r)) (metrics_json r)) in
   let w' := (POST_cancel j None w).2 in
   (POST_cancel j None w).1 = resp /\
   jobs w' !! j = Some (set_status canceled r) /\
   POST_cancel j None w' = (resp, w')).
Proof.
  intros Hw Hr Ht. pose proof (reachable_Inv w Hw) as HI.
  destruct (terminal_no_timer w j r HI Hr Ht) as [Hnt Hni].
  split; [done |]. split.
  - intros evs.
    destruct (terminal_run evs w j r HI Hr Ht) as (r' & Hr' & Hcase).
    exists r'. split; [done |].
    destruct Hcase as [-> | [Hin ->]]; simpl; auto 10.
  - cbv zeta. rewrite (POST_cancel_found j w r Hr). simpl.
    rewrite (untimed_idle j w Hnt).
    assert (Hr' : jobs (cancel_row j r w) !! j = Some (set_status canceled r)).
    { simpl. by rewrite lookup_alter_eq, Hr. }
    split; [done |]. split; [done |].
    rewrite (POST_cancel_found j _ _ Hr'). simpl. f_equal.
    rewrite untimed_idle by done.
    apply set_jobs_same, alter_id.
    intros x Hx. simpl in Hx. rewrite lookup_alter_eq, Hr in Hx.
    by inversion Hx.
Qed.

Lemma POST_jobs_started projectId req env w totalSteps :
  projectId ∈ projects w ->
  insert_fault env = None -> running_fault env = None ->
  totalSteps_of (config_of req) = Normal totalSteps ->
  POST_jobs projectId req env w =
    (Reply 201 (JobBody (Some (mkJobRow (next_job w) projectId (body_modelId req)
                                 (type_of req) running (ofZ 0) [] None)) []),
     started (next_job w) totalSteps (clock env)
       (inserted projectId (body_modelId req) (type_of req) w)).
Proof.
  intros Hin Hi Hr HT. rewrite (POST_jobs_unfold projectId req env w Hin).
  cbv zeta. by rewrite Hi, Hr, HT.
Qed.

Lemma POST_jobs_rejected projectId req env w e :
  projectId ∈ projects w ->
  insert_fault env = None -> running_fault env = None ->
  totalSteps_of (config_of req) = Abrupt e ->
  POST_jobs projectId req env w =
    (Reply 201 (JobBody (Some (mkJobRow (next_job w) projectId (body_modelId req)
                                 (type_of req) running (ofZ 0) [] None)) []),
     marked_failed (next_job w) e (fallback_fault env)
       (marked_running (next_job w)
          (inserted projectId (body_modelId req) (type_of req) w))).
Proof.
  intros Hin Hi Hr HT. rewrite (POST_jobs_unfold projectId req env w Hin).
  cbv zeta. by rewrite Hi, Hr, HT.
Qed.

(** C6. Cancelling a job that has a live registry entry stops its timer,
    removes the entry and stores [status = canceled]; the stored progress and
    the stored metrics stay as last flushed, the response carries exactly
    them, and nothing that happens later writes the buffered samples: the row
    keeps that progress and those metrics. A job cancelled right after its
    creation, before any firing, is canceled with progress 0 and no
    metrics; it has a registry entry by then exactly when converting its
    configuration did not throw. *)
Theorem cancel_freezes_last_flushed_state w :
  reachable w ->
  (forall j tm, jobTimers w !! j = Some tm ->
     exists r, jobs w !! j = Some r /\ status r = running /\
     let w' := (POST_cancel j None w).2 in
     (POST_cancel j None w).1 =
       Reply 200 (JobBody (Some (set_status canceled r)) (metrics_json r)) /\
     intervals w' !! intervalId tm = None /\
     (forall i c, intervals w' !! i = Some c -> cl_jobId c <> j) /\
     jobTimers w' !! j = None /\
     (exists r', jobs w' !! j = Some r' /\ status r' = canceled /\
        progress r' = progress r /\ metrics_json r' = metrics_json r) /\
     (forall evs, exists r', jobs (run evs w') !! j = Some r' /\
        status r' = canceled /\ progress r' = progress r /\
        metrics_json r' = metrics_json r)) /\
  (forall projectId req env,
     projectId ∈ projects w ->
     insert_fault env = None -> running_fault env = None ->
     let j := next_job w in
     let w1 := (POST_jobs projectId req env w).2 in
     (is_Some (jobTimers w1 !! j) <->
      exists totalSteps, totalSteps_of (config_of req) = Normal totalSteps) /\
     exists r', (POST_cancel j None w1).1 = Reply 200 (JobBody (Some r') []) /\
       status r' = canceled /\ progress r' = ofZ 0 /\ metrics_json r' = []).
Proof.
  intros Hw. pose proof (reachable_Inv w Hw) as HI. split.
  - intros j tm Htm.
    destruct (inv_registry w HI j tm Htm) as (c0 & Hc0 & Hj0).
    destruct (inv_interval w HI _ c0 Hc0) as (_ & _ & r & Hr & Hrn & _).
    rewrite Hj0 in Hr. exists r. split; [done |]. split; [done |]. cbv zeta.
    rewrite (POST_cancel_found j w r Hr). simpl.
    assert (HI' : Inv (cancel_row j r (untimed j w))).
    { pose proof (Inv_cancel w j None HI) as H. simpl in H.
      by rewrite (POST_cancel_found j w r Hr) in H. }
    assert (Hr' : jobs (cancel_row j r (untimed j w)) !! j
                  = Some (set_status canceled r)).
    { simpl. by rewrite jobs_untimed, lookup_alter_eq, Hr. }
    split; [done |]. split; [| split; [| split; [| split]]].
    + unfold untimed. rewrite Htm. simpl. apply lookup_delete_eq.
    + intros i c Hc. by apply (untimed_no_interval w j HI i c).
    + unfold untimed. rewrite Htm. simpl. apply lookup_delete_eq.
    + eexists. split; [exact Hr' | done].
    + intros evs.
      destruct (terminal_run evs _ j _ HI' Hr' eq_refl) as (r' & Hrun & Hcase).
      exists r'. split; [done |].
      by destruct Hcase as [-> | [_ ->]].
  - intros projectId req env Hin Hi Hr. cbv zeta.
    destruct (totalSteps_of (config_of req)) as [T | e] eqn:HT.
    + rewrite (POST_jobs_started projectId req env w T Hin Hi Hr HT). simpl.
      split; [rewrite lookup_insert_eq; split; eauto |].
      erewrite POST_cancel_found;
        [| simpl; rewrite lookup_alter_eq, lookup_insert_eq; reflexivity].
      simpl. eexists. split; [reflexivity | done].
    + rewrite (POST_jobs_rejected projectId req env w e Hin Hi Hr HT). simpl.
      split.
      * rewrite marked_failed_jobTimers. simpl.
        destruct (inserted_fresh w projectId (body_modelId req) (type_of req) HI)
          as [Hnt _]. simpl in Hnt. rewrite Hnt.
        split; [by intros [? ?] | by intros [? ?]].
      * destruct (fallback_fault env); simpl;
          (erewrite POST_cancel_found;
            [| simpl; rewrite !lookup_alter_eq, lookup_insert_eq; reflexivity]);
          simpl; eexists; (split; [reflexivity | done]).
Qed.

(** C9 (amended). When a job is created for an existing project and the
    INSERT does not throw, the request is answered 201 with the new record,
    progress 0 and no error, and the record's status is [running] exactly
    when the simulator's status update did not throw: the simulator runs,
    synchronously, up to and past that update before the handler reads the
    row back. When the update throws, the answer is still 201 and the record
    is [queued]. With [running] returned, the timer is registered and the row
    stays as returned if converting the configuration returns; if it throws,
    no timer is made and the fallback, after the response, marks the row
    [failed] with the error's text. *)
Theorem creation_response_follows_status_update w projectId req env :
  projectId ∈ projects w -> insert_fault env = None ->
  let j := next_job w in
  let out := POST_jobs projectId req env w in
  exists r, out.1 = Reply 201 (JobBody (Some r) []) /\
    id r = j /\ progress r = ofZ 0 /\ metrics_json r = [] /\ error r = None /\
    (status r = running <-> running_fault env = None) /\
    (status r = queued <-> running_fault env <> None) /\
    (running_fault env = None ->
     match totalSteps_of (config_of req) with
     | Normal _ =>
         jobs out.2 !! j = Some r /\ is_Some (jobTimers out.2 !! j)
     | Abrupt e =>
         jobTimers out.2 = jobTimers w /\ intervals out.2 = intervals w /\
         jobs out.2 !! j =
           Some (match fallback_fault env with
                 | None => set_status_error failed (error_text e) r
                 | Some _ => r
                 end)
     end).
Proof.
  intros Hin Hi. cbv zeta.
  rewrite (POST_jobs_unfold projectId req env w Hin). cbv zeta. rewrite Hi.
  destruct (running_fault env) as [e0 |] eqn:Hr; simpl.
  - eexists. split; [reflexivity |]. simpl.
    do 4 (split; [done |]). split; [split; discriminate |].
    split; [split; [discriminate | done] | discriminate].
  - eexists. split; [reflexivity |]. simpl.
    do 4 (split; [done |]). split; [done |].
    split; [split; [discriminate | done] |]. intros _.
    destruct (totalSteps_of (config_of req)) as [T | e]; simpl.
    + rewrite lookup_alter_eq, !lookup_insert_eq. eauto.
    + rewrite marked_failed_jobTimers, marked_failed_intervals. simpl.
      split; [done |]. split; [done |].
      destruct (fallback_fault env); simpl;
        by rewrite !lookup_alter_eq, lookup_insert_eq.
Qed.

(** The start-up fallback. When the simulator's status update throws, no
    timer is created and no registry entry is made; the response, already
    built, shows the row as inserted ([queued]); then the [.catch] reaction
    stores [status = failed] with the error's message. *)
Theorem start_failure_marks_job_failed w projectId req env e :
  projectId ∈ projects w ->
  insert_fault env = None -> running_fault env = Some e ->
  fallback_fault env = None ->
  let j := next_job w in
  let w' := (POST_jobs projectId req env w).2 in
  (exists r, (POST_jobs projectId req env w).1 = Reply 201 (JobBody (Some r) []) /\
     status r = queued) /\
  (exists r', jobs w' !! j = Some r' /\ status r' = failed /\
     error r' = Some (error_text e)) /\
  jobTimers w' !! j = jobTimers w !! j /\ intervals w' = intervals w.
Proof.
  intros Hin Hi Hr Hf. cbv zeta.
  rewrite (POST_jobs_unfold projectId req env w Hin). cbv zeta.
  rewrite Hi, Hr, Hf. simpl.
  split; [eauto |]. split; [| done].
  rewrite lookup_alter_eq, lookup_insert_eq. simpl. eauto.
Qed.

(** C2 (the code at a failing tick). When a statement of a firing throws,
    the exception leaves the callback and nothing marks the job [failed].
    If it is the flush statement, [step] and [metrics] have advanced, the
    timer is still live, the registry entry is still there and the row is as
    it was: status [running], no error recorded. If it is the completion
    statement, the timer has been stopped and the registry entry removed,
    and the row still says [running]. *)
Theorem tick_write_failure_is_not_handled w i c env e :
  reachable w ->
  intervals w !! i = Some c ->
  let stp := cl_step c + 1 in
  let w' := handle (Fire i env) w in
  (flushes stp (cl_totalSteps c) = true -> flush_fault env = Some e ->
   interval_callback i env w = Throws e w' /\
   intervals w' !! i = Some (pushed c env) /\
   jobTimers w' !! cl_jobId c = Some (mkTimer i (cl_startTime c)) /\
   jobs w' = jobs w /\
   exists r, jobs w' !! cl_jobId c = Some r /\ status r = running /\
             status r <> failed) /\
  ((flushes stp (cl_totalSteps c) = false \/ flush_fault env = None) ->
   ge (ofZ stp) (cl_totalSteps c) = true -> final_fault env = Some e ->
   interval_callback i env w = Throws e w' /\
   intervals w' !! i = None /\ jobTimers w' !! cl_jobId c = None /\
   exists r, jobs w' !! cl_jobId c = Some r /\ status r = running /\
             status r <> failed).
Proof.
  intros Hw Hc. pose proof (reachable_Inv w Hw) as HI.
  destruct (inv_interval w HI i c Hc) as (Ht & _ & r & Hr & Hrun & _).
  cbv zeta. simpl.
  rewrite (interval_callback_unfold i env w c Hc). cbv zeta. simpl. split.
  - intros Hfl Hf. rewrite Hfl, Hf. simpl.
    split; [done |]. split; [apply lookup_insert_eq |].
    split; [done |]. split; [done |].
    exists r. rewrite Hrun. done.
  - intros Hno Hge Hf. rewrite Hge, Hf.
    destruct (flushes _ _); [destruct Hno as [Hno | ->]; [done |] |]; simpl;
      rewrite !lookup_delete_eq, ?lookup_alter_eq, Hr; simpl;
      (split; [done |]); (split; [done |]); (split; [done |]);
      eexists; (split; [reflexivity |]); simpl; by rewrite Hrun.
Qed.

Lemma progress_of_nan s : progress_of s NaN = NaN.
Proof. unfold progress_of, div. by destruct (ofZ s). Qed.

Lemma ge_nan x : ge x NaN = false.
Proof. reflexivity. Qed.

(** A job whose [totalSteps] is NaN: what any number of firings leaves. *)
Lemma nan_job_fire w i j env c r :
  intervals w !! i = Some c -> cl_jobId c = j -> cl_totalSteps c = NaN ->
  jobs w !! j = Some r -> status r = running ->
  is_Some (jobTimers w !! j) ->
  let w' := handle (Fire i env) w in
  exists c' r', intervals w' !! i = Some c' /\ cl_jobId c' = j /\
    cl_totalSteps c' = NaN /\ cl_step c' = cl_step c + 1 /\
    jobs w' !! j = Some r' /\ status r' = running /\
    (progress r' = progress r \/ progress r' = NaN) /\
    is_Some (jobTimers w' !! j).
Proof.
  intros Hc Hj HT Hr Hrun Htm. cbv zeta. simpl.
  rewrite (interval_callback_unfold i env w c Hc). cbv zeta.
  simpl. rewrite HT, ge_nan.
  exists (pushed c env).
  destruct (flushes _ _); [destruct (flush_fault env) |]; simpl;
    rewrite lookup_insert_eq, ?Hj, ?lookup_alter_eq, Hr; simpl;
    eexists; rewrite ?HT, ?progress_of_nan; eauto 10.
Qed.

(** C3 (the code at a failing config). If the configured [epochs] or
    [stepsPerEpoch] converts to NaN, so does [totalSteps], and the job never
    completes: after its creation and any number of firings of its timer,
    whatever the store does, the timer is live, the registry entry is there,
    the status is [running], and the stored progress is 0 or NaN. *)
Theorem nan_totalSteps_never_completes w projectId req env ticks :
  projectId ∈ projects w ->
  insert_fault env = None -> running_fault env = None ->
  totalSteps_of (config_of req) = Normal NaN ->
  let j := next_job w in
  let i := next_interval w in
  let w1 := (POST_jobs projectId req env w).2 in
  let w2 := run (map (Fire i) ticks) w1 in
  exists c r, intervals w2 !! i = Some c /\
    cl_step c = Z.of_nat (length ticks) /\
    jobs w2 !! j = Some r /\ status r = running /\
    (progress r = ofZ 0 \/ progress r = NaN) /\
    is_Some (jobTimers w2 !! j).
Proof.
  intros Hin Hi Hr HT. cbv zeta.
  rewrite (POST_jobs_started projectId req env w NaN Hin Hi Hr HT). simpl.
  set (w1 := started _ _ _ _).
  assert (H1 : exists c r, intervals w1 !! next_interval w = Some c /\
             cl_jobId c = next_job w /\ cl_totalSteps c = NaN /\
             cl_step c = 0 /\
             jobs w1 !! next_job w = Some r /\ status r = running /\
             (progress r = ofZ 0 \/ progress r = NaN) /\
             is_Some (jobTimers w1 !! next_job w)).
  { subst w1. simpl. rewrite lookup_alter_eq, !lookup_insert_eq. simpl.
    eauto 12. }
  clearbody w1. revert w1 H1.
  assert (Hgen : forall n w1,
    (exists c r, intervals w1 !! next_interval w = Some c /\
       cl_jobId c = next_job w /\ cl_totalSteps c = NaN /\ cl_step c = n /\
       jobs w1 !! next_job w = Some r /\ status r = running /\
       (progress r = ofZ 0 \/ progress r = NaN) /\
       is_Some (jobTimers w1 !! next_job w)) ->
    exists c r,
      intervals (run (map (Fire (next_interval w)) ticks) w1) !! next_interval w
        = Some c /\
      cl_step c = n + Z.of_nat (length ticks) /\
      jobs (run (map (Fire (next_interval w)) ticks) w1) !! next_job w = Some r /\
      status r = running /\ (progress r = ofZ 0 \/ progress r = NaN) /\
      is_Some (jobTimers (run (map (Fire (next_interval w)) ticks) w1) !! next_job w)).
  { induction ticks as [| tk ticks IH]; intros n w1 H1.
    - destruct H1 as (c & r & Hc & _ & _ & Hs & Hrow & Hrun & Hp & Htm).
      exists c, r. simpl. rewrite Z.add_0_r. done.
    - destruct H1 as (c & r & Hc & Hj & HTc & Hs & Hrow & Hrun & Hp & Htm).
      destruct (nan_job_fire w1 _ _ tk c r Hc Hj HTc Hrow Hrun Htm)
        as (c' & r' & Hc' & Hj' & HT' & Hs' & Hrow' & Hrun' & Hp' & Htm').
      simpl.
      destruct (IH (n + 1) (handle (Fire (next_interval w) tk) w1))
        as (c2 & r2 & H2).
      { exists c', r'. rewrite Hs', Hs.
        repeat split; try done. destruct Hp' as [-> | ->]; auto. }
      exists c2, r2.
      replace (n + Z.of_nat (S (length ticks)))
        with (n + 1 + Z.of_nat (length ticks)) by lia.
      done. }
  intros w1 H1. apply (Hgen 0 w1 H1).
Qed.

Lemma totalSteps_of_nan config epochs stepsPerEpoch :
  Number (nullish (member config "epochs") (VNumber (ofZ 5))) = Normal epochs ->
  Number (nullish (member config "stepsPerEpoch") (VNumber (ofZ 20)))
    = Normal stepsPerEpoch ->
  is_nan epochs || is_nan stepsPerEpoch = true ->
  totalSteps_of config = Normal NaN.
Proof.
  unfold totalSteps_of. intros -> ->. unfold mbind, Completion_bind, mul.
  destruct epochs as [| | |]; destruct stepsPerEpoch as [| | |];
    simpl; intros H; try discriminate H; try reflexivity.
Qed.



(** C8 (amended). Every sample a firing appends, and every sample a client
    reads back from [GET /api/jobs/:jobId], has exactly the keys [step],
    [loss], [accuracy] and [timeMs], in that order; there is no [elapsedMs].
    [step] is an integer, at least 1; [loss] and [accuracy] are numbers;
    [timeMs] is an integer, the clock at the firing minus the start time kept
    in the registry. *)
Theorem sample_has_step_loss_accuracy_timeMs w :
  reachable w ->
  (forall i c env c', intervals w !! i = Some c ->
     intervals (handle (Fire i env) w) !! i = Some c' ->
     jobTimers w !! cl_jobId c = Some (mkTimer i (cl_startTime c)) /\
     exists s, cl_metrics c' = cl_metrics c ++ [s] /\
       1 <= step s /\
       properties s =
         [("step", FInt (step s)); ("loss", FNum (loss s));
          ("accuracy", FNum (accuracy s));
          ("timeMs", FInt (now env - cl_startTime c))]%string) /\
  (forall j r ms s,
     GET_job j w = Returns (Reply 200 (JobBody (Some r) ms)) w -> s ∈ ms ->
     keys s = ["step"; "loss"; "accuracy"; "timeMs"]%string /\
     property s "elapsedMs" = None /\
     (exists z, property s "step" = Some (FInt z) /\ 1 <= z) /\
     (exists x, property s "loss" = Some (FNum x)) /\
     (exists x, property s "accuracy" = Some (FNum x)) /\
     (exists z, property s "timeMs" = Some (FInt z))).
Proof.
  intros Hw. pose proof (reachable_Inv w Hw) as HI. split.
  - intros i c env c' Hc Hc'.
    destruct (inv_interval w HI i c Hc) as (Ht & _).
    destruct (inv_buffer w HI i c Hc) as [_ Hlen].
    split; [done |].
    destruct (buffer_step w (Fire i env) i c c' HI Hc Hc')
      as [-> | (env' & Heq & ->)].
    + exfalso. revert Hc'. simpl.
      rewrite (interval_callback_unfold i env w c Hc). cbv zeta.
      destruct (flushes _ _); destruct (flush_fault env); simpl;
        try (rewrite lookup_insert_eq; intros [=Hp]);
        try (destruct (ge _ _); simpl;
             [ destruct (final_fault env); simpl;
               by rewrite lookup_delete_eq
             | rewrite lookup_insert_eq; intros [=Hp] ]);
        apply (f_equal cl_step) in Hp; simpl in Hp; lia.
    + inversion Heq; subst env'.
      eexists. split; [reflexivity |]. simpl. split; [lia | done].
  - intros j r ms s Hget Hs. unfold GET_job, select_job, mbind, M_bind, get in Hget.
    destruct (jobs w !! j) as [r0 |] eqn:Hr0; simpl in Hget; [| discriminate].
    inversion Hget; subst r0 ms.
    split; [done |]. split; [done |].
    split.
    { exists (step s). split; [done |].
      eapply contiguous_step_pos; [| done]. by apply (inv_rows w HI j r). }
    split; [| split]; eexists; reflexivity.
Qed.

(** *** A run of firings that the store accepts *)

Lemma length_samples_from s T start envs :
  length (samples_from s T start envs) = length envs.
Proof. revert s. induction envs as [| e envs IH]; intros s; simpl; auto. Qed.

Lemma samples_from_lookup envs : forall s T start (k : nat) env,
  envs !! k = Some env ->
  samples_from s T start envs !! k
    = Some (sample_of (s + Z.of_nat k + 1) T start env).
Proof.
  induction envs as [| e envs IH]; intros s T start k env Hk; [done |].
  destruct k as [| k]; simpl in *.
  - inversion Hk; subst. by rewrite Z.add_0_r.
  - rewrite (IH _ _ _ _ _ Hk). do 2 f_equal. lia.
Qed.

(** A firing before the last step. *)
Lemma fire_not_done w i c env r :
  intervals w !! i = Some c -> jobs w !! cl_jobId c = Some r ->
  no_fault env ->
  ge (ofZ (cl_step c + 1)) (cl_totalSteps c) = false ->
  let w' := handle (Fire i env) w in
  intervals w' !! i = Some (pushed c env) /\
  jobTimers w' = jobTimers w /\
  exists r', jobs w' !! cl_jobId c = Some r' /\ status r' = status r.
Proof.
  intros Hc Hr [Hf1 Hf2] Hge. cbv zeta. simpl.
  rewrite (interval_callback_unfold i env w c Hc). cbv zeta.
  simpl. rewrite Hf1, Hge.
  destruct (flushes _ _); simpl; rewrite lookup_insert_eq;
    rewrite ?lookup_alter_eq, Hr; simpl; eauto.
Qed.

(** The firing that reaches [totalSteps]. *)
Lemma fire_done w i c env r :
  intervals w !! i = Some c -> jobs w !! cl_jobId c = Some r ->
  no_fault env ->
  ge (ofZ (cl_step c + 1)) (cl_totalSteps c) = true ->
  let w' := handle (Fire i env) w in
  intervals w' !! i = None /\
  jobTimers w' !! cl_jobId c = None /\
  exists r', jobs w' !! cl_jobId c = Some r' /\ status r' = completed /\
    progress r' = ofZ 100 /\ metrics_json r' = cl_metrics (pushed c env).
Proof.
  intros Hc Hr [Hf1 Hf2] Hge. cbv zeta. simpl.
  rewrite (interval_callback_unfold i env w c Hc). cbv zeta.
  simpl. rewrite Hf1, Hf2, Hge.
  destruct (flushes _ _); simpl; rewrite !lookup_delete_eq;
    rewrite ?lookup_alter_eq, Hr; simpl; eauto 10.
Qed.

Lemma run_app evs evs' w : run (evs ++ evs') w = run evs' (run evs w).
Proof. unfold run. apply fold_left_app. Qed.

(** Firings that stay below [totalSteps]: the buffer grows by one sample per
    firing; timer, registry entry and status stay. *)
Lemma run_not_done envs : forall w i c r,
  intervals w !! i = Some c -> jobs w !! cl_jobId c = Some r ->
  Forall no_fault envs ->
  (forall k, 1 <= k <= Z.of_nat (length envs) ->
             ge (ofZ (cl_step c + k)) (cl_totalSteps c) = false) ->
  let w' := run (map (Fire i) envs) w in
  intervals w' !! i =
    Some (mkClosure (cl_jobId c) (cl_totalSteps c)
            (cl_step c + Z.of_nat (length envs))
            (cl_metrics c ++
               samples_from (cl_step c) (cl_totalSteps c) (cl_startTime c) envs)
            (cl_startTime c)) /\
  jobTimers w' = jobTimers w /\
  exists r', jobs w' !! cl_jobId c = Some r' /\ status r' = status r.
Proof.
  induction envs as [| env envs IH]; intros w i c r Hc Hr Hnf Hge; cbv zeta.
  - simpl. rewrite Z.add_0_r, app_nil_r. destruct c. eauto.
  - apply Forall_cons in Hnf as [Hnf1 Hnf].
    destruct (fire_not_done w i c env r Hc Hr Hnf1) as (Hc1 & Ht1 & r1 & Hr1 & Hs1).
    { apply Hge. simpl. lia. }
    simpl.
    destruct (IH (handle (Fire i env) w) i (pushed c env) r1 Hc1 Hr1 Hnf)
      as (Hc2 & Ht2 & r2 & Hr2 & Hs2).
    { intros k Hk. simpl. replace (cl_step c + 1 + k) with (cl_step c + (k + 1)) by lia.
      apply Hge. simpl length. lia. }
    simpl in Hc2, Hr2. split; [| split].
    + rewrite Hc2. f_equal. f_equal; [lia |]. by rewrite <- app_assoc.
    + etrans; [exact Ht2 | exact Ht1].
    + exists r2. split; [done | congruence].
Qed.

Lemma samples_from_app envs envs' : forall s T start,
  samples_from s T start (envs ++ envs')
  = samples_from s T start envs
    ++ samples_from (s + Z.of_nat (length envs)) T start envs'.
Proof.
  induction envs as [| e envs IH]; intros s T start; simpl.
  - by rewrite Z.add_0_r.
  - rewrite IH. do 3 f_equal. lia.
Qed.

(** *** The loss at the first and at the last of 100 steps *)

Lemma toFixed4_close x :
  (0 <= x -> x - / 20000 <= toFixed4 x <= x + / 20000)%R.
Proof.
  intros Hx. unfold toFixed4.
  destruct (Rlt_dec x 0) as [Hlt | _]; [lra |].
  destruct (base_Int_part (x * 10000 + / 2)) as [H1 H2].
  unfold Rdiv. lra.
Qed.

Lemma exp_minus_3 : (exp (-3) < / 4)%R.
Proof.
  replace (-3)%R with (Ropp 3) by lra. rewrite exp_Ropp.
  assert (H : (4 < exp 3)%R).
  { pose proof (exp_ineq1 3 ltac:(lra)). lra. }
  apply Rinv_lt_contravar; [| exact H].
  pose proof (exp_pos 3). nra.
Qed.

Lemma div_100_100 :
  div (ofZ 100) (ofZ 100) = S754_finite false 4503599627370496 (-52).
Proof. vm_compute. reflexivity. Qed.

Lemma div_1_100 :
  div (ofZ 1) (ofZ 100) = S754_finite false 5764607523034235 (-59).
Proof. vm_compute. reflexivity. Qed.

Lemma powerRZ_2_neg (p : positive) :
  powerRZ 2 (Z.neg p) = (/ IZR (2 ^ Z.pos p))%R.
Proof. unfold powerRZ. by rewrite pow_IZR, positive_nat_Z. Qed.

Lemma value_div_100_100 :
  of_float (S754_finite false 4503599627370496 (-52)) = RFin 1.
Proof.
  unfold of_float, signed. rewrite powerRZ_2_neg. f_equal.
  replace (2 ^ 52) with 4503599627370496 by (vm_compute; reflexivity).
  field.
Qed.

Lemma value_div_1_100 :
  exists x, of_float (S754_finite false 5764607523034235 (-59)) = RFin x /\
            (0 <= x <= / 50)%R.
Proof.
  eexists. split; [reflexivity |].
  unfold signed. rewrite powerRZ_2_neg.
  replace (2 ^ 59) with 576460752303423488 by (vm_compute; reflexivity).
  lra.
Qed.

Lemma loss_first r :
  (0 <= r < 1)%R ->
  exists x, loss_of (div (ofZ 1) (ofZ 100)) r = RFin x /\ (7 / 5 <= x)%R.
Proof.
  intros Hr. rewrite div_1_100. unfold loss_of.
  destruct value_div_1_100 as (t & -> & Ht).
  unfold rmul, Math_exp, radd, Number_toFixed4.
  eexists. split; [reflexivity |].
  pose proof (exp_ineq1_le (-3 * t)) as He.
  match goal with
  | |- (_ <= toFixed4 ?a)%R => pose proof (toFixed4_close a) as Hc
  end.
  lra.
Qed.

Lemma loss_last r :
  (0 <= r < 1)%R ->
  exists y, loss_of (div (ofZ 100) (ofZ 100)) r = RFin y /\ (y <= 9 / 20)%R.
Proof.
  intros Hr. rewrite div_100_100. unfold loss_of. rewrite value_div_100_100.
  unfold rmul, Math_exp, radd, Number_toFixed4.
  eexists. split; [reflexivity |].
  replace (-3 * 1)%R with (-3)%R by lra.
  pose proof exp_minus_3 as He. pose proof (exp_pos (-3)) as Hp.
  match goal with
  | |- (toFixed4 ?a <= _)%R => pose proof (toFixed4_close a) as Hc
  end.
  lra.
Qed.

(** [step >= totalSteps] for [totalSteps = 100]. *)
Lemma ge_100_before k : 1 <= k <= 99 -> ge (ofZ k) (ofZ 100) = false.
Proof.
  intros Hk.
  assert (H : forallb (fun k => negb (ge (ofZ k) (ofZ 100))) (seqZ 1 99) = true)
    by (vm_compute; reflexivity).
  rewrite forallb_forall in H. apply negb_true_iff, H.
  apply list_elem_of_In, elem_of_seqZ. lia.
Qed.

Lemma ge_100_100 : ge (ofZ 100) (ofZ 100) = true.
Proof. vm_compute. reflexivity. Qed.

Lemma totalSteps_default config :
  Number (nullish (member config "epochs") (VNumber (ofZ 5)))
    = Normal (ofZ 5) ->
  Number (nullish (member config "stepsPerEpoch") (VNumber (ofZ 20)))
    = Normal (ofZ 20) ->
  totalSteps_of config = Normal (ofZ 100).
Proof.
  intros H1 H2. unfold totalSteps_of. rewrite H1, H2. vm_compute. reflexivity.
Qed.

(** C5. A job started with the default configuration (epochs 5 and
    stepsPerEpoch 20 in effect, so [totalSteps = 100]) whose firings the
    store accepts: through the first 99 firings the timer is live, the
    registry entry is there and the status is [running]; the 100th firing
    stops the timer, removes the registry entry and stores
    [status = completed], [progress = 100] and the whole buffer of exactly
    100 samples; and whatever the random draws in [0, 1), the loss of the
    last sample is lower than the loss of the first. *)
Theorem default_job_runs_to_completion w projectId req cenv envs :
  projectId ∈ projects w ->
  insert_fault cenv = None -> running_fault cenv = None ->
  Number (nullish (member (config_of req) "epochs") (VNumber (ofZ 5)))
    = Normal (ofZ 5) ->
  Number (nullish (member (config_of req) "stepsPerEpoch") (VNumber (ofZ 20)))
    = Normal (ofZ 20) ->
  length envs = 100%nat ->
  Forall no_fault envs ->
  Forall (fun env => (0 <= random1 env < 1)%R) envs ->
  let j := next_job w in
  let i := next_interval w in
  let w1 := (POST_jobs projectId req cenv w).2 in
  totalSteps_of (config_of req) = Normal (ofZ 100) /\
  (forall k, (k < 100)%nat ->
     let wk := run (map (Fire i) (take k envs)) w1 in
     (exists c, intervals wk !! i = Some c /\ cl_step c = Z.of_nat k /\
                length (cl_metrics c) = k) /\
     is_Some (jobTimers wk !! j) /\
     exists r, jobs wk !! j = Some r /\ status r = running) /\
  (let w2 := run (map (Fire i) envs) w1 in
   intervals w2 !! i = None /\ jobTimers w2 !! j = None /\
   exists r, jobs w2 !! j = Some r /\ status r = completed /\
     progress r = ofZ 100 /\ length (metrics_json r) = 100%nat /\
     metrics_json r = samples_from 0 (ofZ 100) (clock cenv) envs /\
     exists first last x y,
       metrics_json r !! 0%nat = Some first /\
       metrics_json r !! 99%nat = Some last /\
       loss first = RFin x /\ loss last = RFin y /\ (y < x)%R).
Proof.
  intros Hin Hi Hr He Hs Hlen Hnf Hrnd. cbv zeta.
  pose proof (totalSteps_default _ He Hs) as HT.
  rewrite (POST_jobs_started projectId req cenv w (ofZ 100) Hin Hi Hr HT).
  cbn [fst snd].
  set (j := next_job w). set (i := next_interval w).
  set (w1 := started j (ofZ 100) (clock cenv) _).
  set (c0 := mkClosure j (ofZ 100) 0 [] (clock cenv)).
  assert (Hc0 : intervals w1 !! i = Some c0) by apply lookup_insert_eq.
  assert (Hr0 : exists r0, jobs w1 !! cl_jobId c0 = Some r0 /\ status r0 = running).
  { subst w1. simpl. rewrite lookup_alter_eq, lookup_insert_eq. simpl. eauto. }
  destruct Hr0 as (r0 & Hr0 & Hrun0).
  assert (Ht0 : is_Some (jobTimers w1 !! j)).
  { subst w1. simpl. rewrite lookup_insert_eq. eauto. }
  assert (Hbefore : forall k, (k < 100)%nat ->
    intervals (run (map (Fire i) (take k envs)) w1) !! i
      = Some (mkClosure j (ofZ 100) (Z.of_nat k)
                (samples_from 0 (ofZ 100) (clock cenv) (take k envs)) (clock cenv)) /\
    jobTimers (run (map (Fire i) (take k envs)) w1) = jobTimers w1 /\
    exists r, jobs (run (map (Fire i) (take k envs)) w1) !! j = Some r /\
              status r = running).
  { intros k Hk.
    assert (Hlk : length (take k envs) = k) by (rewrite length_take; lia).
    destruct (run_not_done (take k envs) w1 i c0 r0 Hc0 Hr0) as (H1 & H2 & r & H3 & H4).
    - by apply Forall_take.
    - intros n Hn. simpl. apply ge_100_before. lia.
    - simpl in H1, H3. rewrite Hlk in H1. split; [done |]. split; [done |].
      exists r. split; [done | congruence]. }
  split; [done |]. split.
  - intros k Hk. destruct (Hbefore k Hk) as (H1 & H2 & H3).
    split; [| split; [| done]].
    + eexists. split; [exact H1 |]. simpl. split; [done |].
      rewrite length_samples_from, length_take. lia.
    + by rewrite H2.
  - destruct (Hbefore 99%nat ltac:(lia)) as (H1 & H2 & r & H3 & H4).
    assert (Hsplit : envs = take 99 envs ++ drop 99 envs)
      by (by rewrite take_drop).
    destruct (drop 99 envs) as [| e100 rest] eqn:Hd.
    { apply (f_equal length) in Hd. rewrite length_drop in Hd. simpl in Hd. lia. }
    destruct rest as [| ? ?].
    2:{ apply (f_equal length) in Hd. rewrite length_drop in Hd. simpl in Hd. lia. }
    assert (Hrun : run (map (Fire i) envs) w1
                   = handle (Fire i e100) (run (map (Fire i) (take 99 envs)) w1)).
    { rewrite Hsplit at 1. by rewrite map_app, run_app. }
    rewrite Hrun.
    set (w99 := run (map (Fire i) (take 99 envs)) w1) in *.
    assert (Hnf100 : no_fault e100).
    { rewrite Hsplit in Hnf. apply Forall_app in Hnf as [_ Hnf].
      by apply Forall_cons in Hnf as [Hnf _]. }
    match type of H1 with _ = Some ?c => set (c99 := c) in * end.
    destruct (fire_done w99 i c99 e100 r H1 H3 Hnf100) as (F1 & F2 & r' & F3 & F4 & F5 & F6).
    { simpl. apply ge_100_100. }
    simpl in F2, F3, F6.
    split; [exact F1 |]. split; [exact F2 |].
    exists r'. split; [exact F3 |]. split; [done |]. split; [done |].
    assert (Hm : metrics_json r' = samples_from 0 (ofZ 100) (clock cenv) envs).
    { rewrite F6. rewrite Hsplit at 2. rewrite samples_from_app. simpl.
      rewrite length_take. replace (99 `min` length envs)%nat with 99%nat by lia.
      reflexivity. }
    split; [by rewrite Hm, length_samples_from |]. split; [done |].
    destruct (lookup_lt_is_Some_2 envs 0%nat ltac:(lia)) as [e1 He1].
    assert (He100 : envs !! 99%nat = Some e100).
    { rewrite Hsplit. rewrite lookup_app_r by (rewrite length_take; lia).
      rewrite length_take. by replace (99 - 99 `min` length envs)%nat with 0%nat by lia. }
    pose proof (samples_from_lookup envs 0 (ofZ 100) (clock cenv) _ _ He1) as L1.
    pose proof (samples_from_lookup envs 0 (ofZ 100) (clock cenv) _ _ He100) as L2.
    simpl in L1, L2.
    destruct (loss_first (random1 e1)) as (x & Hx & Hxb).
    { by apply (Forall_lookup_1 _ _ _ _ Hrnd He1). }
    destruct (loss_last (random1 e100)) as (y & Hy & Hyb).
    { by apply (Forall_lookup_1 _ _ _ _ Hrnd He100). }
    eexists _, _, x, y. rewrite Hm.
    split; [exact L1 |]. split; [exact L2 |].
    simpl. split; [exact Hx |]. split; [exact Hy |]. lra.
Qed.

(** *** A concrete run *)

Lemma reachable_one_job epochs stepsPerEpoch n :
  reachable (one_job epochs stepsPerEpoch n).
Proof. apply reachable_run, reachable_init. Qed.

Lemma is_hundred_eq x : is_hundred x = true -> x = ofZ 100.
Proof.
  unfold is_hundred. intros H.
  repeat match type of H with
         | context [match ?p with _ => _ end] => destruct p; try discriminate H
         end.
  reflexivity.
Qed.

(** C10. Stored progress 100 does not mean the job is over: with
    [epochs = 10] and [stepsPerEpoch = 20], so [totalSteps = 200], the state
    after 199 firings is reachable, and in it the row has progress 100 and
    status [running], with the timer live at step 199, below [totalSteps];
    step 199 is odd, so it is the [progress === 100] test that made the
    firing flush. The same rounding happens one step before the end for every
    [totalSteps] from 200 to 2000. *)
Theorem progress_100_while_running :
  let w := one_job 10 20 199 in
  reachable w /\
  totalSteps_of (config_of (request 10 20)) = Normal (ofZ 200) /\
  (exists r c, jobs w !! 1 = Some r /\ status r = running /\
     terminal (status r) = false /\ progress r = ofZ 100 /\
     is_Some (jobTimers w !! 1) /\
     intervals w !! 1%nat = Some c /\ cl_step c = 199 /\
     cl_totalSteps c = ofZ 200 /\
     ge (ofZ (cl_step c)) (cl_totalSteps c) = false) /\
  (Z.even 199 = false /\ flushes 199 (ofZ 200) = true) /\
  (forall T, 200 <= T <= 2000 ->
     progress_of (T - 1) (ofZ T) = ofZ 100 /\ ge (ofZ (T - 1)) (ofZ T) = false).
Proof.
  cbv zeta. split; [apply reachable_one_job |]. split; [by vm_compute |].
  split; [| split].
  - assert (H : match jobs (one_job 10 20 199) !! 1,
                      intervals (one_job 10 20 199) !! 1%nat,
                      jobTimers (one_job 10 20 199) !! 1 with
                | Some r, Some c, Some _ =>
                    (status r, progress r, cl_step c, cl_totalSteps c)
                    = (running, ofZ 100, 199, ofZ 200)
                | _, _, _ => False
                end).
    { vm_compute. reflexivity. }
    destruct (jobs (one_job 10 20 199) !! 1) as [r |]; [| done].
    destruct (intervals (one_job 10 20 199) !! 1%nat) as [c |]; [| done].
    destruct (jobTimers (one_job 10 20 199) !! 1) as [tm |]; [| done].
    inversion H as [[H1 H2 H3 H4]].
    exists r, c. rewrite H1, H3, H4.
    repeat split; eauto.
  - by vm_compute.
  - intros T HT.
    assert (H : forallb (fun T => is_hundred (progress_of (T - 1) (ofZ T))
                                  && negb (ge (ofZ (T - 1)) (ofZ T)))
                        (seqZ 200 1801) = true)
      by (vm_compute; reflexivity).
    rewrite forallb_forall in H.
    assert (Hin : In T (seqZ 200 1801)).
    { apply list_elem_of_In, elem_of_seqZ. lia. }
    apply H, andb_true_iff in Hin as [H1 H2].
    split; [by apply is_hundred_eq | by apply negb_true_iff].
Qed.

(** The registry and the timers agree. Every registry entry names a live
    timer of that job, whose row is [running]; every live timer is the one
    its job's registry entry names. *)
Theorem registry_entries_are_live_timers w :
  reachable w ->
  (forall j tm, jobTimers w !! j = Some tm ->
     exists c r, intervals w !! intervalId tm = Some c /\ cl_jobId c = j /\
       cl_startTime c = startTime tm /\
       jobs w !! j = Some r /\ status r = running) /\
  (forall i c, intervals w !! i = Some c ->
     jobTimers w !! cl_jobId c = Some (mkTimer i (cl_startTime c))).
Proof.
  intros Hw. pose proof (reachable_Inv w Hw) as HI. split.
  - intros j tm Ht.
    destruct (inv_registry w HI j tm Ht) as (c & Hc & Hj).
    destruct (inv_interval w HI _ c Hc) as (Ht' & _ & r & Hr & Hrun & _).
    rewrite Hj in Ht', Hr. rewrite Ht in Ht'. inversion Ht' as [Heq].
    exists c, r. rewrite Heq. simpl. done.
  - intros i c Hc. by destruct (inv_interval w HI i c Hc).
Qed.

(** Cancelling a job id that has no row answers 404 and changes nothing,
    whatever the store would do with a write. *)
Theorem cancel_unknown_job_is_not_found w j fault :
  jobs w !! j = None ->
  POST_cancel j fault w = (Reply 404 (ErrorBody "Job not found"), w).
Proof.
  intros H. unfold POST_cancel, serve. by rewrite cancel_handler_missing.
Qed.

(** ** Further invariants of the simulator *)

Lemma binary_round_aux_sign s m e l :
  match binary_round_aux prec emax s m e l with
  | S754_zero s' | S754_infinity s' | S754_finite s' _ _ => s' = s
  | S754_nan => True
  end.
Proof.
  unfold binary_round_aux.
  destruct (shr_fexp prec emax m e l) as [mrs' e'].
  destruct (shr_fexp prec emax _ e' loc_Exact) as [mrs'' e''].
  destruct (shr_m mrs''); [done | | done].
  by destruct (_ <=? _).
Qed.

Lemma binary_round_aux_not_negative m e l :
  not_negative (binary_round_aux prec emax false m e l).
Proof.
  pose proof (binary_round_aux_sign false m e l) as H.
  destruct (binary_round_aux prec emax false m e l); try done; by subst.
Qed.

Lemma ofZ_not_negative z : 0 <= z -> not_negative (ofZ z).
Proof.
  intros Hz. unfold ofZ, binary_normalize.
  destruct z as [| p | p]; [done | | lia].
  unfold binary_round. destruct (shl_align _ _ _) as [mz ez].
  apply binary_round_aux_not_negative.
Qed.

Lemma div_not_negative a T :
  not_negative a -> steps_ok T -> not_negative (div a T).
Proof.
  unfold div.
  destruct a as [[] | [] | | [] ma ea]; try done;
    destruct T as [[] | [] | | [] mt et]; try done; intros _ _; simpl.
  destruct (SFdiv_core_binary _ _ _ _ _ _) as [[mz ez] lz].
  apply binary_round_aux_not_negative.
Qed.

Lemma mul_100_not_negative a : not_negative a -> not_negative (mul a (ofZ 100)).
Proof.
  change (ofZ 100) with (S754_finite false 7036874417766400 (-46)).
  unfold mul. destruct a as [[] | [] | | [] ma ea]; try done; intros _; simpl.
  apply binary_round_aux_not_negative.
Qed.

Lemma Math_round_not_negative x : not_negative x -> not_negative (Math_round x).
Proof.
  destruct x as [[] | [] | | [] m e]; try done; intros _.
  unfold Math_round. destruct (0 <=? e) eqn:E; [done |].
  apply Z.leb_gt in E. simpl signed.
  assert (Hn : 0 <= (2 * Z.pos m + 2 ^ (- e)) / 2 ^ (1 - e)).
  { apply Z.div_pos; [| apply Z.pow_pos_nonneg; lia].
    pose proof (Z.pow_pos_nonneg 2 (- e)). lia. }
  destruct ((2 * Z.pos m + 2 ^ (- e)) / 2 ^ (1 - e)) as [| p | p];
    [done | | lia].
  unfold binary_normalize, binary_round.
  destruct (shl_align _ _ _) as [mz ez]. apply binary_round_aux_not_negative.
Qed.

Lemma Math_min_100_in_range a : not_negative a -> in_0_100 (Math_min a (ofZ 100)).
Proof.
  change (ofZ 100) with (S754_finite false 7036874417766400 (-46)).
  intros Ha. unfold in_0_100, Math_min, ge.
  change (ofZ 0) with (S754_zero false).
  destruct a as [[] | [] | | [] m e]; try done; simpl; auto.
  destruct (SFltb (S754_finite false m e) _) eqn:E1.
  - right. split; [done |].
    unfold SFltb in E1. unfold SFleb.
    by destruct (SFcompare _ _) as [[] |].
  - right. by destruct (SFltb _ (S754_finite false m e)).
Qed.

Lemma progress_of_in_range s T :
  0 <= s -> steps_ok T -> in_0_100 (progress_of s T).
Proof.
  intros Hs HT. unfold progress_of.
  apply Math_min_100_in_range, Math_round_not_negative, mul_100_not_negative,
    div_not_negative; [by apply ofZ_not_negative | done].
Qed.

Lemma Math_max_20_ok a : steps_ok (Math_max a (ofZ 20)).
Proof.
  change (ofZ 20) with (S754_finite false 5629499534213120 (-48)).
  unfold Math_max.
  destruct a as [[] | [] | | [] m e]; try done; simpl;
    repeat match goal with
           | |- context [SFltb ?x ?y] => destruct (SFltb x y) eqn:?
           end; try done.
  all: unfold SFltb in *; simpl in *; discriminate.
Qed.

Lemma totalSteps_of_Math_max config totalSteps :
  totalSteps_of config = Normal totalSteps ->
  exists x, totalSteps = Math_max x (ofZ 20).
Proof.
  unfold totalSteps_of, mbind, Completion_bind.
  destruct (Number (nullish (member config "epochs") _)); [| done].
  destruct (Number (nullish (member config "stepsPerEpoch") _)); [| done].
  intros [= <-]. eauto.
Qed.

Lemma totalSteps_of_ok config totalSteps :
  totalSteps_of config = Normal totalSteps -> steps_ok totalSteps.
Proof.
  intros H. destruct (totalSteps_of_Math_max _ _ H) as [x ->].
  apply Math_max_20_ok.
Qed.

Lemma in_0_100_zero : in_0_100 (ofZ 0).
Proof. right. by vm_compute. Qed.

Lemma in_0_100_hundred : in_0_100 (ofZ 100).
Proof. right. by vm_compute. Qed.

Lemma Inv2_push w i c env :
  Inv2 w -> intervals w !! i = Some c ->
  Inv2 (set_intervals <[i := pushed c env]> w).
Proof.
  intros H2 Hc. split; simpl.
  - intros i0 c0 Hc0. apply lookup_insert_Some in Hc0 as [[<- <-] | [_ Hc0]].
    + simpl. by apply (inv2_steps w H2 i).
    + by apply (inv2_steps w H2 i0).
  - apply (inv2_progress w H2).
  - intros i0 c0 r Hc0 Hr.
    apply lookup_insert_Some in Hc0 as [[<- <-] | [_ Hc0]].
    + simpl in *. by apply (inv2_tick w H2 i c r).
    + by apply (inv2_tick w H2 i0 c0 r).
Qed.

Lemma Inv2_flush w i c :
  Inv w -> Inv2 w -> intervals w !! i = Some c -> Inv2 (flush_row c w).
Proof.
  intros HI H2 Hc.
  destruct (inv_buffer w HI i c Hc) as [_ Hlen].
  split; simpl.
  - apply (inv2_steps w H2).
  - intros j r Hr.
    destruct (decide (cl_jobId c = j)) as [<- | Hne].
    + rewrite lookup_alter_eq in Hr.
      destruct (jobs w !! cl_jobId c) as [r0 |]; simpl in Hr; [| done].
      inversion Hr; subst r. simpl.
      apply progress_of_in_range; [lia | by apply (inv2_steps w H2 i)].
    + rewrite lookup_alter_ne in Hr by done. by apply (inv2_progress w H2 j).
  - intros i0 c0 r Hc0 Hr.
    destruct (decide (cl_jobId c = cl_jobId c0)) as [Heq | Hne].
    + assert (i = i0) as <- by (eapply Inv_interval_unique; eauto).
      assert (c0 = c) as -> by congruence.
      rewrite lookup_alter_eq in Hr.
      destruct (jobs w !! cl_jobId c) as [r0 |]; simpl in Hr; [| done].
      inversion Hr; subst r. simpl. right. by rewrite <- Hlen.
    + rewrite lookup_alter_ne in Hr by done. by apply (inv2_tick w H2 i0 c0 r).
Qed.

Lemma Inv2_stop w i j : Inv2 w -> Inv2 (stop i j w).
Proof.
  intros H2. split; simpl.
  - intros i0 c0 Hc0. apply lookup_delete_Some in Hc0 as [_ Hc0].
    by apply (inv2_steps w H2 i0).
  - apply (inv2_progress w H2).
  - intros i0 c0 r Hc0 Hr. apply lookup_delete_Some in Hc0 as [_ Hc0].
    by apply (inv2_tick w H2 i0 c0 r).
Qed.

Lemma Inv2_alter_idle w j f :
  Inv2 w ->
  (forall i c, intervals w !! i = Some c -> cl_jobId c <> j) ->
  (forall r, in_0_100 (progress r) -> in_0_100 (progress (f r))) ->
  Inv2 (set_jobs (alter f j) w).
Proof.
  intros H2 Hidle Hf. split; simpl.
  - apply (inv2_steps w H2).
  - intros j0 r Hr.
    destruct (decide (j = j0)) as [<- | Hne].
    + rewrite lookup_alter_eq in Hr.
      destruct (jobs w !! j) as [r0 |] eqn:Hr0; simpl in Hr; [| done].
      inversion Hr; subst r. apply Hf. by apply (inv2_progress w H2 j).
    + rewrite lookup_alter_ne in Hr by done. by apply (inv2_progress w H2 j0).
  - intros i c r Hc Hr.
    rewrite lookup_alter_ne in Hr by (intros ->; by eapply Hidle).
    by apply (inv2_tick w H2 i c r).
Qed.

Lemma Inv2_complete w i c c' :
  Inv w -> Inv2 w -> intervals w !! i = Some c' -> cl_jobId c' = cl_jobId c ->
  Inv2 (complete_row c' (stop i (cl_jobId c) w)).
Proof.
  intros HI H2 Hc Hj. rewrite <- Hj.
  apply Inv2_alter_idle.
  - by apply Inv2_stop.
  - by apply stop_no_interval.
  - intros r _. simpl. apply in_0_100_hundred.
Qed.

Lemma Inv2_fire w i env : Inv w -> Inv2 w -> Inv2 (handle (Fire i env) w).
Proof.
  intros HI H2. simpl.
  destruct (intervals w !! i) as [c |] eqn:Hc;
    [| by rewrite interval_callback_idle].
  rewrite (interval_callback_unfold i env w c Hc). cbv zeta.
  pose proof (Inv_push w i c env HI Hc) as HI1.
  pose proof (Inv2_push w i c env H2 Hc) as H21.
  set (c' := pushed c env) in *.
  set (w1 := set_intervals <[i := c']> w) in *.
  assert (Hc1 : intervals w1 !! i = Some c') by apply lookup_insert_eq.
  pose proof (Inv_flush w1 i c' (progress_of (cl_step c') (cl_totalSteps c'))
                HI1 Hc1) as HI2.
  pose proof (Inv2_flush w1 i c' HI1 H21 Hc1) as H22.
  assert (Hc2 : intervals (flush_row c' w1) !! i = Some c') by apply Hc1.
  destruct (flushes _ _); destruct (flush_fault env); simpl; try done;
    destruct (ge _ _); simpl; try done;
    destruct (final_fault env); simpl;
    first [ by apply Inv2_stop
          | by apply (Inv2_complete _ i c') ].
Qed.

Lemma Inv2_untimed w j : Inv2 w -> Inv2 (untimed j w).
Proof.
  intros H2. unfold untimed. destruct (jobTimers w !! j); [| done].
  by apply Inv2_stop.
Qed.

Lemma Inv2_cancel w j fault : Inv w -> Inv2 w -> Inv2 (handle (CancelJob j fault) w).
Proof.
  intros HI H2. simpl. unfold POST_cancel, serve.
  destruct (jobs w !! j) as [r |] eqn:Hr.
  - rewrite (cancel_handler_unfold j fault w r Hr).
    destruct fault; simpl; [by apply Inv2_untimed |].
    assert (Hp : in_0_100 (progress r)) by (by apply (inv2_progress w H2 j)).
    apply Inv2_alter_idle.
    + by apply Inv2_untimed.
    + by apply untimed_no_interval.
    + intros r0 _. done.
  - by rewrite cancel_handler_missing.
Qed.

Lemma Inv2_create w projectId req env :
  Inv w -> Inv2 w -> Inv2 (handle (CreateJob projectId req env) w).
Proof.
  intros HI H2. simpl.
  destruct (decide (projectId ∈ projects w)) as [Hin | Hout];
    [| by rewrite POST_jobs_no_project].
  rewrite (POST_jobs_unfold projectId req env w Hin). cbv zeta.
  destruct (inserted_fresh w projectId (body_modelId req) (type_of req) HI)
    as [_ Hni]. simpl in Hni.
  assert (H1 : Inv2 (inserted projectId (body_modelId req) (type_of req) w)).
  { split; simpl.
    - apply (inv2_steps w H2).
    - intros j r Hr. apply lookup_insert_Some in Hr as [[_ <-] | [_ Hr]].
      + apply in_0_100_zero.
      + by apply (inv2_progress w H2 j).
    - intros i c r Hc Hr.
      rewrite lookup_insert_ne in Hr by (intros Heq; by eapply Hni).
      by apply (inv2_tick w H2 i c r). }
  assert (Hfailed : forall e w1,
            Inv2 w1 ->
            (forall i c, intervals w1 !! i = Some c -> cl_jobId c <> next_job w) ->
            Inv2 (marked_failed (next_job w) e (fallback_fault env) w1)).
  { intros e w1 Hw1 Hno. destruct (fallback_fault env); simpl; [done |].
    by apply Inv2_alter_idle. }
  destruct (insert_fault env); [done |].
  destruct (running_fault env); simpl; [by apply Hfailed |].
  destruct (totalSteps_of (config_of req)) as [T | e] eqn:HT.
  2:{ apply Hfailed; [| done]. by apply Inv2_alter_idle. }
  split; simpl.
    + intros i c Hc. apply lookup_insert_Some in Hc as [[_ <-] | [_ Hc]].
      * simpl. by apply (totalSteps_of_ok (config_of req)).
      * by apply (inv2_steps w H2 i).
    + intros j r Hr.
      destruct (decide (next_job w = j)) as [<- | Hne].
      * rewrite lookup_alter_eq, lookup_insert_eq in Hr. inversion Hr.
        apply in_0_100_zero.
      * rewrite lookup_alter_ne, lookup_insert_ne in Hr by done.
        by apply (inv2_progress w H2 j).
    + intros i c r Hc Hr. apply lookup_insert_Some in Hc as [[_ <-] | [_ Hc]].
      * simpl in Hr. rewrite lookup_alter_eq, lookup_insert_eq in Hr.
        inversion Hr. simpl. by left.
      * assert (cl_jobId c <> next_job w) by (by eapply Hni).
        rewrite lookup_alter_ne, lookup_insert_ne in Hr by done.
        by apply (inv2_tick w H2 i c r).
Qed.

Lemma Inv2_init : Inv2 init.
Proof. split; simpl; intros; by rewrite lookup_empty in *. Qed.

Lemma Inv2_handle w ev : Inv w -> Inv2 w -> Inv2 (handle ev w).
Proof.
  intros HI H2. destruct ev.
  - split; simpl; apply H2.
  - by apply Inv2_create.
  - by apply Inv2_cancel.
  - by apply Inv2_fire.
  - split; simpl; try (intros; by rewrite lookup_empty in * ).
    apply (inv2_progress w H2).
Qed.

Lemma reachable_Inv2 w : reachable w -> Inv2 w.
Proof.
  induction 1 as [| w ev Hw IH]; [apply Inv2_init |].
  apply Inv2_handle; [by apply reachable_Inv | done].
Qed.

(** *** Runs in which the flush statement never throws *)

Lemma quietly_reachable_reachable w : quietly_reachable w -> reachable w.
Proof. induction 1; [apply reachable_init | by apply reachable_step]. Qed.

(** What a firing whose flush statement does not throw does to the timer and
    to the rows. *)
Lemma fire_effect w i c env r :
  Inv w -> intervals w !! i = Some c -> jobs w !! cl_jobId c = Some r ->
  flush_fault env = None ->
  let w' := handle (Fire i env) w in
  (forall j0, j0 <> cl_jobId c -> jobs w' !! j0 = jobs w !! j0) /\
  (forall i0, i0 <> i -> intervals w' !! i0 = intervals w !! i0) /\
  (intervals w' !! i = None \/
   (intervals w' !! i = Some (pushed c env) /\
    exists r', jobs w' !! cl_jobId c = Some r' /\
      ((flushes (cl_step c + 1) (cl_totalSteps c) = true /\
        metrics_json r' = cl_metrics (pushed c env)) \/
       (flushes (cl_step c + 1) (cl_totalSteps c) = false /\ r' = r)))).
Proof.
  intros HI Hc Hr Hf. cbv zeta. simpl.
  rewrite (interval_callback_unfold i env w c Hc). cbv zeta. simpl.
  rewrite Hf.
  destruct (flushes _ _); destruct (ge _ _); try destruct (final_fault env);
    simpl; (split; [intros j0 Hj0; by rewrite ?lookup_alter_ne by done |]);
    (split; [intros i0 Hi0;
             by rewrite ?lookup_delete_ne, ?lookup_insert_ne by done |]);
    rewrite ?lookup_delete_eq, ?lookup_insert_eq, ?lookup_alter_eq, ?Hr;
    simpl; eauto 10.
Qed.

(** What any other event does to a timer that is live afterwards. *)
Lemma other_effect w ev i c' :
  Inv w -> (forall i0 env, ev <> Fire i0 env) ->
  intervals (handle ev w) !! i = Some c' ->
  (intervals w !! i = Some c' /\
   jobs (handle ev w) !! cl_jobId c' = jobs w !! cl_jobId c') \/
  (cl_metrics c' = [] /\
   exists r', jobs (handle ev w) !! cl_jobId c' = Some r' /\ metrics_json r' = []).
Proof.
  intros HI Hev Hc'.
  destruct ev as [| projectId req env | j0 fault | i0 env |]; simpl in *.
  - by left.
  - destruct (decide (projectId ∈ projects w)) as [Hin | Hout];
      [| rewrite POST_jobs_no_project in * by done; by left].
    rewrite (POST_jobs_unfold projectId req env w Hin) in *. cbv zeta in *.
    destruct (inserted_fresh w projectId (body_modelId req) (type_of req) HI)
      as [_ Hni]. simpl in Hni.
    destruct (insert_fault env); [by left |].
    destruct (running_fault env); [| destruct (totalSteps_of _)];
      simpl in *.
    + rewrite marked_failed_intervals in Hc'. simpl in Hc'.
      assert (cl_jobId c' <> next_job w) by (by eapply Hni).
      left. split; [done |].
      rewrite marked_failed_other by done. simpl.
      by rewrite lookup_insert_ne.
    + apply lookup_insert_Some in Hc' as [[<- <-] | [Hne Hc']].
      * right. simpl. rewrite lookup_alter_eq, lookup_insert_eq. simpl. eauto.
      * left. split; [done |].
        rewrite lookup_alter_ne, lookup_insert_ne; [done | |];
          intros Heq; by eapply Hni.
    + rewrite marked_failed_intervals in Hc'. simpl in Hc'.
      assert (cl_jobId c' <> next_job w) by (by eapply Hni).
      left. split; [done |].
      rewrite marked_failed_other by done. simpl.
      by rewrite lookup_alter_ne, lookup_insert_ne.
  - unfold POST_cancel, serve in *.
    destruct (jobs w !! j0) as [r0 |] eqn:Hr0;
      [| rewrite cancel_handler_missing in * by done; by left].
    rewrite (cancel_handler_unfold j0 fault w r0 Hr0) in *.
    assert (Hu : intervals (untimed j0 w) !! i = Some c') by (by destruct fault).
    pose proof (untimed_no_interval w j0 HI i c' Hu) as Hne.
    assert (Hw : intervals w !! i = Some c').
    { unfold untimed in Hu. destruct (jobTimers w !! j0); simpl in Hu;
        [by apply lookup_delete_Some in Hu as [_ Hu] | done]. }
    left. split; [done |].
    destruct fault; simpl; rewrite jobs_untimed; [done |].
    by rewrite lookup_alter_ne.
  - by destruct (Hev i0 env).
  - by rewrite lookup_empty in Hc'.
Qed.

Lemma lag_ok_other w ev :
  Inv w -> lag_ok w -> (forall i0 env, ev <> Fire i0 env) ->
  lag_ok (handle ev w).
Proof.
  intros HI Hlag Hnf i0 c0 r0 Hc0 Hr0.
  destruct (other_effect w ev i0 c0 HI Hnf Hc0)
    as [[Hc Hr] | (Hm & r' & Hr' & Hm')].
  - rewrite Hr in Hr0. by apply (Hlag i0 c0 r0).
  - rewrite Hr' in Hr0. inversion Hr0; subst r0. left. by rewrite Hm, Hm'.
Qed.

Lemma lag_ok_fire w i env :
  Inv w -> lag_ok w -> flush_fault env = None -> lag_ok (handle (Fire i env) w).
Proof.
  intros HI Hlag Hq i0 c0 r0 Hc0 Hr0.
  destruct (intervals w !! i) as [c |] eqn:Hc.
  2:{ simpl in Hc0, Hr0. rewrite interval_callback_idle in Hc0, Hr0 by done.
      by apply (Hlag i0 c0 r0). }
  destruct (inv_interval w HI i c Hc) as (_ & _ & r & Hr & _).
  destruct (fire_effect w i c env r HI Hc Hr Hq) as (Hrows & Hints & Hat).
  destruct (decide (i0 = i)) as [-> | Hne].
  - destruct Hat as [Hnone | (Hsome & r' & Hr' & Hcase)]; [congruence |].
    rewrite Hsome in Hc0. inversion Hc0; subst c0.
    change (cl_jobId (pushed c env)) with (cl_jobId c) in Hr0.
    rewrite Hr' in Hr0. inversion Hr0; subst r0. simpl.
    destruct Hcase as [[_ Hm] | [Hfl ->]].
    + left. by rewrite Hm.
    + unfold flushes in Hfl. apply orb_false_iff in Hfl as [Hev _].
      rewrite length_app. simpl.
      destruct (Hlag i c r Hc Hr) as [Heq | [_ Hodd]].
      * right. split; [lia |]. by rewrite <- Z.negb_even, Hev.
      * exfalso. rewrite Z.even_add in Hev. rewrite <- Z.negb_even in Hodd.
        by destruct (Z.even (cl_step c)).
  - rewrite Hints in Hc0 by done.
    assert (cl_jobId c0 <> cl_jobId c).
    { intros Heq. apply Hne. eapply Inv_interval_unique; eauto. }
    rewrite Hrows in Hr0 by done. by apply (Hlag i0 c0 r0).
Qed.

Lemma lag_ok_handle w ev : Inv w -> lag_ok w -> quiet ev -> lag_ok (handle ev w).
Proof.
  intros HI Hlag Hq.
  destruct ev; try (by apply lag_ok_other); by apply lag_ok_fire.
Qed.

Lemma quietly_reachable_lag w : quietly_reachable w -> lag_ok w.
Proof.
  induction 1 as [| w ev Hw IH Hq].
  - intros i c r Hc. simpl in Hc. by rewrite lookup_empty in Hc.
  - apply lag_ok_handle;
      [by apply reachable_Inv, quietly_reachable_reachable | done | done].
Qed.

(** *** Jobs without a timer, and the columns no statement writes *)

(** A job that has a row and no registry entry never gets one. *)
Lemma timer_step w ev j r :
  Inv w -> jobs w !! j = Some r -> jobTimers w !! j = None ->
  jobTimers (handle ev w) !! j = None.
Proof.
  intros HI Hr Ht.
  destruct (inv_rows w HI j r Hr) as (_ & Hnext & _).
  destruct ev as [| projectId req env | j0 fault | i env |]; simpl.
  - done.
  - destruct (decide (projectId ∈ projects w)) as [Hin | Hout];
      [| by rewrite POST_jobs_no_project by done].
    rewrite (POST_jobs_unfold projectId req env w Hin). cbv zeta.
    destruct (insert_fault env); [done |].
    destruct (running_fault env); [| destruct (totalSteps_of _)]; simpl;
      rewrite ?marked_failed_jobTimers; simpl; try done.
    by rewrite lookup_insert_ne by lia.
  - unfold POST_cancel, serve.
    destruct (jobs w !! j0) as [r0 |] eqn:Hr0;
      [| by rewrite cancel_handler_missing by done].
    rewrite (cancel_handler_unfold j0 fault w r0 Hr0).
    assert (Hu : jobTimers (untimed j0 w) !! j = None).
    { unfold untimed. destruct (jobTimers w !! j0); simpl; [| done].
      destruct (decide (j0 = j)) as [-> | Hne];
        [by rewrite lookup_delete_eq | by rewrite lookup_delete_ne]. }
    by destruct fault.
  - destruct (intervals w !! i) as [c |] eqn:Hc;
      [| by rewrite interval_callback_idle by done].
    rewrite (interval_callback_unfold i env w c Hc). cbv zeta.
    destruct (flushes _ _); destruct (flush_fault env); simpl; try done;
      destruct (ge _ _); simpl; try done;
      destruct (final_fault env); simpl;
      (destruct (decide (cl_jobId c = j)) as [-> | Hne];
        [by rewrite lookup_delete_eq | by rewrite lookup_delete_ne]).
  - apply lookup_empty.
Qed.

Lemma orphan_step w ev j r :
  Inv w -> jobs w !! j = Some r -> jobTimers w !! j = None ->
  exists r', jobs (handle ev w) !! j = Some r' /\
    (r' = r \/ (ev = CancelJob j None /\ r' = set_status canceled r)).
Proof.
  intros HI Hr Ht.
  destruct (row_step w ev j r HI Hr) as (r' & Hr' & Hcase).
  exists r'. split; [done |].
  destruct Hcase as [-> | [[-> ->] | (i & env & c & _ & Hc & Hj & _)]];
    [by left | by right |].
  destruct (inv_interval w HI i c Hc) as (Ht' & _). congruence.
Qed.

Lemma orphan_run evs w j r :
  Inv w -> jobs w !! j = Some r -> jobTimers w !! j = None ->
  exists r', jobs (run evs w) !! j = Some r' /\
    jobTimers (run evs w) !! j = None /\
    (r' = r \/ (In (CancelJob j None) evs /\ r' = set_status canceled r)).
Proof.
  revert w r. induction evs as [| ev evs IH]; intros w r HI Hr Ht; simpl.
  - eauto.
  - destruct (orphan_step w ev j r HI Hr Ht) as (r1 & Hr1 & Hcase).
    pose proof (timer_step w ev j r HI Hr Ht) as Ht1.
    destruct (IH _ r1 (Inv_handle w ev HI) Hr1 Ht1) as (r2 & Hr2 & Ht2 & Hcase2).
    exists r2. split; [done |]. split; [done |].
    destruct Hcase as [-> | [-> ->]].
    + destruct Hcase2 as [-> | [Hin ->]]; [by left | right; auto].
    + right. split; [by left |].
      by destruct Hcase2 as [-> | [_ ->]].
Qed.

Lemma same_job_step w ev j r :
  Inv w -> jobs w !! j = Some r ->
  exists r', jobs (handle ev w) !! j = Some r' /\ same_job r r'.
Proof.
  intros HI Hr.
  destruct (inv_rows w HI j r Hr) as (_ & Hnext & _).
  assert (Hsame : same_job r r) by done.
  destruct ev as [| projectId req env | j0 fault | i env |]; simpl.
  - eauto.
  - destruct (decide (projectId ∈ projects w)) as [Hin | Hout];
      [| rewrite POST_jobs_no_project by done; eauto].
    rewrite (POST_jobs_unfold projectId req env w Hin). cbv zeta.
    destruct (insert_fault env); [eauto |].
    destruct (running_fault env); [| destruct (totalSteps_of _)]; simpl;
      exists r; (split; [| done]);
      rewrite ?marked_failed_other by lia; simpl;
      rewrite ?lookup_alter_ne by lia; by rewrite lookup_insert_ne by lia.
  - unfold POST_cancel, serve.
    destruct (jobs w !! j0) as [r0 |] eqn:Hr0;
      [| rewrite cancel_handler_missing by done; eauto].
    rewrite (cancel_handler_unfold j0 fault w r0 Hr0).
    destruct fault; simpl; [rewrite jobs_untimed; eauto |].
    rewrite jobs_untimed.
    destruct (decide (j0 = j)) as [-> | Hne].
    + rewrite lookup_alter_eq, Hr. simpl. eauto.
    + rewrite lookup_alter_ne by done. eauto.
  - destruct (intervals w !! i) as [c |] eqn:Hc;
      [| rewrite interval_callback_idle by done; eauto].
    rewrite (interval_callback_unfold i env w c Hc). cbv zeta.
    destruct (decide (cl_jobId c = j)) as [<- | Hne].
    + destruct (flushes _ _); destruct (flush_fault env); simpl; eauto;
        destruct (ge _ _); simpl; eauto;
        destruct (final_fault env); simpl;
        rewrite ?lookup_alter_eq, Hr; simpl; eauto.
    + destruct (flushes _ _); destruct (flush_fault env); simpl; eauto;
        destruct (ge _ _); simpl; eauto;
        destruct (final_fault env); simpl;
        rewrite ?lookup_alter_ne by done; eauto.
  - eauto.
Qed.

Lemma same_job_run evs w j r :
  Inv w -> jobs w !! j = Some r ->
  exists r', jobs (run evs w) !! j = Some r' /\ same_job r r'.
Proof.
  revert w r. induction evs as [| ev evs IH]; intros w r HI Hr; simpl.
  - by exists r.
  - destruct (same_job_step w ev j r HI Hr) as (r1 & Hr1 & H1).
    destruct (IH _ r1 (Inv_handle w ev HI) Hr1) as (r2 & Hr2 & H2).
    exists r2. split; [done |].
    destruct H1 as (? & ? & ? & ?), H2 as (? & ? & ? & ?).
    repeat split; congruence.
Qed.

(** A stored progress is always a percentage. Whatever requests, firings,
    cancels, store faults and restarts have happened, and whatever [config]
    the jobs were created with, the [progress] of every stored job is NaN or
    lies within 0..100. *)
Theorem stored_progress_is_a_percentage w j r :
  reachable w -> jobs w !! j = Some r ->
  is_nan (progress r) = true \/
  (ge (progress r) (ofZ 0) = true /\ ge (ofZ 100) (progress r) = true).
Proof.
  intros Hw Hr. exact (inv2_progress w (reachable_Inv2 w Hw) j r Hr).
Qed.

(** Stored progress and stored metrics come from the same firing. For a job
    whose timer is live, the stored [progress] is the one computed at the
    step of the last stored sample, [min(100, round(n / totalSteps * 100))]
    with [n] the number of stored samples; before the first flush the row
    has progress 0 and no samples. *)
Theorem stored_progress_matches_stored_metrics w j tm r :
  reachable w -> jobTimers w !! j = Some tm -> jobs w !! j = Some r ->
  exists c, intervals w !! intervalId tm = Some c /\
    ((metrics_json r = [] /\ progress r = ofZ 0) \/
     progress r
     = progress_of (Z.of_nat (length (metrics_json r))) (cl_totalSteps c)).
Proof.
  intros Hw Ht Hr.
  destruct (inv_registry w (reachable_Inv w Hw) j tm Ht) as (c & Hc & Hj).
  exists c. split; [done |].
  apply (inv2_tick w (reachable_Inv2 w Hw) (intervalId tm) c r Hc).
  by rewrite Hj.
Qed.

(** The stored samples lag the callback's buffer by at most one. In a run
    where no flush statement throws, the row of a job with a live timer holds
    all the samples pushed so far, or all but the last one, and then that
    last sample was pushed at an odd step. *)
Theorem stored_metrics_lag_at_most_one w i c r :
  quietly_reachable w ->
  intervals w !! i = Some c -> jobs w !! cl_jobId c = Some r ->
  metrics_json r = cl_metrics c \/
  (exists s, cl_metrics c = metrics_json r ++ [s] /\ Z.odd (step s) = true).
Proof.
  intros Hw Hc Hr.
  pose proof (reachable_Inv w (quietly_reachable_reachable w Hw)) as HI.
  destruct (inv_interval w HI i c Hc) as (_ & _ & r0 & Hr0 & _ & [k Hk]).
  rewrite Hr in Hr0. inversion Hr0; subst r0.
  destruct (inv_buffer w HI i c Hc) as [Hcont Hstep].
  destruct (quietly_reachable_lag w Hw i c r Hc Hr) as [Hlen | [Hlen Hodd]];
    rewrite Hk, length_app in Hlen.
  - left. destruct k; [by rewrite Hk, app_nil_r | simpl in Hlen; lia].
  - right. destruct k as [| s [| s' k]]; simpl in Hlen; try lia.
    exists s. split; [done |].
    assert (Hs : step s = Z.of_nat (length (metrics_json r)) + 1).
    { apply Hcont. rewrite Hk. rewrite lookup_app_r by lia.
      by rewrite Nat.sub_diag. }
    rewrite Hs. rewrite Hstep, Hk, length_app in Hodd. simpl in Hodd.
    by replace (Z.of_nat (length (metrics_json r)) + 1)
      with (Z.of_nat (length (metrics_json r) + 1)) by lia.
Qed.

(** A job without a timer is frozen. A job that has a row but no registry
    entry (it is terminal, or the process was restarted while it ran, or a
    write of one of its firings threw) never gets a timer again: whatever
    events follow, its row stays as it is, status and progress included,
    except that a successful cancel of that job sets its status to
    [canceled]. *)
Theorem job_without_timer_is_frozen w j r evs :
  reachable w -> jobs w !! j = Some r -> jobTimers w !! j = None ->
  exists r', jobs (run evs w) !! j = Some r' /\
    jobTimers (run evs w) !! j = None /\
    (r' = r \/ (In (CancelJob j None) evs /\ r' = set_status canceled r)).
Proof. intros Hw. apply orphan_run. by apply reachable_Inv. Qed.

(** No statement rewrites a job's identity and no job row is deleted: after
    any further events the row is still there, with the same [id],
    [project_id], [model_id] and [type]. *)
Theorem job_identity_is_never_rewritten w j r evs :
  reachable w -> jobs w !! j = Some r ->
  exists r', jobs (run evs w) !! j = Some r' /\
    id r' = j /\ project_id r' = project_id r /\ model_id r' = model_id r /\
    type r' = type r.
Proof.
  intros Hw Hr. pose proof (reachable_Inv w Hw) as HI.
  destruct (same_job_run evs w j r HI Hr) as (r' & Hr' & Hid & H).
  exists r'. split; [done |]. split; [| done].
  rewrite Hid. by destruct (inv_rows w HI j r Hr).
Qed.

(** *** Completed jobs *)

Lemma ofZ_20 : ofZ 20 = S754_finite false 5629499534213120 (-48).
Proof. vm_compute. reflexivity. Qed.

Lemma Math_max_finite_ge a m0 e0 :
  let b := S754_finite false m0 e0 in
  is_nan (Math_max a b) = true \/ SFleb b (Math_max a b) = true.
Proof.
  cbv zeta. unfold Math_max.
  destruct (is_nan a) eqn:Hn; [by left |]. right.
  cbn [is_nan orb].
  destruct (SFltb a _) eqn:H1.
  { unfold SFleb. cbn [SFcompare].
    by rewrite Z.compare_refl, Pos.compare_cont_refl. }
  destruct (SFltb _ a) eqn:H2.
  - unfold SFltb in H2. unfold SFleb.
    by destruct (SFcompare _ a) as [[] |].
  - destruct a as [[] | [] | | [] m e]; try discriminate.
    unfold SFltb, SFleb in *; cbn [SFcompare] in *.
    rewrite Z.compare_antisym in H1.
    destruct (e0 ?= e); cbn [CompOpp] in *;
      try discriminate; try reflexivity.
    change (PosDef.Pos.compare_cont Eq m m0) with (Pos.compare m m0) in H1.
    rewrite Pos.compare_antisym in H1.
    change (PosDef.Pos.compare_cont Eq m0 m) with (Pos.compare m0 m) in *.
    by destruct (m0 ?= m)%positive.
Qed.

Lemma Math_max_20_ge a : at_least_20 (Math_max a (ofZ 20)).
Proof. unfold at_least_20, ge. rewrite ofZ_20. apply Math_max_finite_ge. Qed.

Lemma totalSteps_of_at_least_20 config totalSteps :
  totalSteps_of config = Normal totalSteps -> at_least_20 totalSteps.
Proof.
  intros H. destruct (totalSteps_of_Math_max _ _ H) as [x ->].
  apply Math_max_20_ge.
Qed.

(** [SFleb] is transitive between non-negative finite numbers. *)
Lemma SFleb_finite_trans m0 e0 T x :
  SFleb (S754_finite false m0 e0) T = true -> SFleb T x = true ->
  match x with
  | S754_finite false m e => e0 < e \/ (e0 = e /\ (m0 <= m)%positive)
  | S754_infinity false => True
  | _ => False
  end.
Proof.
  unfold SFleb.
  destruct T as [[] | [] | | [] mT eT]; cbn [SFcompare]; try discriminate.
  - destruct x as [[] | [] | | [] m e]; cbn [SFcompare]; try discriminate.
    done.
  - destruct x as [[] | [] | | [] m e]; cbn [SFcompare]; try discriminate;
      [done |].
    change (PosDef.Pos.compare_cont Eq m0 mT) with (Pos.compare m0 mT).
    change (PosDef.Pos.compare_cont Eq mT m) with (Pos.compare mT m).
    destruct (Z.compare_spec e0 eT) as [Heq1 | Hlt1 | Hgt1];
      try discriminate;
      destruct (Z.compare_spec eT e) as [Heq2 | Hlt2 | Hgt2];
      try discriminate; try (intros _ _; lia).
    destruct (Pos.compare_spec m0 mT); try discriminate;
      destruct (Pos.compare_spec mT m); try discriminate; intros _ _; lia.
Qed.

(** A step that reaches [totalSteps] is at least 20. *)
Lemma done_at_least_20 s T :
  0 <= s -> at_least_20 T -> ge (ofZ s) T = true -> 20 <= s.
Proof.
  intros Hs [Hn | Hge] Hdone.
  { by destruct T. }
  destruct (decide (20 <= s)) as [| Hlt]; [done | exfalso].
  assert (H : forallb (fun s =>
                match ofZ s with
                | S754_zero _ => true
                | S754_finite false m e =>
                    (e <? -48)
                    || ((e =? -48) && (m <? 5629499534213120)%positive)
                | _ => false
                end) (seqZ 0 20) = true) by (vm_compute; reflexivity).
  rewrite forallb_forall in H.
  assert (Hin : In s (seqZ 0 20)).
  { apply list_elem_of_In, elem_of_seqZ. lia. }
  apply H in Hin. clear H.
  unfold ge in Hge, Hdone. rewrite ofZ_20 in Hge.
  pose proof (SFleb_finite_trans _ _ _ _ Hge Hdone) as Ht. clear Hge Hdone.
  revert Hin Ht. generalize 5629499534213120%positive. intros tw Hin Ht.
  destruct (ofZ s) as [sz | | | [] m e]; try done.
  apply orb_true_iff in Hin as [Hin | Hin]; [apply Z.ltb_lt in Hin; lia |].
  apply andb_true_iff in Hin as [H1 H2].
  apply Z.eqb_eq in H1. apply Pos.ltb_lt in H2. lia.
Qed.

(** Where the [totalSteps] of a live timer comes from. *)
Lemma interval_origin w ev i c' :
  intervals (handle ev w) !! i = Some c' ->
  (exists c, intervals w !! i = Some c /\ cl_totalSteps c' = cl_totalSteps c) \/
  (exists config, totalSteps_of config = Normal (cl_totalSteps c')).
Proof.
  intros Hc'.
  destruct ev as [| projectId req env | j0 fault | i0 env |]; simpl in Hc'.
  - eauto.
  - destruct (decide (projectId ∈ projects w)) as [Hin | Hout];
      [| rewrite POST_jobs_no_project in Hc' by done; eauto].
    rewrite (POST_jobs_unfold projectId req env w Hin) in Hc'. cbv zeta in Hc'.
    destruct (insert_fault env); [eauto |].
    destruct (running_fault env);
      [| destruct (totalSteps_of (config_of req)) eqn:HT];
      simpl in Hc'; rewrite ?marked_failed_intervals in Hc'; simpl in Hc';
      eauto.
    apply lookup_insert_Some in Hc' as [[_ <-] | [_ Hc']]; simpl; eauto.
  - unfold POST_cancel, serve in Hc'.
    destruct (jobs w !! j0) as [r0 |] eqn:Hr0;
      [| rewrite cancel_handler_missing in Hc' by done; eauto].
    rewrite (cancel_handler_unfold j0 fault w r0 Hr0) in Hc'.
    assert (Hu : intervals (untimed j0 w) !! i = Some c') by (by destruct fault).
    unfold untimed in Hu. destruct (jobTimers w !! j0); simpl in Hu; eauto.
    apply lookup_delete_Some in Hu as [_ Hu]. eauto.
  - destruct (intervals w !! i0) as [c |] eqn:Hc;
      [| rewrite interval_callback_idle in Hc' by done; eauto].
    rewrite (interval_callback_unfold i0 env w c Hc) in Hc'. cbv zeta in Hc'.
    assert (Hin : <[i0 := pushed c env]> (intervals w) !! i = Some c').
    { destruct (flushes _ _); destruct (flush_fault env); simpl in Hc';
        try done; destruct (ge _ _); simpl in Hc'; try done;
        destruct (final_fault env); simpl in Hc';
        by apply lookup_delete_Some in Hc' as [_ Hc']. }
    apply lookup_insert_Some in Hin as [[<- <-] | [_ Hin]]; eauto.
  - by rewrite lookup_empty in Hc'.
Qed.

(** How a row can come to be [completed]. *)
Lemma completed_step w ev j r' :
  Inv w -> jobs (handle ev w) !! j = Some r' -> status r' = completed ->
  jobs w !! j = Some r' \/
  (exists i c env, intervals w !! i = Some c /\ cl_jobId c = j /\
     ge (ofZ (cl_step c + 1)) (cl_totalSteps c) = true /\
     progress r' = ofZ 100 /\ metrics_json r' = cl_metrics (pushed c env)).
Proof.
  intros HI Hr' Hst.
  destruct ev as [| projectId req env | j0 fault | i env |]; simpl in Hr'.
  - by left.
  - destruct (decide (projectId ∈ projects w)) as [Hin | Hout];
      [| rewrite POST_jobs_no_project in Hr' by done; by left].
    rewrite (POST_jobs_unfold projectId req env w Hin) in Hr'. cbv zeta in Hr'.
    destruct (insert_fault env); [by left |].
    destruct (decide (j = next_job w)) as [-> | Hne].
    + exfalso.
      destruct (running_fault env); [| destruct (totalSteps_of _)];
        simpl in Hr'; try destruct (fallback_fault env); simpl in Hr';
        rewrite ?lookup_alter_eq, lookup_insert_eq in Hr';
        simpl in Hr'; inversion Hr'; subst r'; done.
    + left.
      destruct (running_fault env); [| destruct (totalSteps_of _)];
        simpl in Hr'; rewrite ?marked_failed_other in Hr' by done;
        simpl in Hr';
        by rewrite ?lookup_alter_ne, lookup_insert_ne in Hr' by done.
  - unfold POST_cancel, serve in Hr'.
    destruct (jobs w !! j0) as [r0 |] eqn:Hr0;
      [| rewrite cancel_handler_missing in Hr' by done; by left].
    rewrite (cancel_handler_unfold j0 fault w r0 Hr0) in Hr'.
    destruct fault; simpl in Hr'; rewrite jobs_untimed in Hr'; [by left |].
    destruct (decide (j0 = j)) as [-> | Hne].
    + rewrite lookup_alter_eq, Hr0 in Hr'. simpl in Hr'.
      inversion Hr'; subst r'. done.
    + rewrite lookup_alter_ne in Hr' by done. by left.
  - destruct (intervals w !! i) as [c |] eqn:Hc;
      [| rewrite interval_callback_idle in Hr' by done; by left].
    destruct (inv_interval w HI i c Hc) as (_ & _ & r & Hr & Hrun & _).
    rewrite (interval_callback_unfold i env w c Hc) in Hr'. cbv zeta in Hr'.
    destruct (decide (cl_jobId c = j)) as [<- | Hne].
    + destruct (flushes _ _); destruct (flush_fault env); simpl in Hr';
        try (left; congruence);
        destruct (ge _ _) eqn:Hge; simpl in Hr';
        try (left; congruence);
        try destruct (final_fault env); simpl in Hr';
        rewrite ?lookup_alter_eq, Hr in Hr'; simpl in Hr';
        inversion Hr'; subst r'; simpl in Hst; try congruence;
        right; exists i, c, env; done.
    + left.
      destruct (flushes _ _); destruct (flush_fault env); simpl in Hr';
        try done; destruct (ge _ _); simpl in Hr'; try done;
        try destruct (final_fault env); simpl in Hr';
        by rewrite ?lookup_alter_ne in Hr' by done.
  - by left.
Qed.

Lemma Inv3_handle w ev : Inv w -> Inv3 w -> Inv3 (handle ev w).
Proof.
  intros HI [Hsteps Hcompleted]. split.
  - intros i c' Hc'.
    destruct (interval_origin w ev i c' Hc') as [(c & Hc & ->) | [config HT]];
      [by eapply Hsteps | by eapply totalSteps_of_at_least_20].
  - intros j r' Hr' Hst.
    destruct (completed_step w ev j r' HI Hr' Hst)
      as [Hr | (i & c & env & Hc & _ & Hge & Hp & Hm)];
      [by eapply Hcompleted |].
    split; [done |]. rewrite Hm. simpl. rewrite length_app. simpl.
    destruct (inv_buffer w HI i c Hc) as [_ Hstep].
    pose proof (done_at_least_20 (cl_step c + 1) (cl_totalSteps c)
                  ltac:(lia) (Hsteps i c Hc) Hge).
    lia.
Qed.

Lemma reachable_Inv3 w : reachable w -> Inv3 w.
Proof.
  induction 1 as [| w ev Hw IH].
  - split; [intros i c Hc | intros j r Hr]; simpl in *;
      by rewrite lookup_empty in *.
  - apply Inv3_handle; [by apply reachable_Inv | done].
Qed.

(** What [completed] means. A job whose stored status is [completed] has
    progress exactly 100, at least 20 stored samples, with steps 1, 2, ...
    in order, and no timer: whatever [config] it was created with, a
    simulation never completes before its 20th firing. *)
Theorem completed_job_has_run_all_steps w j r :
  reachable w -> jobs w !! j = Some r -> status r = completed ->
  progress r = ofZ 100 /\
  (20 <= length (metrics_json r))%nat /\
  contiguous (metrics_json r) /\
  jobTimers w !! j = None.
Proof.
  intros Hw Hr Hst. pose proof (reachable_Inv w Hw) as HI.
  destruct (inv3_completed w (reachable_Inv3 w Hw) j r Hr Hst) as [Hp Hlen].
  split; [done |]. split; [done |].
  split; [by destruct (inv_rows w HI j r Hr) as (_ & _ & ?) |].
  eapply Inv_not_running_no_timer; eauto. by rewrite Hst.
Qed.

Lemma quietly_reachable_run evs w :
  quietly_reachable w -> Forall quiet evs -> quietly_reachable (run evs w).
Proof.
  revert w. induction evs as [| ev evs IH]; intros w Hw Hq; simpl; [done |].
  inversion Hq; subst. apply IH; [by apply quietly_step | done].
Qed.

Lemma quietly_reachable_one_job epochs stepsPerEpoch n :
  quietly_reachable (one_job epochs stepsPerEpoch n).
Proof.
  apply quietly_reachable_run; [apply quietly_init |].
  apply Forall_app. split; [by repeat constructor |].
  unfold firings. apply Forall_forall. intros ev Hev.
  apply list_elem_of_In, in_map_iff in Hev as (k & <- & _). done.
Qed.

(** No event removes a project. *)
Lemma projects_handle w ev p : p ∈ projects w -> p ∈ projects (handle ev w).
Proof.
  intros Hp.
  destruct ev as [| projectId req env | j0 fault | i env |]; simpl.
  - set_solver.
  - destruct (decide (projectId ∈ projects w)) as [Hin | Hout];
      [| by rewrite POST_jobs_no_project by done].
    rewrite (POST_jobs_unfold projectId req env w Hin). cbv zeta.
    destruct (insert_fault env); [done |].
    destruct (running_fault env); [| destruct (totalSteps_of _)]; simpl;
      by rewrite ?marked_failed_projects.
  - unfold POST_cancel, serve.
    destruct (jobs w !! j0) as [r0 |] eqn:Hr0;
      [| by rewrite cancel_handler_missing by done].
    rewrite (cancel_handler_unfold j0 fault w r0 Hr0).
    assert (Hu : p ∈ projects (untimed j0 w)).
    { unfold untimed. by destruct (jobTimers w !! j0). }
    by destruct fault.
  - destruct (intervals w !! i) as [c |] eqn:Hc;
      [| by rewrite interval_callback_idle by done].
    rewrite (interval_callback_unfold i env w c Hc). cbv zeta.
    destruct (flushes _ _); destruct (flush_fault env); simpl; try done;
      destruct (ge _ _); simpl; try done;
      by destruct (final_fault env).
  - done.
Qed.

(** Creating a job for a project that does not exist answers 404 and
    changes nothing: no row, no timer. *)
Theorem create_job_unknown_project_is_not_found w projectId req env :
  projectId ∉ projects w ->
  POST_jobs projectId req env w
  = (Reply 404 (ErrorBody "Project not found"), w).
Proof. apply POST_jobs_no_project. Qed.

(** A cancel whose write throws. The handler stops the timer before it
    writes: when the UPDATE throws, the request fails, the timer and the
    registry entry are gone, and the row is as it was, status [running]
    included. From then on the job never completes; only a later, successful
    cancel changes its row. *)
Theorem failed_cancel_strands_running_job w j tm e :
  reachable w -> jobTimers w !! j = Some tm ->
  let out := POST_cancel j (Some e) w in
  out.1 = Uncaught e /\
  exists r, jobs w !! j = Some r /\ status r = running /\
    jobs out.2 !! j = Some r /\
    jobTimers out.2 !! j = None /\ intervals out.2 !! intervalId tm = None /\
    forall evs, exists r', jobs (run evs out.2) !! j = Some r' /\
      jobTimers (run evs out.2) !! j = None /\
      (r' = r \/ (In (CancelJob j None) evs /\ r' = set_status canceled r)).
Proof.
  intros Hw Ht. pose proof (reachable_Inv w Hw) as HI.
  destruct (inv_registry w HI j tm Ht) as (c & Hc & Hj).
  destruct (inv_interval w HI _ c Hc) as (_ & _ & r & Hr & Hrun & _).
  rewrite Hj in Hr.
  pose proof (Inv_handle w (CancelJob j (Some e)) HI) as HI'.
  cbv zeta. simpl in HI'. unfold POST_cancel, serve in *.
  rewrite (cancel_handler_unfold j (Some e) w r Hr) in *. simpl in *.
  split; [done |]. exists r.
  assert (Hrow : jobs (untimed j w) !! j = Some r) by (by rewrite jobs_untimed).
  assert (Hnone : jobTimers (untimed j w) !! j = None).
  { unfold untimed. rewrite Ht. simpl. apply lookup_delete_eq. }
  split; [done |]. split; [done |]. split; [done |]. split; [done |].
  split.
  - unfold untimed. rewrite Ht. simpl. apply lookup_delete_eq.
  - intros evs. by apply orphan_run.
Qed.

(** *** Runs with the store of the program *)

Lemma store_reachable_reachable w : store_reachable w -> reachable w.
Proof. induction 1; [apply reachable_init | by apply reachable_step]. Qed.

Lemma store_reachable_run evs w :
  store_reachable w -> store_run w evs = true -> store_reachable (run evs w).
Proof.
  revert w. induction evs as [| ev evs IH]; intros w Hw Hrun; simpl; [done |].
  simpl in Hrun. apply andb_true_iff in Hrun as [Hev Hrun].
  apply IH; [by apply store_step | done].
Qed.

Lemma nan_free_alter f j rows :
  (forall r, progress (f r) = progress r \/ is_nan (progress (f r)) = false) ->
  nan_free rows -> nan_free (alter f j rows).
Proof.
  intros Hf Hrows j0 r Hr.
  apply lookup_alter_Some in Hr as [(_ & r0 & Hr0 & ->) | [_ Hr]];
    [| by apply (Hrows j0)].
  destruct (Hf r0) as [-> | H]; [by apply (Hrows j0) | done].
Qed.

Lemma nan_free_insert j r rows :
  is_nan (progress r) = false -> nan_free rows -> nan_free (<[j := r]> rows).
Proof.
  intros Hr Hrows j0 r0 [[_ <-] | [_ H]]%lookup_insert_Some;
    [done | by apply (Hrows j0)].
Qed.

Lemma nan_free_marked_failed j e fault w :
  nan_free (jobs w) -> nan_free (jobs (marked_failed j e fault w)).
Proof.
  intros H. destruct fault; simpl; [done |].
  apply nan_free_alter; [by left | done].
Qed.

Lemma nan_free_handle w ev :
  nan_free (jobs w) -> enforces_not_null w ev = true ->
  nan_free (jobs (handle ev w)).
Proof.
  intros Hrows Hev.
  destruct ev as [| projectId req env | j0 fault | i env |]; simpl.
  - done.
  - destruct (decide (projectId ∈ projects w)) as [Hin | Hout];
      [| by rewrite POST_jobs_no_project by done].
    rewrite (POST_jobs_unfold projectId req env w Hin). cbv zeta.
    assert (H1 : nan_free (jobs (inserted projectId (body_modelId req)
                                   (type_of req) w))).
    { simpl. by apply nan_free_insert. }
    destruct (insert_fault env); [done |].
    destruct (running_fault env); [| destruct (totalSteps_of _)]; simpl.
    + by apply nan_free_marked_failed.
    + apply nan_free_alter; [by left | done].
    + apply nan_free_marked_failed. simpl.
      apply nan_free_alter; [by left | done].
  - unfold POST_cancel, serve.
    destruct (jobs w !! j0) as [r0 |] eqn:Hr0;
      [| by rewrite cancel_handler_missing by done].
    rewrite (cancel_handler_unfold j0 fault w r0 Hr0).
    destruct fault; simpl; rewrite jobs_untimed; [done |].
    apply nan_free_alter; [| done]. intros r. right. simpl.
    by apply (Hrows j0).
  - simpl in Hev.
    destruct (intervals w !! i) as [c |] eqn:Hc;
      [| by rewrite interval_callback_idle by done].
    rewrite (interval_callback_unfold i env w c Hc). cbv zeta.
    cbv zeta in Hev. change (cl_step (pushed c env)) with (cl_step c + 1).
    destruct (flushes _ _); destruct (flush_fault env); simpl in *; try done;
      destruct (ge _ _); simpl; try done;
      try destruct (final_fault env); simpl;
      repeat (apply nan_free_alter; [intros r; right; simpl | try done]);
      try done;
      by destruct (is_nan (progress_of (cl_step c + 1) (cl_totalSteps c))).
  - done.
Qed.

Lemma store_reachable_nan_free w : store_reachable w -> nan_free (jobs w).
Proof.
  induction 1 as [| w ev Hw IH Hev].
  - intros j r Hr. simpl in Hr. by rewrite lookup_empty in Hr.
  - by apply nan_free_handle.
Qed.

(** A configuration that cannot be converted. When [config.epochs] is an
    object with an own [toString] (which, coming from JSON, is no function),
    [Number] throws a TypeError after the status update has been stored: the
    creation response shows the job [running], no timer and no registry
    entry is made, and the fallback, when its write does not throw, stores
    [status = failed] with the TypeError's message. *)
Theorem unconvertible_config_fails_after_running w projectId req env props :
  projectId ∈ projects w ->
  insert_fault env = None -> running_fault env = None ->
  fallback_fault env = None ->
  member (config_of req) "epochs" = VObject props ->
  is_Some (assoc "toString" props) ->
  let j := next_job w in
  let out := POST_jobs projectId req env w in
  (exists r, out.1 = Reply 201 (JobBody (Some r) []) /\ status r = running) /\
  (exists r', jobs out.2 !! j = Some r' /\ status r' = failed /\
     error r' = Some "Cannot convert object to primitive value"%string) /\
  jobTimers out.2 = jobTimers w /\ intervals out.2 = intervals w.
Proof.
  intros Hin Hi Hr Hf Hm [v Hv]. cbv zeta.
  assert (HT : totalSteps_of (config_of req) = Abrupt cannot_convert).
  { unfold totalSteps_of. rewrite Hm. simpl. by rewrite Hv. }
  rewrite (POST_jobs_rejected projectId req env w cannot_convert Hin Hi Hr HT).
  rewrite Hf. simpl. split; [eauto |]. split; [| done].
  rewrite !lookup_alter_eq, lookup_insert_eq. simpl. eauto.
Qed.

(** With the store of the program, a stored progress is never NaN. In every
    run in which the flush of a NaN progress throws, as the column
    [progress INTEGER NOT NULL] makes it, the progress of every stored job is
    a number within 0..100; and the row of a job whose [totalSteps] is NaN
    stays as it was inserted: progress 0 and no samples, however many
    firings the timer has had. *)
Theorem store_refuses_nan_progress w :
  store_reachable w ->
  (forall j r, jobs w !! j = Some r ->
     is_nan (progress r) = false /\
     ge (progress r) (ofZ 0) = true /\ ge (ofZ 100) (progress r) = true) /\
  (forall i c r, intervals w !! i = Some c ->
     is_nan (cl_totalSteps c) = true -> jobs w !! cl_jobId c = Some r ->
     status r = running /\ progress r = ofZ 0 /\ metrics_json r = []).
Proof.
  intros Hw. pose proof (store_reachable_reachable w Hw) as Hr.
  pose proof (store_reachable_nan_free w Hw) as Hnan.
  pose proof (reachable_Inv2 w Hr) as H2. split.
  - intros j r Hrow. pose proof (Hnan j r Hrow) as Hn. split; [done |].
    destruct (inv2_progress w H2 j r Hrow) as [Hn' | Hrange]; [| done].
    by rewrite Hn in Hn'.
  - intros i c r Hc HT Hrow.
    destruct (inv_interval w (reachable_Inv w Hr) i c Hc)
      as (_ & _ & r0 & Hr0 & Hrun & _).
    assert (r0 = r) as -> by congruence. split; [done |].
    destruct (inv2_tick w H2 i c r Hc Hrow) as [[Hm Hp] | Hp]; [done |].
    exfalso. pose proof (Hnan _ r Hrow) as Hn.
    rewrite Hp in Hn. destruct (cl_totalSteps c); try done.
    by rewrite progress_of_nan in Hn.
Qed.

(** ** The uploads *)

(** *** The stored file name *)

Lemma append_cons a s t : String a s +:+ t = String a (s +:+ t).
Proof. reflexivity. Qed.

Lemma append_nil_r s : s +:+ EmptyString = s.
Proof. induction s as [| a s IH]; [done |]. by rewrite append_cons, IH. Qed.

Lemma append_assoc s t u : (s +:+ t) +:+ u = s +:+ (t +:+ u).
Proof. induction s as [| a s IH]; [done |]. by rewrite !append_cons, IH. Qed.

Lemma replace_unsafe_safe b s : all_chars is_safe (replace_unsafe b s) = true.
Proof.
  revert b. induction s as [| a s IH]; intros b; simpl; [done |].
  destruct (is_safe a) eqn:Ha; simpl; [by rewrite Ha, IH |].
  destruct b; simpl; by rewrite IH.
Qed.

Lemma replace_unsafe_id b s :
  all_chars is_safe s = true -> replace_unsafe b s = s.
Proof.
  revert b. induction s as [| a s IH]; intros b; simpl; [done |].
  intros [Ha Hs]%andb_true_iff. by rewrite Ha, IH.
Qed.

Lemma replace_unsafe_length b s :
  (String.length (replace_unsafe b s) <= String.length s)%nat.
Proof.
  revert b. induction s as [| a s IH]; intros b; simpl; [done |].
  destruct (is_safe a); simpl; [specialize (IH false); lia |].
  destruct b; simpl; specialize (IH true); lia.
Qed.

Lemma all_chars_app p s1 s2 :
  all_chars p (s1 +:+ s2) = all_chars p s1 && all_chars p s2.
Proof.
  induction s1 as [| a s1 IH]; [done |].
  rewrite append_cons. simpl. by rewrite IH, andb_assoc.
Qed.

Lemma pretty_N_char_digit x : is_digit (pretty_N_char x) = true.
Proof. unfold pretty_N_char. by repeat case_match. Qed.

Lemma pretty_N_go_digits x s :
  exists d, pretty_N_go x s = d +:+ s /\ all_chars is_digit d = true /\
            ((0 < x)%N -> d <> EmptyString).
Proof.
  revert s. induction (N.lt_wf_0 x) as [x _ IH]; intros s.
  assert (x = 0 \/ 0 < x)%N as [-> | Hx] by lia.
  - exists EmptyString. rewrite pretty_N_go_0. split; [done |].
    split; [done | lia].
  - rewrite pretty_N_go_step by done.
    destruct (IH (x `div` 10)%N ltac:(by apply N.div_lt)
                 (String (pretty_N_char (x `mod` 10)) s))
      as (d & Heq & Hd & _).
    exists (d +:+ String (pretty_N_char (x `mod` 10)) EmptyString).
    split; [| split].
    + by rewrite Heq, append_assoc.
    + rewrite all_chars_app, Hd. simpl. by rewrite pretty_N_char_digit.
    + intros _. by destruct d.
Qed.

(** A timestamp prints as a non-empty string of digits. *)
Lemma pretty_digits (now : Z) :
  0 <= now ->
  all_chars is_digit (pretty now) = true /\ pretty now <> EmptyString.
Proof.
  intros Hnow. destruct now as [| p | p]; [done | | lia].
  unfold pretty, pretty_Z, pretty, pretty_positive, pretty, pretty_N.
  rewrite decide_False by done.
  destruct (pretty_N_go_digits (N.pos p) EmptyString) as (d & -> & Hd & Hne).
  rewrite append_nil_r. split; [done |]. apply Hne. lia.
Qed.

Lemma digits_split d1 d2 s1 s2 :
  all_chars is_digit d1 = true -> all_chars is_digit d2 = true ->
  d1 +:+ String "_"%char s1 = d2 +:+ String "_"%char s2 -> d1 = d2 /\ s1 = s2.
Proof.
  revert d2. induction d1 as [| a d1 IH]; intros [| b d2];
    rewrite ?append_cons; simpl.
  - intros _ _ [= ->]. done.
  - intros _ [Hb _]%andb_true_iff [= <- _]. done.
  - intros [Ha _]%andb_true_iff _ [= -> _]. done.
  - intros [_ H1]%andb_true_iff [_ H2]%andb_true_iff [= -> H].
    destruct (IH d2 H1 H2 H) as [-> ->]. done.
Qed.

Lemma digits_safe d : all_chars is_digit d = true -> all_chars is_safe d = true.
Proof.
  induction d as [| a d IH]; simpl; [done |].
  intros [Ha Hd]%andb_true_iff. rewrite IH by done.
  unfold is_digit in Ha. unfold is_safe. cbv zeta in *. by rewrite Ha.
Qed.

(** *** The row estimate *)

Lemma count_newlines_app n a b :
  count_newlines n (a ++ b) = count_newlines (count_newlines n a) b.
Proof. unfold count_newlines. apply fold_left_app. Qed.

Lemma count_newlines_add n a : count_newlines n a = n + newlines a.
Proof.
  unfold newlines, count_newlines. revert n.
  induction a as [| b a IH]; intros n; simpl; [lia |].
  rewrite IH, (IH (if Byte.eqb b Byte.x0a then 0 + 1 else 0)).
  destruct (Byte.eqb b Byte.x0a); lia.
Qed.

Lemma newlines_nonneg a : 0 <= newlines a.
Proof.
  unfold newlines, count_newlines.
  assert (H : forall n, 0 <= n ->
            0 <= fold_left (fun n b => if Byte.eqb b Byte.x0a then n + 1 else n) a n).
  { induction a as [| b a IH]; intros n Hn; simpl; [done |].
    apply IH. destruct (Byte.eqb b Byte.x0a); lia. }
  by apply H.
Qed.

Lemma newlines_le_length a : newlines a <= Z.of_nat (length a).
Proof.
  induction a as [| b a IH]; [done |].
  change (b :: a) with ([b] ++ a). unfold newlines in *.
  rewrite count_newlines_app, count_newlines_add. fold (newlines a).
  unfold count_newlines at 1. simpl length. simpl fold_left.
  unfold newlines. destruct (Byte.eqb b Byte.x0a); lia.
Qed.

Lemma readSync_length file len pos env :
  0 < len -> 0 <= pos ->
  let n := Z.of_nat (length (readSync file len pos env)) in
  0 <= n <= len /\ n <= Z.of_nat (length file) - pos \/ n = 0 /\ Z.of_nat (length file) <= pos.
Proof.
  intros Hlen Hpos. cbv zeta. unfold readSync.
  rewrite length_take, length_drop. lia.
Qed.

Lemma readSync_positive file len pos env :
  0 < len -> 0 <= pos -> pos < Z.of_nat (length file) ->
  0 < Z.of_nat (length (readSync file len pos env)).
Proof.
  intros Hlen Hpos Hlt. unfold readSync.
  rewrite length_take, length_drop. lia.
Qed.

Lemma readSync_take file len pos env :
  0 <= pos ->
  take (Z.to_nat pos) file ++ readSync file len pos env
  = take (Z.to_nat (pos + Z.of_nat (length (readSync file len pos env)))) file.
Proof.
  intros Hpos. unfold readSync.
  set (k := Z.to_nat (Z.min len (Z.max 1 (granted env pos)))).
  rewrite length_take, length_drop.
  rewrite Z2Nat.inj_add, Nat2Z.id by lia.
  rewrite <- take_take_drop.
  f_equal.
  destruct (decide (k <= length file - Z.to_nat pos)%nat).
  - by rewrite Nat.min_l by done.
  - rewrite Nat.min_r by lia.
    rewrite !take_ge; [done | | ]; rewrite length_drop; lia.
Qed.

(** The loop: with fuel for every remaining byte it ends; either a read
    threw, or it returns the line feeds of a prefix of the file that ends at
    the end of the file or within one chunk after the cap. *)
Lemma scan_spec fuel file env pos :
  0 <= pos <= Z.of_nat (length file) -> pos < scan_cap ->
  (length file - Z.to_nat pos < fuel)%nat ->
  (scan fuel file env pos (newlines (take (Z.to_nat pos) file)) = Some None /\
   exists q, read_throws env q = true) \/
  exists p, scan fuel file env pos (newlines (take (Z.to_nat pos) file))
            = Some (Some (newlines (take (Z.to_nat p) file))) /\
    pos <= p <= Z.of_nat (length file) /\
    Z.min (Z.of_nat (length file)) scan_cap <= p < scan_cap + bufferSize.
Proof.
  revert pos.
  induction fuel as [| fuel IH]; intros pos Hpos Hcap Hfuel; [lia |].
  simpl. destruct (read_throws env pos) eqn:Hthrow; [left; eauto |].
  set (chunk := readSync file bufferSize pos env).
  assert (Hb : 0 < bufferSize) by done.
  pose proof (readSync_length file bufferSize pos env Hb (proj1 Hpos)) as Hlen.
  pose proof (readSync_take file bufferSize pos env (proj1 Hpos)) as Htake.
  cbv zeta in Hlen. fold chunk in Hlen, Htake.
  destruct (0 <? Z.of_nat (length chunk)) eqn:Hread; simpl.
  - apply Z.ltb_lt in Hread.
    rewrite (proj2 (Z.ltb_lt pos scan_cap) Hcap).
    assert (Hn : count_newlines (newlines (take (Z.to_nat pos) file)) chunk
                 = newlines (take (Z.to_nat (pos + Z.of_nat (length chunk))) file)).
    { rewrite <- Htake. unfold newlines. by rewrite count_newlines_app. }
    rewrite Hn.
    destruct (scan_cap <=? pos + Z.of_nat (length chunk)) eqn:Hbreak.
    + apply Z.leb_le in Hbreak. right.
      exists (pos + Z.of_nat (length chunk)). split; [done |]. lia.
    + apply Z.leb_gt in Hbreak.
      destruct (IH (pos + Z.of_nat (length chunk)))
        as [? | (p & Hp & Hb1 & Hb2)]; [lia | lia | lia | by left |].
      right. exists p. split; [done |]. lia.
  - apply Z.ltb_ge in Hread. right.
    exists pos. split; [done |].
    assert (Z.of_nat (length file) <= pos).
    { destruct (decide (pos < Z.of_nat (length file))) as [Hlt |]; [| lia].
      pose proof (readSync_positive file bufferSize pos env Hb (proj1 Hpos) Hlt).
      fold chunk in H. lia. }
    lia.
Qed.

Lemma scan_S fuel file env totalRead totalNewlines :
  scan (S fuel) file env totalRead totalNewlines =
    if read_throws env totalRead then Some None
    else
      let chunk := readSync file bufferSize totalRead env in
      let bytesRead := Z.of_nat (length chunk) in
      if (0 <? bytesRead) && (totalRead <? scan_cap) then
        if scan_cap <=? totalRead + bytesRead
        then Some (Some (count_newlines totalNewlines chunk))
        else scan fuel file env (totalRead + bytesRead)
               (count_newlines totalNewlines chunk)
      else Some (Some totalNewlines).
Proof. reflexivity. Qed.

(** With whole chunks the scan stops exactly at the cap. *)
Lemma scan_full fuel file pos :
  0 <= pos <= Z.of_nat (length file) -> pos < scan_cap ->
  (bufferSize | pos) \/ pos = Z.of_nat (length file) ->
  (length file - Z.to_nat pos < fuel)%nat ->
  scan fuel file full_reads pos (newlines (take (Z.to_nat pos) file))
  = Some (Some (newlines (take (Z.to_nat scan_cap) file))).
Proof.
  revert pos.
  induction fuel as [| fuel IH]; intros pos Hpos Hcap Hdiv Hfuel; [lia |].
  rewrite scan_S. change (read_throws full_reads pos) with false.
  cbv beta iota zeta.
  set (chunk := readSync file bufferSize pos full_reads).
  assert (Hb : 0 < bufferSize) by done.
  pose proof (readSync_take file bufferSize pos full_reads (proj1 Hpos)) as Htake.
  fold chunk in Htake.
  assert (Hlen : Z.of_nat (length chunk)
                 = Z.min bufferSize (Z.of_nat (length file) - pos)).
  { unfold chunk, readSync. rewrite length_take, length_drop.
    change (granted full_reads pos) with bufferSize. lia. }
  assert (Hcapk : scan_cap = 10 * bufferSize) by reflexivity.
  destruct (0 <? Z.of_nat (length chunk)) eqn:Hread.
  - apply Z.ltb_lt in Hread.
    rewrite (proj2 (Z.ltb_lt pos scan_cap) Hcap). cbv beta iota delta [andb].
    assert (Hn : count_newlines (newlines (take (Z.to_nat pos) file)) chunk
                 = newlines (take (Z.to_nat (pos + Z.of_nat (length chunk))) file)).
    { rewrite <- Htake. unfold newlines. by rewrite count_newlines_app. }
    rewrite Hn.
    assert (Hk : exists k, pos = k * bufferSize).
    { destruct Hdiv as [[k Hk] | Heq]; [by exists k | lia]. }
    destruct Hk as [k Hk].
    destruct (scan_cap <=? pos + Z.of_nat (length chunk)) eqn:Hbreak.
    + apply Z.leb_le in Hbreak.
      assert (Heq : pos + Z.of_nat (length chunk) = scan_cap).
      { revert Hb Hcap Hbreak Hlen Hk Hcapk. generalize bufferSize, scan_cap.
        intros bs cap Hb Hcap Hbreak Hlen Hk Hcapk.
        assert (k <= 9) by nia. assert (k * bs <= 9 * bs) by nia. lia. }
      by rewrite Heq.
    + apply Z.leb_gt in Hbreak.
      apply IH; [lia | lia | | lia].
      destruct (decide (bufferSize <= Z.of_nat (length file) - pos)).
      * left. exists (k + 1). lia.
      * right. lia.
  - apply Z.ltb_ge in Hread. cbv beta iota delta [andb].
    assert (Hend : pos = Z.of_nat (length file)) by lia.
    do 3 f_equal. rewrite !take_ge; [done | lia | lia].
Qed.

(** *** The upload handler *)

Lemma count_rows_full bytes :
  count_rows (Some bytes) full_reads
  = Some (Z.max (newlines (take (Z.to_nat scan_cap) bytes) - 1) 0).
Proof.
  unfold count_rows. change (open_throws full_reads) with false.
  change (close_throws full_reads) with false. cbv iota.
  pose proof (scan_full (S (length bytes)) bytes 0) as H.
  change (take (Z.to_nat 0) bytes) with (@nil Byte.byte) in H.
  change (newlines []) with 0 in H.
  rewrite H; [done | lia | done | left; by exists 0 | lia].
Qed.

Lemma count_rows_spec bytes env :
  count_rows (Some bytes) env = None \/
  exists p, count_rows (Some bytes) env
            = Some (Z.max (newlines (take (Z.to_nat p) bytes) - 1) 0) /\
    Z.min (Z.of_nat (length bytes)) scan_cap <= p <= Z.of_nat (length bytes) /\
    p < scan_cap + bufferSize /\
    open_throws env = false /\ close_throws env = false.
Proof.
  unfold count_rows.
  destruct (open_throws env); [by left |].
  pose proof (scan_spec (S (length bytes)) bytes env 0) as H.
  change (take (Z.to_nat 0) bytes) with (@nil Byte.byte) in H.
  change (newlines []) with 0 in H.
  destruct H as [[-> _] | (p & -> & Hb1 & Hb2)]; [lia | done | lia | by left |].
  destruct (close_throws env); [by left |].
  right. exists p. split; [done |]. lia.
Qed.

Lemma count_rows_no_fault bytes env :
  (forall p, read_throws env p = false) ->
  open_throws env = false -> close_throws env = false ->
  exists p, count_rows (Some bytes) env
            = Some (Z.max (newlines (take (Z.to_nat p) bytes) - 1) 0) /\
    Z.min (Z.of_nat (length bytes)) scan_cap <= p <= Z.of_nat (length bytes) /\
    p < scan_cap + bufferSize.
Proof.
  intros Hread Hopen Hclose. unfold count_rows. rewrite Hopen.
  pose proof (scan_spec (S (length bytes)) bytes env 0) as H.
  change (take (Z.to_nat 0) bytes) with (@nil Byte.byte) in H.
  change (newlines []) with 0 in H.
  destruct H as [[_ [q Hq]] | (p & -> & Hb1 & Hb2)];
    [lia | done | lia | by rewrite Hread in Hq |].
  rewrite Hclose. exists p. split; [done |]. lia.
Qed.

Lemma count_rows_bounds file env n :
  count_rows (Some file) env = Some n -> 0 <= n <= Z.of_nat (length file).
Proof.
  intros Hn.
  destruct (count_rows_spec file env) as [Hnone | (p & Hp & Hb & _)];
    [congruence |].
  rewrite Hp in Hn. inversion Hn; subst n.
  pose proof (newlines_le_length (take (Z.to_nat p) file)) as Hle.
  pose proof (newlines_nonneg (take (Z.to_nat p) file)).
  rewrite length_take in Hle. lia.
Qed.

Lemma storage_filename_inj t1 t2 n1 n2 :
  0 <= t1 -> 0 <= t2 ->
  storage_filename t1 n1 = storage_filename t2 n2 ->
  t1 = t2 /\ safeName n1 = safeName n2.
Proof.
  intros H1 H2 Heq. unfold storage_filename in Heq.
  destruct (pretty_digits t1 H1) as [Hd1 _].
  destruct (pretty_digits t2 H2) as [Hd2 _].
  change ("_" +:+ safeName n1) with (String "_"%char (safeName n1)) in Heq.
  change ("_" +:+ safeName n2) with (String "_"%char (safeName n2)) in Heq.
  destruct (digits_split _ _ _ _ Hd1 Hd2 Heq) as [Ht Hs].
  split; [by apply (inj pretty) | done].
Qed.

Lemma SiteInv_fresh last s now nm :
  SiteInv last s -> last < now -> uploads s !! storage_filename now nm = None.
Proof.
  intros HI Hlt.
  destruct (uploads s !! storage_filename now nm) as [bytes |] eqn:Hf; [| done].
  destruct (si_files last s HI _ _ Hf) as (t & nm' & Ht & Heq).
  pose proof (si_last last s HI).
  apply storage_filename_inj in Heq as [-> _]; lia.
Qed.

Lemma SiteInv_world last s ev :
  SiteInv last s -> SiteInv last (set_world (handle ev) s).
Proof.
  intros [Hlast Hfiles Hrows Huniq]. split; simpl; try done.
  intros i row Hrow. destruct (Hrows i row Hrow) as (? & ? & ? & ?).
  repeat split; try done. by apply projects_handle.
Qed.

Lemma POST_datasets_none projectId env s :
  POST_datasets projectId None env s =
    (if bool_decide (projectId ∈ projects (world s))
     then DatasetError 400 "file field is required"
     else DatasetError 404 "Project not found", s).
Proof. unfold POST_datasets. simpl. by destruct (bool_decide _). Qed.

Lemma POST_datasets_some projectId p env s :
  let fn := storage_filename (date_now env) (part_name p) in
  let row := mkDatasetRow (next_dataset s) projectId (part_name p) fn
               (Z.of_nat (length (part_bytes p)))
               (count_rows (Some (part_bytes p)) (scan_env env)) in
  POST_datasets projectId (Some p) env s =
    if bool_decide (projectId ∈ projects (world s)) then
      match dataset_fault env with
      | Some e => (DatasetUncaught e, set_uploads <[fn := part_bytes p]> s)
      | None =>
          (DatasetReply row,
           mkSite (world s) (<[next_dataset s := row]> (datasets s))
                  (next_dataset s + 1) (<[fn := part_bytes p]> (uploads s)))
      end
    else (DatasetError 404 "Project not found", set_uploads (delete fn) s).
Proof.
  cbv zeta. unfold POST_datasets, upload_single.
  cbn [world set_uploads uploads file_path originalname filename file_size
       datasets next_dataset].
  destruct (bool_decide _).
  - rewrite lookup_insert_eq. by destruct (dataset_fault env).
  - unfold set_uploads. cbn [world uploads datasets next_dataset].
    by rewrite delete_insert_eq.
Qed.

Lemma SiteInv_upload last s projectId part env :
  SiteInv last s -> last < date_now env ->
  SiteInv (date_now env) (POST_datasets projectId part env s).2.
Proof.
  intros HI Hlt. pose proof HI as [Hlast Hfiles Hrows Huniq].
  assert (Hweak : SiteInv (date_now env) s).
  { split; try done; [lia |].
    intros fn bytes Hf. destruct (Hfiles fn bytes Hf) as (t & nm & Ht & ->).
    exists t, nm. split; [lia | done]. }
  destruct part as [p |];
    [| rewrite POST_datasets_none; by destruct (bool_decide _)].
  rewrite POST_datasets_some. cbv zeta.
  set (fn := storage_filename (date_now env) (part_name p)).
  pose proof (count_rows_bounds (part_bytes p) (scan_env env)) as Hbound.
  set (rowsCount := count_rows (Some (part_bytes p)) (scan_env env)) in *.
  assert (Hfresh : uploads s !! fn = None)
    by exact (SiteInv_fresh last s _ _ HI Hlt).
  assert (Hother : forall i row, datasets s !! i = Some row -> d_filename row <> fn).
  { intros i row Hrow Heq. destruct (Hrows i row Hrow) as (_ & _ & _ & b & Hb & _).
    congruence. }
  destruct (bool_decide (projectId ∈ projects (world s))) eqn:Hproj.
  - apply bool_decide_eq_true in Hproj.
    assert (Hfiles' : forall fn' bytes,
              <[fn := part_bytes p]> (uploads s) !! fn' = Some bytes ->
              exists t nm, 0 <= t <= date_now env /\ fn' = storage_filename t nm).
    { intros fn' bytes [[<- <-] | [Hne Hf]]%lookup_insert_Some.
      - exists (date_now env), (part_name p). split; [lia | done].
      - destruct (Hfiles fn' bytes Hf) as (t & nm & Ht & ->).
        exists t, nm. split; [lia | done]. }
    assert (Hrows' : forall i row, datasets s !! i = Some row ->
              d_id row = i /\ i < next_dataset s /\
              d_project_id row ∈ projects (world s) /\
              exists bytes,
                <[fn := part_bytes p]> (uploads s) !! d_filename row = Some bytes /\
                d_size_bytes row = Z.of_nat (length bytes) /\
                match d_rows row with
                | Some n => 0 <= n <= d_size_bytes row
                | None => True
                end).
    { intros i row Hrow.
      destruct (Hrows i row Hrow) as (? & ? & ? & b & Hb & ?).
      repeat split; try done. exists b.
      rewrite lookup_insert_ne; [done |]. intros Heq.
      by apply (Hother i row Hrow). }
    destruct (dataset_fault env); simpl; [by split; try lia |].
    split; simpl; [lia | done | |].
    + intros i row [[<- <-] | [Hne Hrow]]%lookup_insert_Some; simpl.
      * repeat split; [lia | done |].
        exists (part_bytes p). rewrite lookup_insert_eq.
        split; [done |]. split; [done |].
        destruct rowsCount as [n |]; [by apply Hbound | done].
      * destruct (Hrows' i row Hrow) as (? & ? & ? & ?).
        repeat split; try done. lia.
    + intros i i' row row'
        [[<- <-] | [Hne Hrow]]%lookup_insert_Some
        [[<- <-] | [Hne' Hrow']]%lookup_insert_Some; simpl; try done.
      * intros Heq. by destruct (Hother i' row' Hrow').
      * intros Heq. by destruct (Hother i row Hrow).
      * by apply Huniq.
  - simpl. unfold set_uploads. rewrite delete_id by done. by destruct s.
Qed.

Lemma SiteInv_init : SiteInv (-1) site_init.
Proof. split; simpl; try done; intros *; by rewrite lookup_empty. Qed.

Lemma SiteInv_run evs last s :
  SiteInv last s -> clock_increases last evs ->
  exists last', SiteInv last' (site_run evs s).
Proof.
  revert last s. induction evs as [| ev evs IH]; intros last s HI Hclock; simpl.
  - by exists last.
  - destruct ev as [ev | projectId part env]; simpl in Hclock.
    + apply (IH last); [by apply SiteInv_world | done].
    + destruct Hclock as [Hlt Hclock].
      apply (IH (date_now env)); [by apply (SiteInv_upload last) | done].
Qed.

(** The stored file name is safe to use as a path component. Whatever name
    the client sends, the name the file is stored under consists of letters,
    digits, [_], [.] and [-] only, and starts with a digit of the timestamp:
    it has no path separator and is neither [.] nor [..]. *)
Theorem stored_filename_is_safe now nm :
  0 <= now ->
  all_chars is_safe (storage_filename now nm) = true /\
  exists a rest, storage_filename now nm = String a rest /\ is_digit a = true.
Proof.
  intros Hnow. destruct (pretty_digits now Hnow) as [Hd Hne].
  unfold storage_filename. split.
  - rewrite !all_chars_app, (digits_safe _ Hd). unfold safeName.
    by rewrite replace_unsafe_safe.
  - destruct (pretty now) as [| a d]; [done |].
    exists a, (d +:+ "_" +:+ safeName nm). split; [done |].
    simpl in Hd. by apply andb_true_iff in Hd as [? _].
Qed.

(** Sanitising a name: the result has safe characters only, is never longer
    than the name, is the name itself exactly when the name was safe, and
    sanitising again changes nothing. *)
Theorem safeName_is_idempotent nm :
  all_chars is_safe (safeName nm) = true /\
  (String.length (safeName nm) <= String.length nm)%nat /\
  (safeName nm = nm <-> all_chars is_safe nm = true) /\
  safeName (safeName nm) = safeName nm.
Proof.
  unfold safeName. split; [apply replace_unsafe_safe |].
  split; [apply replace_unsafe_length |]. split.
  - split; [intros <-; apply replace_unsafe_safe | apply replace_unsafe_id].
  - apply replace_unsafe_id, replace_unsafe_safe.
Qed.

(** Two uploads get the same stored file name exactly when they happen in the
    same millisecond with names that sanitise to the same string. *)
Theorem stored_filenames_collide_iff t1 t2 n1 n2 :
  0 <= t1 -> 0 <= t2 ->
  (storage_filename t1 n1 = storage_filename t2 n2 <->
   t1 = t2 /\ safeName n1 = safeName n2).
Proof.
  intros H1 H2. split; [by apply storage_filename_inj |].
  intros [-> Hs]. unfold storage_filename. by rewrite Hs.
Qed.

(** The row estimate when the file system hands over whole chunks: the line
    feeds among the first 10 MiB of the file, minus one for the header, and
    never less than 0.  An empty file and a file of one line give 0. *)
Theorem row_estimate_with_whole_chunks bytes :
  count_rows (Some bytes) full_reads
  = Some (Z.max (newlines (take (Z.to_nat scan_cap) bytes) - 1) 0).
Proof. apply count_rows_full. Qed.

(** The row estimate under any chunking. If no call throws, the scan ends and
    the estimate is [max(n - 1, 0)] with [n] the line feeds of a prefix of the
    file; the prefix is the whole file when the file has at most 10 MiB, and
    otherwise ends at 10 MiB or less than one chunk later. *)
Theorem row_estimate_counts_a_prefix bytes env :
  (forall p, read_throws env p = false) ->
  open_throws env = false -> close_throws env = false ->
  (exists p, count_rows (Some bytes) env
             = Some (Z.max (newlines (take (Z.to_nat p) bytes) - 1) 0) /\
     Z.min (Z.of_nat (length bytes)) scan_cap <= p <= Z.of_nat (length bytes) /\
     p < scan_cap + bufferSize) /\
  (Z.of_nat (length bytes) <= scan_cap ->
   count_rows (Some bytes) env = Some (Z.max (newlines bytes - 1) 0)).
Proof.
  intros Hread Hopen Hclose.
  destruct (count_rows_no_fault bytes env Hread Hopen Hclose)
    as (p & Hp & Hb1 & Hb2).
  split; [by exists p |].
  intros Hsmall. rewrite Hp. by rewrite take_ge by lia.
Qed.

(** An upload to a project that does not exist leaves no file behind: the
    answer is 404, no row is added, and the file the middleware has just
    written is removed again; every other file stays as it was. *)
Theorem rejected_upload_leaves_no_file projectId p env s :
  projectId ∉ projects (world s) ->
  let out := POST_datasets projectId (Some p) env s in
  let fn := storage_filename (date_now env) (part_name p) in
  out.1 = DatasetError 404 "Project not found" /\
  datasets out.2 = datasets s /\ next_dataset out.2 = next_dataset s /\
  world out.2 = world s /\
  uploads out.2 !! fn = None /\
  forall fn', fn' <> fn -> uploads out.2 !! fn' = uploads s !! fn'.
Proof.
  intros Hp. cbv zeta. rewrite POST_datasets_some. cbv zeta.
  rewrite bool_decide_eq_false_2 by done. simpl.
  repeat split; [apply lookup_delete_eq |].
  intros fn' Hne. by apply lookup_delete_ne.
Qed.

(** An accepted upload. For an existing project and a file that multer
    hands over, when the INSERT does not throw and the file system hands over
    whole chunks, the answer is the new row: its [name] is
    [file.originalname] as multer reports it (the last path component of the
    name the client sent, not that name itself), unsanitised; its [filename]
    is the stored file name, made of [Date.now()] and the sanitised
    [file.originalname]; its [size_bytes] is the number of bytes, its [rows]
    the estimate of these bytes; the row is stored under the next id and the
    bytes under the stored file name. *)
Theorem accepted_upload_stores_file_and_row projectId p env s :
  part_name p <> EmptyString ->
  projectId ∈ projects (world s) -> dataset_fault env = None ->
  scan_env env = full_reads ->
  let out := POST_datasets projectId (Some p) env s in
  let fn := storage_filename (date_now env) (part_name p) in
  let row := mkDatasetRow (next_dataset s) projectId (part_name p) fn
               (Z.of_nat (length (part_bytes p)))
               (Some (Z.max (newlines (take (Z.to_nat scan_cap) (part_bytes p)) - 1) 0)) in
  out.1 = DatasetReply row /\
  datasets out.2 !! next_dataset s = Some row /\
  next_dataset out.2 = next_dataset s + 1 /\
  uploads out.2 !! fn = Some (part_bytes p).
Proof.
  intros _ Hp Hfault Henv. cbv zeta. rewrite POST_datasets_some. cbv zeta.
  rewrite bool_decide_eq_true_2 by done.
  rewrite Hfault, Henv, count_rows_full.
  cbn [fst snd datasets next_dataset uploads].
  by rewrite !lookup_insert_eq.
Qed.

(** A failed scan does not fail the upload. When opening the file or the
    first read throws, the upload is still answered with the new row, whose
    [rows] is null; the file and the row are stored. *)
Theorem scan_failure_gives_null_rows projectId p env s :
  projectId ∈ projects (world s) -> dataset_fault env = None ->
  open_throws (scan_env env) = true \/ read_throws (scan_env env) 0 = true ->
  let out := POST_datasets projectId (Some p) env s in
  exists row, out.1 = DatasetReply row /\ d_rows row = None /\
    d_size_bytes row = Z.of_nat (length (part_bytes p)) /\
    datasets out.2 !! next_dataset s = Some row /\
    uploads out.2 !! d_filename row = Some (part_bytes p).
Proof.
  intros Hp Hfault Hthrow. cbv zeta. rewrite POST_datasets_some. cbv zeta.
  rewrite bool_decide_eq_true_2 by done. rewrite Hfault.
  assert (Hnull : count_rows (Some (part_bytes p)) (scan_env env) = None).
  { unfold count_rows. destruct (open_throws (scan_env env)); [done |].
    destruct Hthrow as [? | Hthrow]; [done |].
    rewrite scan_S. by rewrite Hthrow. }
  rewrite Hnull. eexists. split; [reflexivity |]. simpl.
  by rewrite !lookup_insert_eq.
Qed.

(** The rows of [datasets] describe the uploads directory. In every run in
    which each upload happens at a later millisecond than the one before,
    whatever else happens, every dataset row belongs to an existing project,
    its file is in the uploads directory and has [size_bytes] bytes, its
    [rows] is null or between 0 and [size_bytes], and no other row has the
    same file name. *)
Theorem dataset_rows_describe_stored_files evs i row :
  clock_increases (-1) evs ->
  let s := site_run evs site_init in
  datasets s !! i = Some row ->
  d_id row = i /\ d_project_id row ∈ projects (world s) /\
  (exists bytes, uploads s !! d_filename row = Some bytes /\
     d_size_bytes row = Z.of_nat (length bytes)) /\
  match d_rows row with
  | Some n => 0 <= n <= d_size_bytes row
  | None => True
  end /\
  forall i' row', datasets s !! i' = Some row' ->
    d_filename row' = d_filename row -> i' = i.
Proof.
  intros Hclock. cbv zeta. intros Hrow.
  destruct (SiteInv_run evs (-1) site_init SiteInv_init Hclock) as [last HI].
  destruct (si_rows _ _ HI i row Hrow) as (Hid & _ & Hproj & bytes & Hb & Hsz & Hr).
  split; [done |]. split; [done |]. split; [by exists bytes |].
  split; [done |].
  intros i' row' Hrow' Heq. by apply (si_unique _ _ HI i' i row' row).
Qed.

(** Two uploads that do not overlap, the second one arriving when the first
    has been answered, for which [Date.now()] gives the same millisecond and
    whose [file.originalname]s, as multer reports them, sanitise to the same
    string, share one stored file. Both are answered with a row, both rows
    name the same file, and the file holds the bytes of the second upload:
    the first row keeps the size of bytes that are gone.  (Nothing is said
    here of two uploads whose writes overlap.) *)
Theorem same_millisecond_uploads_share_a_file projectId p1 p2 env1 env2 s :
  part_name p1 <> EmptyString -> part_name p2 <> EmptyString ->
  projectId ∈ projects (world s) ->
  dataset_fault env1 = None -> dataset_fault env2 = None ->
  date_now env1 = date_now env2 ->
  safeName (part_name p1) = safeName (part_name p2) ->
  let s1 := (POST_datasets projectId (Some p1) env1 s).2 in
  let s2 := (POST_datasets projectId (Some p2) env2 s1).2 in
  exists row1 row2,
    datasets s2 !! next_dataset s = Some row1 /\
    datasets s2 !! (next_dataset s + 1) = Some row2 /\
    d_filename row1 = d_filename row2 /\
    d_size_bytes row1 = Z.of_nat (length (part_bytes p1)) /\
    uploads s2 !! d_filename row1 = Some (part_bytes p2).
Proof.
  intros _ _ Hp Hf1 Hf2 Hnow Hname. cbv zeta.
  rewrite (POST_datasets_some projectId p1). cbv zeta.
  rewrite bool_decide_eq_true_2 by done. rewrite Hf1.
  rewrite (POST_datasets_some projectId p2). cbv zeta.
  rewrite bool_decide_eq_true_2 by done. rewrite Hf2. simpl.
  eexists _, _. rewrite lookup_insert_ne by lia.
  rewrite !lookup_insert_eq.
  split; [reflexivity |]. split; [reflexivity |]. simpl.
  assert (Hfn : storage_filename (date_now env1) (part_name p1)
                = storage_filename (date_now env2) (part_name p2)).
  { unfold storage_filename. by rewrite Hnow, Hname. }
  split; [done |]. split; [done |].
  by rewrite Hfn, lookup_insert_eq.
Qed.

End Server.

(** ** Concrete runs *)

(** The conversion used in the closed examples below.  Their only string is
    ["abc"], which is no numeric literal and converts to NaN. *)
Definition StringToNumber_nan (s : string) : float := NaN.

(** The closed examples below convert no array. *)
Definition Array_toString_none (elems : list JsValue) : Completion string :=
  Normal EmptyString.

(** A server with one project and no job. *)
Definition one_project : World := run StringToNumber_nan Array_toString_none [NewProject] init.

(** 100 firings that the store accepts. *)
Definition hundred_ticks : list TickEnv :=
  map (fun k => accepted_tick (500 * Z.of_nat k)) (seq 1 100).

(** A store fault. *)
Definition disk_full : Exn := mkExn "SqliteError" "database or disk is full".

(** The store's answer to a NaN for [jobs.progress]. *)
Definition not_null_progress : Exn :=
  mkExn "SqliteError" "NOT NULL constraint failed: jobs.progress".

(** A firing whose flush the store refuses. *)
Definition refused_tick (t : Z) : TickEnv :=
  mkTickEnv 0 0 t (Some not_null_progress) None.

(** [{ config: { epochs: "abc" } }]. *)
Definition request_abc : JobRequest :=
  mkJobRequest None None (VObject [("epochs"%string, VString "abc")]).

(** One project, the job of [request_abc], whose [totalSteps] is NaN, and
    the first two firings of its timer: the first one writes nothing, the
    second one flushes a NaN progress, which the store refuses. *)
Definition nan_job_run : list Event :=
  [NewProject; CreateJob 1 request_abc (accepted_create 0)]
  ++ map (Fire 1) [accepted_tick 500; refused_tick 1000].

(** [{ config: { epochs: { toString: 0 } } }]. *)
Definition request_toString : JobRequest :=
  mkJobRequest None None
    (VObject [("epochs"%string, VObject [("toString"%string, VNumber (ofZ 0))])]).

(** A request without a body. *)
Definition request_default : JobRequest := mkJobRequest None None VUndefined.

(** One job of 20 steps whose process restarts after three firings. *)
Definition restarted_job : World :=
  run StringToNumber_nan Array_toString_none [Restart] (one_job StringToNumber_nan Array_toString_none 1 1 3).

(** The bytes of a file of three lines: [a,b], [1,2], [3,4]. *)
Definition csv : list Byte.byte :=
  [Byte.x61; Byte.x2c; Byte.x62; Byte.x0a; Byte.x31; Byte.x2c; Byte.x32;
   Byte.x0a; Byte.x33; Byte.x2c; Byte.x34; Byte.x0a].

Definition csv_part : Part := mkPart "my data?.csv" csv.

(** A file system that hands over five bytes at a time. *)
Definition five_bytes : ScanEnv :=
  mkScanEnv (fun _ => 5) (fun _ => false) false false.

(** A file system on which opening a file throws. *)
Definition no_open : ScanEnv :=
  mkScanEnv (fun _ => bufferSize) (fun _ => false) true false.

Definition upload_at (t : Z) : UploadEnv := mkUploadEnv t full_reads None.

(** A fresh site with one project. *)
Definition one_project_site : Site := set_world (fun _ => one_project) site_init.

(** A project, an upload to it, an upload to a project that does not exist,
    and a second upload to the first. *)
Definition three_uploads : list SiteEvent :=
  [OnWorld NewProject; Upload 1 (Some csv_part) (upload_at 5);
   Upload 7 (Some csv_part) (upload_at 6);
   Upload 1 (Some csv_part) (mkUploadEnv 9 five_bytes None)].

Lemma reachable_one_project : reachable StringToNumber_nan Array_toString_none one_project.
Proof. apply reachable_run, reachable_init. Qed.

Lemma one_project_has_1 : 1 ∈ projects one_project.
Proof. vm_compute. set_solver. Qed.

Lemma hundred_ticks_no_fault : Forall no_fault hundred_ticks.
Proof.
  apply Forall_forall. intros env Hin. unfold hundred_ticks in Hin.
  apply list_elem_of_fmap in Hin as (k & -> & _). by split.
Qed.

Lemma hundred_ticks_random :
  Forall (fun env => (0 <= random1 env < 1)%R) hundred_ticks.
Proof.
  apply Forall_forall. intros env Hin. unfold hundred_ticks in Hin.
  apply list_elem_of_fmap in Hin as (k & -> & _). simpl. lra.
Qed.

(** *** The theorems at concrete inputs *)

Lemma terminal_job_only_cancel_rewrites_status_witness :
  let w := one_job StringToNumber_nan Array_toString_none 1 1 20 in
  exists r, jobs w !! 1 = Some r /\ status r = completed /\
    jobTimers w !! 1 = None /\
    (POST_cancel 1 None w).1 =
      Reply 200 (JobBody (Some (set_status canceled r)) (metrics_json r)) /\
    jobs (POST_cancel 1 None w).2 !! 1 = Some (set_status canceled r).
Proof.
  cbv zeta. set (w := one_job StringToNumber_nan Array_toString_none 1 1 20).
  assert (Hs : status <$> jobs w !! 1 = Some completed) by (vm_compute; reflexivity).
  destruct (jobs w !! 1) as [r |] eqn:Hr; [| discriminate Hs].
  simpl in Hs. injection Hs as Hs.
  assert (Ht : terminal (status r) = true) by (by rewrite Hs).
  destruct (terminal_job_only_cancel_rewrites_status StringToNumber_nan Array_toString_none w 1 r
              (reachable_one_job StringToNumber_nan Array_toString_none 1 1 20) Hr Ht)
    as ((Hnt & _) & _ & H1 & H2 & _).
  exists r. auto.
Defined.


Lemma default_job_runs_to_completion_witness :
  let w1 := (POST_jobs StringToNumber_nan Array_toString_none 1 request_default (accepted_create 0)
               one_project).2 in
  let w2 := run StringToNumber_nan Array_toString_none (map (Fire 1) hundred_ticks) w1 in
  intervals w2 !! 1%nat = None /\ jobTimers w2 !! 1 = None /\
  exists r, jobs w2 !! 1 = Some r /\ status r = completed /\
    progress r = ofZ 100 /\ length (metrics_json r) = 100%nat.
Proof.
  cbv zeta.
  destruct (default_job_runs_to_completion StringToNumber_nan Array_toString_none one_project 1
              request_default (accepted_create 0) hundred_ticks
              one_project_has_1 eq_refl eq_refl eq_refl eq_refl eq_refl
              hundred_ticks_no_fault hundred_ticks_random)
    as (_ & _ & H1 & H2 & r & H3 & H4 & H5 & H6 & _).
  split; [exact H1 |]. split; [exact H2 |].
  exists r. split; [exact H3 |]. auto.
Defined.

Lemma cancel_freezes_last_flushed_state_witness :
  let w := one_job StringToNumber_nan Array_toString_none 1 1 3 in
  exists r, jobs w !! 1 = Some r /\ length (metrics_json r) = 2%nat /\
    (POST_cancel 1 None w).1 =
      Reply 200 (JobBody (Some (set_status canceled r)) (metrics_json r)) /\
    jobTimers (POST_cancel 1 None w).2 !! 1 = None /\
    exists r', (POST_cancel 2 None
                  (POST_jobs StringToNumber_nan Array_toString_none 1 (request 1 1) (accepted_create 0) w).2).1
               = Reply 200 (JobBody (Some r') []) /\
      status r' = canceled /\ progress r' = ofZ 0 /\ metrics_json r' = [].
Proof.
  cbv zeta. set (w := one_job StringToNumber_nan Array_toString_none 1 1 3).
  destruct (cancel_freezes_last_flushed_state StringToNumber_nan Array_toString_none w
              (reachable_one_job StringToNumber_nan Array_toString_none 1 1 3)) as [HA HB].
  assert (Hl : length <$> (metrics_json <$> jobs w !! 1) = Some 2%nat)
    by (vm_compute; reflexivity).
  destruct (jobs w !! 1) as [r |] eqn:Hr; [| discriminate Hl].
  simpl in Hl. injection Hl as Hl.
  assert (Ht : is_Some (jobTimers w !! 1)) by (vm_compute; eauto).
  destruct Ht as [tm Ht].
  destruct (HA 1 tm Ht) as (r0 & Hr0 & _ & A1 & _ & _ & A4 & _).
  assert (r0 = r) as -> by congruence.
  assert (Hin : 1 ∈ projects w) by (vm_compute; set_solver).
  destruct (HB 1 (request 1 1) (accepted_create 0) Hin eq_refl eq_refl)
    as (_ & r' & B1 & B2).
  exists r. split; [done |]. split; [done |]. split; [exact A1 |].
  split; [exact A4 |]. exists r'. split; [exact B1 | exact B2].
Defined.

Lemma metrics_contiguous_append_only_witness :
  let w := one_job StringToNumber_nan Array_toString_none 1 1 3 in
  map step <$> (metrics_json <$> jobs w !! 1) = Some [1; 2] /\
  map step <$> (cl_metrics <$> intervals w !! 1%nat) = Some [1; 2; 3] /\
  (forall j r (i : nat) s, jobs w !! j = Some r ->
     metrics_json r !! i = Some s -> step s = Z.of_nat i + 1) /\
  (forall evs j r, jobs w !! j = Some r ->
     exists r', jobs (run StringToNumber_nan Array_toString_none evs w) !! j = Some r' /\
                metrics_json r `prefix_of` metrics_json r' /\
                (length (metrics_json r) <= length (metrics_json r'))%nat).
Proof.
  cbv zeta.
  destruct (metrics_contiguous_append_only StringToNumber_nan Array_toString_none
              (one_job StringToNumber_nan Array_toString_none 1 1 3)
              (reachable_one_job StringToNumber_nan Array_toString_none 1 1 3))
    as (H1 & _ & _ & _ & H5).
  split; [vm_compute; reflexivity |]. split; [vm_compute; reflexivity |].
  split; [exact H1 | exact H5].
Defined.

Lemma sample_has_step_loss_accuracy_timeMs_witness :
  let w := one_job StringToNumber_nan Array_toString_none 1 1 2 in
  exists r ms, GET_job 1 w = Returns (Reply 200 (JobBody (Some r) ms)) w /\
    length ms = 2%nat /\
    Forall (fun s => keys s = ["step"; "loss"; "accuracy"; "timeMs"]%string /\
                     property s "elapsedMs" = None /\ 1 <= step s) ms.
Proof.
  cbv zeta. set (w := one_job StringToNumber_nan Array_toString_none 1 1 2).
  destruct (sample_has_step_loss_accuracy_timeMs StringToNumber_nan Array_toString_none w
              (reachable_one_job StringToNumber_nan Array_toString_none 1 1 2)) as [_ HB].
  assert (Hl : length <$> (metrics_json <$> jobs w !! 1) = Some 2%nat)
    by (vm_compute; reflexivity).
  unfold GET_job, select_job, mbind, M_bind, get in *.
  destruct (jobs w !! 1) as [r |] eqn:Hr; [| discriminate Hl].
  simpl in Hl. injection Hl as Hl.
  exists r, (metrics_json r). split; [reflexivity |]. split; [exact Hl |].
  apply Forall_forall. intros s Hs.
  specialize (HB 1 r (metrics_json r) s). rewrite Hr in HB.
  destruct (HB eq_refl Hs) as (K1 & K2 & (z & K3 & K4) & _).
  split; [exact K1 |]. split; [exact K2 |].
  unfold property in K3. simpl in K3. by injection K3 as ->.
Defined.

Lemma creation_response_follows_status_update_witness :
  let out := POST_jobs StringToNumber_nan Array_toString_none 1 (request 5 20)
               (accepted_create 0) one_project in
  exists r, out.1 = Reply 201 (JobBody (Some r) []) /\
    id r = 1 /\ status r = running /\
    jobs out.2 !! 1 = Some r /\ is_Some (jobTimers out.2 !! 1).
Proof.
  cbv zeta.
  destruct (creation_response_follows_status_update StringToNumber_nan
              Array_toString_none one_project 1 (request 5 20)
              (accepted_create 0) one_project_has_1 eq_refl)
    as (r & H1 & H2 & _ & _ & _ & [_ H3] & _ & H4).
  exists r. split; [exact H1 |]. split; [exact H2 |].
  split; [exact (H3 eq_refl) | exact (H4 eq_refl)].
Defined.

Lemma tick_write_failure_is_not_handled_witness :
  let w := one_job StringToNumber_nan Array_toString_none 1 1 1 in
  let env := mkTickEnv 0 0 1000 (Some disk_full) None in
  let w' := handle StringToNumber_nan Array_toString_none (Fire 1 env) w in
  interval_callback 1 env w = Throws disk_full w' /\
  is_Some (intervals w' !! 1%nat) /\ is_Some (jobTimers w' !! 1) /\
  exists r, jobs w' !! 1 = Some r /\ status r = running /\ status r <> failed.
Proof.
  cbv zeta. set (w := one_job StringToNumber_nan Array_toString_none 1 1 1).
  assert (Hf : (fun c => (cl_jobId c, cl_step c, cl_totalSteps c))
               <$> intervals w !! 1%nat = Some (1, 1, ofZ 20))
    by (vm_compute; reflexivity).
  destruct (intervals w !! 1%nat) as [c |] eqn:Hc; [| discriminate Hf].
  simpl in Hf. injection Hf as Hj Hs HT.
  assert (Hfl : flushes (cl_step c + 1) (cl_totalSteps c) = true).
  { rewrite Hs, HT. vm_compute. reflexivity. }
  destruct (tick_write_failure_is_not_handled StringToNumber_nan Array_toString_none w 1%nat c
              (mkTickEnv 0 0 1000 (Some disk_full) None) disk_full
              (reachable_one_job StringToNumber_nan Array_toString_none 1 1 1) Hc) as [HA _].
  destruct (HA Hfl eq_refl) as (H1 & H2 & H3 & _ & r & H5 & H6).
  rewrite Hj in H3, H5.
  split; [exact H1 |]. split; [eauto |]. split; [eauto |]. eauto.
Defined.

Lemma nan_totalSteps_never_completes_witness :
  let ticks := [accepted_tick 500; refused_tick 1000] in
  let w1 := (POST_jobs StringToNumber_nan Array_toString_none 1 request_abc
               (accepted_create 0) one_project).2 in
  let w2 := run StringToNumber_nan Array_toString_none (map (Fire 1) ticks) w1 in
  totalSteps_of StringToNumber_nan Array_toString_none (config_of request_abc)
  = Normal NaN /\
  store_run StringToNumber_nan Array_toString_none w1 (map (Fire 1) ticks)
  = true /\
  exists c r, intervals w2 !! 1%nat = Some c /\ cl_step c = 2 /\
    jobs w2 !! 1 = Some r /\ status r = running /\
    (progress r = ofZ 0 \/ progress r = NaN) /\
    is_Some (jobTimers w2 !! 1).
Proof.
  cbv zeta. split; [reflexivity |]. split; [vm_compute; reflexivity |].
  exact (nan_totalSteps_never_completes StringToNumber_nan Array_toString_none
           one_project 1 request_abc (accepted_create 0)
           [accepted_tick 500; refused_tick 1000]
           one_project_has_1 eq_refl eq_refl eq_refl).
Defined.

(** *** Where the code departs from the spec's wording *)

(** C1, as stated, fails: job 1 has completed, its timer is gone, and a
    cancel request rewrites its status to [canceled]. *)
Lemma cancel_rewrites_completed_job :
  let w := one_job StringToNumber_nan Array_toString_none 1 1 20 in
  reachable StringToNumber_nan Array_toString_none w /\
  status <$> jobs w !! 1 = Some completed /\
  jobTimers w !! 1 = None /\
  status <$> jobs (POST_cancel 1 None w).2 !! 1 = Some canceled /\
  completed <> canceled.
Proof.
  cbv zeta. split; [apply reachable_one_job |].
  split; [vm_compute; reflexivity |]. split; [vm_compute; reflexivity |].
  split; [vm_compute; reflexivity | discriminate].
Qed.

(** C9, as stated, fails: the simulator's status update throws, the request
    is answered 201 all the same, and the record in the response is
    [queued]; the fallback marks the row [failed] afterwards. *)
Lemma creation_response_can_be_queued :
  let env := mkCreateEnv None (Some disk_full) None 0 in
  let out := POST_jobs StringToNumber_nan Array_toString_none 1 request_default
               env one_project in
  1 ∈ projects one_project /\
  match out.1 with
  | Reply 201 (JobBody (Some r) []) => status r = queued /\ status r <> running
  | _ => False
  end /\
  status <$> jobs out.2 !! 1 = Some failed.
Proof.
  cbv zeta. split; [exact one_project_has_1 |].
  split; [| vm_compute; reflexivity].
  vm_compute. split; [reflexivity | discriminate].
Qed.


(** C8, as stated, fails: the samples read back from job 1 after two firings
    have the key [timeMs] and no key [elapsedMs]. *)
Lemma sample_has_no_elapsedMs :
  let w := one_job StringToNumber_nan Array_toString_none 1 1 2 in
  match GET_job 1 w with
  | Returns (Reply 200 (JobBody _ (s :: _))) _ =>
      keys s = ["step"; "loss"; "accuracy"; "timeMs"]%string /\
      property s "elapsedMs" = None /\
      property s "timeMs" = Some (FInt 500)
  | _ => False
  end.
Proof. cbv zeta. vm_compute. repeat split. Qed.

Lemma start_failure_marks_job_failed_witness :
  let env := mkCreateEnv None (Some disk_full) None 0 in
  let out := POST_jobs StringToNumber_nan Array_toString_none 1 (request 1 1) env one_project in
  (exists r, out.1 = Reply 201 (JobBody (Some r) []) /\ status r = queued) /\
  (exists r', jobs out.2 !! 1 = Some r' /\ status r' = failed /\
     error r' = Some "database or disk is full"%string) /\
  jobTimers out.2 !! 1 = None.
Proof.
  cbv zeta.
  destruct (start_failure_marks_job_failed StringToNumber_nan Array_toString_none one_project 1
              (request 1 1) (mkCreateEnv None (Some disk_full) None 0) disk_full
              one_project_has_1 eq_refl eq_refl eq_refl)
    as (H1 & H2 & H3 & _).
  split; [exact H1 |]. split; [exact H2 |].
  etrans; [exact H3 | vm_compute; reflexivity].
Defined.

Lemma registry_entries_are_live_timers_witness :
  let w := one_job StringToNumber_nan Array_toString_none 1 1 3 in
  exists tm c r, jobTimers w !! 1 = Some tm /\
    intervals w !! intervalId tm = Some c /\ cl_jobId c = 1 /\
    jobs w !! 1 = Some r /\ status r = running.
Proof.
  cbv zeta. set (w := one_job StringToNumber_nan Array_toString_none 1 1 3).
  destruct (registry_entries_are_live_timers StringToNumber_nan Array_toString_none w
              (reachable_one_job StringToNumber_nan Array_toString_none 1 1 3)) as [HA _].
  assert (Ht : is_Some (jobTimers w !! 1)) by (vm_compute; eauto).
  destruct Ht as [tm Ht].
  destruct (HA 1 tm Ht) as (c & r & H1 & H2 & _ & H4 & H5).
  exists tm, c, r. auto.
Defined.

Lemma cancel_unknown_job_is_not_found_witness :
  POST_cancel 7 (Some disk_full) one_project
  = (Reply 404 (ErrorBody "Job not found"), one_project).
Proof.
  exact (cancel_unknown_job_is_not_found one_project 7 (Some disk_full) eq_refl).
Defined.

(** *** The further theorems at concrete inputs *)

Lemma reachable_restarted_job : reachable StringToNumber_nan Array_toString_none restarted_job.
Proof. apply reachable_run, reachable_one_job. Qed.

Lemma stored_progress_is_a_percentage_witness :
  let w := one_job StringToNumber_nan Array_toString_none 1 1 3 in
  exists r, jobs w !! 1 = Some r /\
    (is_nan (progress r) = true \/
     (ge (progress r) (ofZ 0) = true /\ ge (ofZ 100) (progress r) = true)).
Proof.
  cbv zeta. set (w := one_job StringToNumber_nan Array_toString_none 1 1 3).
  assert (Hr : is_Some (jobs w !! 1)) by (vm_compute; eauto).
  destruct Hr as [r Hr]. exists r. split; [exact Hr |].
  exact (stored_progress_is_a_percentage StringToNumber_nan Array_toString_none w 1 r
           (reachable_one_job StringToNumber_nan Array_toString_none 1 1 3) Hr).
Defined.

Lemma stored_progress_matches_stored_metrics_witness :
  let w := one_job StringToNumber_nan Array_toString_none 1 1 3 in
  exists tm r c, jobTimers w !! 1 = Some tm /\ jobs w !! 1 = Some r /\
    intervals w !! intervalId tm = Some c /\
    ((metrics_json r = [] /\ progress r = ofZ 0) \/
     progress r
     = progress_of (Z.of_nat (length (metrics_json r))) (cl_totalSteps c)).
Proof.
  cbv zeta. set (w := one_job StringToNumber_nan Array_toString_none 1 1 3).
  assert (Ht : is_Some (jobTimers w !! 1)) by (vm_compute; eauto).
  assert (Hr : is_Some (jobs w !! 1)) by (vm_compute; eauto).
  destruct Ht as [tm Ht]. destruct Hr as [r Hr].
  destruct (stored_progress_matches_stored_metrics StringToNumber_nan Array_toString_none w 1 tm r
              (reachable_one_job StringToNumber_nan Array_toString_none 1 1 3) Ht Hr)
    as (c & Hc & H).
  exists tm, r, c. auto.
Defined.

Lemma stored_metrics_lag_at_most_one_witness :
  let w := one_job StringToNumber_nan Array_toString_none 1 1 3 in
  exists c r, intervals w !! 1%nat = Some c /\ jobs w !! cl_jobId c = Some r /\
    (metrics_json r = cl_metrics c \/
     (exists s, cl_metrics c = metrics_json r ++ [s] /\ Z.odd (step s) = true)).
Proof.
  cbv zeta. set (w := one_job StringToNumber_nan Array_toString_none 1 1 3).
  assert (Hc : exists c, intervals w !! 1%nat = Some c /\
                         is_Some (jobs w !! cl_jobId c))
    by (vm_compute; eauto).
  destruct Hc as (c & Hc & r & Hr).
  exists c, r. split; [exact Hc |]. split; [exact Hr |].
  exact (stored_metrics_lag_at_most_one StringToNumber_nan Array_toString_none w 1%nat c r
           (quietly_reachable_one_job StringToNumber_nan Array_toString_none 1 1 3) Hc Hr).
Defined.

Lemma job_without_timer_is_frozen_witness :
  let w := restarted_job in
  let evs := firings 1 3 ++ [CancelJob 7 None] in
  exists r r', jobs w !! 1 = Some r /\ status r = running /\
    jobs (run StringToNumber_nan Array_toString_none evs w) !! 1 = Some r' /\
    jobTimers (run StringToNumber_nan Array_toString_none evs w) !! 1 = None /\
    (r' = r \/ (In (CancelJob 1 None) evs /\ r' = set_status canceled r)).
Proof.
  cbv zeta.
  assert (Hr : exists r, jobs restarted_job !! 1 = Some r /\ status r = running)
    by (vm_compute; eauto).
  destruct Hr as (r & Hr & Hst).
  assert (Ht : jobTimers restarted_job !! 1 = None) by (vm_compute; reflexivity).
  destruct (job_without_timer_is_frozen StringToNumber_nan Array_toString_none restarted_job 1 r
              (firings 1 3 ++ [CancelJob 7 None])
              reachable_restarted_job Hr Ht) as (r' & Hr' & Ht' & H).
  exists r, r'. auto.
Defined.

Lemma job_identity_is_never_rewritten_witness :
  let w := one_job StringToNumber_nan Array_toString_none 1 1 0 in
  let evs := firings 1 3 ++ [CancelJob 1 None] in
  exists r r', jobs w !! 1 = Some r /\
    jobs (run StringToNumber_nan Array_toString_none evs w) !! 1 = Some r' /\
    id r' = 1 /\ project_id r' = project_id r /\ model_id r' = model_id r /\
    type r' = type r.
Proof.
  cbv zeta. set (w := one_job StringToNumber_nan Array_toString_none 1 1 0).
  assert (Hr : is_Some (jobs w !! 1)) by (vm_compute; eauto).
  destruct Hr as [r Hr].
  destruct (job_identity_is_never_rewritten StringToNumber_nan Array_toString_none w 1 r
              (firings 1 3 ++ [CancelJob 1 None])
              (reachable_one_job StringToNumber_nan Array_toString_none 1 1 0) Hr)
    as (r' & Hr' & H).
  exists r, r'. auto.
Defined.

Lemma completed_job_has_run_all_steps_witness :
  let w := one_job StringToNumber_nan Array_toString_none 1 1 20 in
  exists r, jobs w !! 1 = Some r /\ status r = completed /\
    progress r = ofZ 100 /\ (20 <= length (metrics_json r))%nat /\
    contiguous (metrics_json r) /\ jobTimers w !! 1 = None.
Proof.
  cbv zeta. set (w := one_job StringToNumber_nan Array_toString_none 1 1 20).
  assert (Hr : exists r, jobs w !! 1 = Some r /\ status r = completed)
    by (vm_compute; eauto).
  destruct Hr as (r & Hr & Hst).
  exists r. split; [exact Hr |]. split; [exact Hst |].
  exact (completed_job_has_run_all_steps StringToNumber_nan Array_toString_none w 1 r
           (reachable_one_job StringToNumber_nan Array_toString_none 1 1 20) Hr Hst).
Defined.

Lemma one_project_site_has_1 : 1 ∈ projects (world one_project_site).
Proof. exact one_project_has_1. Qed.

Lemma stored_filename_is_safe_witness :
  all_chars is_safe (storage_filename 1700000000000 "../a b/c.csv") = true /\
  exists a rest, storage_filename 1700000000000 "../a b/c.csv" = String a rest /\
    is_digit a = true.
Proof.
  apply (stored_filename_is_safe 1700000000000 "../a b/c.csv"). lia.
Defined.

Lemma stored_filenames_collide_iff_witness :
  storage_filename 5 "a b.csv" = storage_filename 5 "a?b.csv" <->
  5 = 5 /\ safeName "a b.csv" = safeName "a?b.csv".
Proof.
  apply (stored_filenames_collide_iff 5 5 "a b.csv" "a?b.csv"); lia.
Defined.

Lemma row_estimate_counts_a_prefix_witness :
  (exists p, count_rows (Some csv) five_bytes
             = Some (Z.max (newlines (take (Z.to_nat p) csv) - 1) 0) /\
     Z.min (Z.of_nat (length csv)) scan_cap <= p <= Z.of_nat (length csv) /\
     p < scan_cap + bufferSize) /\
  (Z.of_nat (length csv) <= scan_cap ->
   count_rows (Some csv) five_bytes = Some (Z.max (newlines csv - 1) 0)).
Proof.
  apply (row_estimate_counts_a_prefix csv five_bytes); reflexivity.
Defined.

Lemma rejected_upload_leaves_no_file_witness :
  let out := POST_datasets 7 (Some csv_part) (upload_at 5) one_project_site in
  let fn := storage_filename 5 "my data?.csv" in
  out.1 = DatasetError 404 "Project not found" /\
  datasets out.2 = datasets one_project_site /\
  next_dataset out.2 = next_dataset one_project_site /\
  world out.2 = world one_project_site /\
  uploads out.2 !! fn = None /\
  forall fn', fn' <> fn -> uploads out.2 !! fn' = uploads one_project_site !! fn'.
Proof.
  apply (rejected_upload_leaves_no_file 7 csv_part (upload_at 5) one_project_site).
  vm_compute. set_solver.
Defined.

Lemma accepted_upload_stores_file_and_row_witness :
  let out := POST_datasets 1 (Some csv_part) (upload_at 5) one_project_site in
  let fn := storage_filename 5 "my data?.csv" in
  let row := mkDatasetRow 1 1 "my data?.csv" fn 12
               (Some (Z.max (newlines (take (Z.to_nat scan_cap) csv) - 1) 0)) in
  out.1 = DatasetReply row /\
  datasets out.2 !! 1 = Some row /\
  next_dataset out.2 = 1 + 1 /\
  uploads out.2 !! fn = Some csv.
Proof.
  apply (accepted_upload_stores_file_and_row 1 csv_part (upload_at 5)
           one_project_site);
    [discriminate | exact one_project_site_has_1 | reflexivity | reflexivity].
Defined.

Lemma scan_failure_gives_null_rows_witness :
  let env := mkUploadEnv 5 no_open None in
  let out := POST_datasets 1 (Some csv_part) env one_project_site in
  exists row, out.1 = DatasetReply row /\ d_rows row = None /\
    d_size_bytes row = Z.of_nat (length csv) /\
    datasets out.2 !! 1 = Some row /\
    uploads out.2 !! d_filename row = Some csv.
Proof.
  exact (scan_failure_gives_null_rows 1 csv_part (mkUploadEnv 5 no_open None)
           one_project_site one_project_site_has_1 eq_refl (or_introl eq_refl)).
Defined.

Lemma dataset_rows_describe_stored_files_witness :
  let s := site_run StringToNumber_nan Array_toString_none three_uploads site_init in
  exists row, datasets s !! 2 = Some row /\
    d_id row = 2 /\ d_project_id row ∈ projects (world s) /\
    (exists bytes, uploads s !! d_filename row = Some bytes /\
       d_size_bytes row = Z.of_nat (length bytes)) /\
    match d_rows row with
    | Some n => 0 <= n <= d_size_bytes row
    | None => True
    end /\
    forall i' row', datasets s !! i' = Some row' ->
      d_filename row' = d_filename row -> i' = 2.
Proof.
  cbv zeta. set (s := site_run StringToNumber_nan Array_toString_none three_uploads site_init).
  assert (Hrow : is_Some (datasets s !! 2)) by (vm_compute; eauto).
  destruct Hrow as [row Hrow]. exists row. split; [exact Hrow |].
  apply (dataset_rows_describe_stored_files StringToNumber_nan Array_toString_none three_uploads 2 row);
    [simpl; lia | exact Hrow].
Defined.

Lemma same_millisecond_uploads_share_a_file_witness :
  let p1 := mkPart "a b.csv" csv in
  let p2 := mkPart "a?b.csv" (take 4 csv) in
  let s1 := (POST_datasets 1 (Some p1) (upload_at 5) one_project_site).2 in
  let s2 := (POST_datasets 1 (Some p2) (upload_at 5) s1).2 in
  exists row1 row2,
    datasets s2 !! 1 = Some row1 /\
    datasets s2 !! (1 + 1) = Some row2 /\
    d_filename row1 = d_filename row2 /\
    d_size_bytes row1 = Z.of_nat (length csv) /\
    uploads s2 !! d_filename row1 = Some (take 4 csv).
Proof.
  apply (same_millisecond_uploads_share_a_file 1 (mkPart "a b.csv" csv)
           (mkPart "a?b.csv" (take 4 csv)) (upload_at 5) (upload_at 5)
           one_project_site);
    [discriminate | discriminate | exact one_project_site_has_1
    | reflexivity | reflexivity | reflexivity | reflexivity].
Defined.

Lemma create_job_unknown_project_is_not_found_witness :
  POST_jobs StringToNumber_nan Array_toString_none 7 request_default (accepted_create 0) one_project
  = (Reply 404 (ErrorBody "Project not found"), one_project).
Proof.
  apply (create_job_unknown_project_is_not_found StringToNumber_nan Array_toString_none one_project 7
           request_default (accepted_create 0)).
  vm_compute. set_solver.
Defined.

Lemma failed_cancel_strands_running_job_witness :
  let w := one_job StringToNumber_nan Array_toString_none 1 1 3 in
  let out := POST_cancel 1 (Some disk_full) w in
  exists tm, jobTimers w !! 1 = Some tm /\
    out.1 = Uncaught disk_full /\
    exists r, jobs w !! 1 = Some r /\ status r = running /\
      jobs out.2 !! 1 = Some r /\
      jobTimers out.2 !! 1 = None /\ intervals out.2 !! intervalId tm = None /\
      forall evs, exists r',
        jobs (run StringToNumber_nan Array_toString_none evs out.2) !! 1 = Some r' /\
        jobTimers (run StringToNumber_nan Array_toString_none evs out.2) !! 1 = None /\
        (r' = r \/ (In (CancelJob 1 None) evs /\ r' = set_status canceled r)).
Proof.
  cbv zeta. set (w := one_job StringToNumber_nan Array_toString_none 1 1 3).
  assert (Ht : is_Some (jobTimers w !! 1)) by (vm_compute; eauto).
  destruct Ht as [tm Ht]. exists tm. split; [exact Ht |].
  exact (failed_cancel_strands_running_job StringToNumber_nan Array_toString_none w 1 tm disk_full
           (reachable_one_job StringToNumber_nan Array_toString_none 1 1 3) Ht).
Defined.

Lemma store_refuses_nan_progress_witness :
  let w := run StringToNumber_nan Array_toString_none nan_job_run init in
  exists c r, intervals w !! 1%nat = Some c /\
    is_nan (cl_totalSteps c) = true /\ cl_step c = 2 /\
    jobs w !! cl_jobId c = Some r /\
    status r = running /\ progress r = ofZ 0 /\ metrics_json r = [].
Proof.
  cbv zeta.
  set (w := run StringToNumber_nan Array_toString_none nan_job_run init).
  assert (Hw : store_reachable StringToNumber_nan Array_toString_none w).
  { apply store_reachable_run; [apply store_init | vm_compute; reflexivity]. }
  assert (Hc : exists c, intervals w !! 1%nat = Some c /\
                 is_nan (cl_totalSteps c) = true /\ cl_step c = 2 /\
                 is_Some (jobs w !! cl_jobId c))
    by (vm_compute; eauto 10).
  destruct Hc as (c & Hc & HT & Hs & r & Hr).
  destruct (store_refuses_nan_progress StringToNumber_nan Array_toString_none
              w Hw) as [_ HB].
  exists c, r. split; [exact Hc |]. split; [exact HT |]. split; [exact Hs |].
  split; [exact Hr |]. exact (HB 1%nat c r Hc HT Hr).
Defined.

Lemma unconvertible_config_fails_after_running_witness :
  let out := POST_jobs StringToNumber_nan Array_toString_none 1 request_toString
               (accepted_create 0) one_project in
  (exists r, out.1 = Reply 201 (JobBody (Some r) []) /\ status r = running) /\
  (exists r', jobs out.2 !! 1 = Some r' /\ status r' = failed /\
     error r' = Some "Cannot convert object to primitive value"%string) /\
  jobTimers out.2 = jobTimers one_project /\
  intervals out.2 = intervals one_project.
Proof.
  apply (unconvertible_config_fails_after_running StringToNumber_nan
           Array_toString_none one_project 1 request_toString
           (accepted_create 0) [("toString"%string, VNumber (ofZ 0))]);
    [exact one_project_has_1 | reflexivity | reflexivity | reflexivity
    | reflexivity | by eexists].
Defined.
